(** * Header-guard rewriting: [replace_header_guards.py]

    A shallow embedding of [replace_header_guard], [process_file],
    [find_header_files] and [main], together with the fragment of
    Python's [re] module that the two compiled patterns of the script
    rely on and the functions of [os] and [os.path] that the script
    calls.

    Text is a Python [str]; it is modelled as a list of characters, a
    character being a code point of the range U+0000..U+00FF (Rocq's
    [ascii]).  The classes [\s] and [\w] and [str.rstrip] classify these
    code points as CPython does for [str] patterns. *)

From Stdlib Require Import List Ascii String Bool Arith ZArith Lia.
Import ListNotations.
Open Scope string_scope.
Open Scope list_scope.
Open Scope nat_scope.

(** ** Text *)

Definition str := list ascii.

(** A string literal of the script. *)
Definition py (x : string) : str := list_ascii_of_string x.

(** The line feed, written ['\n'] in the script. *)
Definition NL : ascii := "010"%char.

(** [lines_nl [l1; ...; ln]] is [l1 + '\n' + ... + ln + '\n']. *)
Fixpoint lines_nl (ls : list string) : str :=
  match ls with
  | [] => []
  | l :: ls' => py l ++ NL :: lines_nl ls'
  end.

Fixpoint str_eqb (a b : str) : bool :=
  match a, b with
  | [], [] => true
  | x :: a', y :: b' => Ascii.eqb x y && str_eqb a' b'
  | _, _ => false
  end.

(** [Py_UNICODE_ISSPACE] on U+0000..U+00FF: TAB..CR, FS..US, SPACE, NEL
    and NBSP.  Both [\s] and [str.rstrip()] use it. *)
Definition is_space (c : ascii) : bool :=
  let n := nat_of_ascii c in
  ((9 <=? n) && (n <=? 13)) || ((28 <=? n) && (n <=? 32))
  || (n =? 133) || (n =? 160).

(** [Py_UNICODE_ISALNUM] on U+0000..U+00FF. *)
Definition is_alnum (c : ascii) : bool :=
  let n := nat_of_ascii c in
  ((48 <=? n) && (n <=? 57)) || ((65 <=? n) && (n <=? 90))
  || ((97 <=? n) && (n <=? 122))
  || (n =? 170) || (n =? 178) || (n =? 179) || (n =? 181)
  || (n =? 185) || (n =? 186) || ((188 <=? n) && (n <=? 190))
  || ((192 <=? n) && (n <=? 214)) || ((216 <=? n) && (n <=? 246))
  || ((248 <=? n) && (n <=? 255)).

(** [\w]: alphanumeric or underscore. *)
Definition is_word (c : ascii) : bool :=
  is_alnum c || Ascii.eqb c "_"%char.

(** [s.rstrip()]. *)
Fixpoint lstrip (s : str) : str :=
  match s with
  | c :: s' => if is_space c then lstrip s' else s
  | [] => []
  end.

Definition rstrip (s : str) : str := rev (lstrip (rev s)).

(** ** The fragment of [re] used by the script *)

Module Re.

(** Flags given to [re.compile]. *)
Record flags := { MULTILINE : bool; DOTALL : bool }.

(** One-character items: a literal, [.], [\s], [\w]. *)
Inductive cset :=
| CChr (c : ascii)
| CAny
| CSpace
| CWord.

(** Pattern syntax.  Repetition is only ever applied to a one-character
    item in the script's patterns, so [Star] carries a [cset]. *)
Inductive regex :=
| Eps
| One (c : cset)
| Bol                                  (* ^ *)
| Eol                                  (* $ *)
| WordB                                (* \b *)
| Seq (r1 r2 : regex)
| Alt (r1 r2 : regex)
| Star (greedy : bool) (c : cset)      (* c* and c*? *)
| Group (n : nat) (r : regex)
| Backref (n : nat).

Definition Plus (c : cset) : regex := Seq (One c) (Star true c).   (* c+ *)
Definition Opt (r : regex) : regex := Alt r Eps.                   (* r? *)

Fixpoint Lit' (s : str) : regex :=
  match s with
  | [] => Eps
  | c :: s' => Seq (One (CChr c)) (Lit' s')
  end.
Definition Lit (s : string) : regex := Lit' (py s).

Definition Seqs (rs : list regex) : regex := fold_right Seq Eps rs.

(** A captured group: start offset, end offset and text. *)
Record capture := { c_start : nat; c_end : nat; c_text : str }.

(** Matcher state: the offset reached, the character before it, the
    text from it on, and the groups closed so far (latest first). *)
Record mstate := {
  pos : nat;
  prev : option ascii;
  rest : str;
  caps : list (nat * capture)
}.

Definition advance (st : mstate) (c : ascii) (l : str) : mstate :=
  {| pos := S (pos st); prev := Some c; rest := l; caps := caps st |}.

Fixpoint lookup (n : nat) (cs : list (nat * capture)) : option capture :=
  match cs with
  | [] => None
  | (k, c) :: cs' => if k =? n then Some c else lookup n cs'
  end.

Definition close_group (n : nat) (st0 st1 : mstate) : mstate :=
  {| pos := pos st1; prev := prev st1; rest := rest st1;
     caps := (n, {| c_start := pos st0; c_end := pos st1;
                    c_text := firstn (pos st1 - pos st0) (rest st0) |})
             :: caps st1 |}.

Definition orelse {A} (a b : option A) : option A :=
  match a with Some _ => a | None => b end.

Section Matcher.

Variable fl : flags.

Definition cset_mem (cs : cset) (c : ascii) : bool :=
  match cs with
  | CChr d => Ascii.eqb c d
  | CAny => DOTALL fl || negb (Ascii.eqb c NL)
  | CSpace => is_space c
  | CWord => is_word c
  end.

Definition at_bol (st : mstate) : bool :=
  match prev st with
  | None => true
  | Some c => MULTILINE fl && Ascii.eqb c NL
  end.

Definition at_eol (st : mstate) : bool :=
  match rest st with
  | [] => true
  | c :: l =>
      Ascii.eqb c NL && (MULTILINE fl || match l with [] => true | _ => false end)
  end.

Definition opt_word (o : option ascii) : bool :=
  match o with Some c => is_word c | None => false end.

Definition at_wordb (st : mstate) : bool :=
  xorb (opt_word (prev st)) (opt_word (hd_error (rest st))).

(** [c*] (greedy: longest first) and [c*?] (lazy: shortest first),
    followed by the continuation [k]. *)
Fixpoint star (greedy : bool) (cs : cset) (k : mstate -> option mstate)
    (st : mstate) (l : str) {struct l} : option mstate :=
  match l with
  | c :: l' =>
      if cset_mem cs c then
        if greedy
        then orelse (star greedy cs k (advance st c l') l') (k st)
        else orelse (k st) (star greedy cs k (advance st c l') l')
      else k st
  | [] => k st
  end.

(** The text of a back-reference, matched literally. *)
Fixpoint literal (t : str) (k : mstate -> option mstate)
    (st : mstate) (l : str) {struct t} : option mstate :=
  match t with
  | [] => k st
  | c :: t' =>
      match l with
      | d :: l' =>
          if Ascii.eqb d c then literal t' k (advance st d l') l' else None
      | [] => None
      end
  end.

(** Backtracking matcher in continuation-passing style: alternatives
    are tried in the order [re] tries them and the first complete match
    is returned. *)
Fixpoint run (r : regex) (k : mstate -> option mstate) (st : mstate)
    : option mstate :=
  match r with
  | Eps => k st
  | One cs =>
      match rest st with
      | c :: l => if cset_mem cs c then k (advance st c l) else None
      | [] => None
      end
  | Bol => if at_bol st then k st else None
  | Eol => if at_eol st then k st else None
  | WordB => if at_wordb st then k st else None
  | Seq r1 r2 => run r1 (run r2 k) st
  | Alt r1 r2 => orelse (run r1 k st) (run r2 k st)
  | Star g cs => star g cs k st (rest st)
  | Group n r' => run r' (fun st1 => k (close_group n st st1)) st
  | Backref n =>
      match lookup n (caps st) with
      | Some c => literal (c_text c) k st (rest st)
      | None => None
      end
  end.

End Matcher.

(** A compiled pattern. *)
Record pattern := { p_regex : regex; p_flags : flags }.

Definition compile (r : regex) (f : flags) : pattern :=
  {| p_regex := r; p_flags := f |}.

(** A match object: [start()], [end()], the groups, and the state the
    scan resumes from. *)
Record mobj := {
  m_start : nat;
  m_end : nat;
  m_caps : list (nat * capture);
  m_after : mstate
}.

(** One attempt at the offset of [st]. *)
Definition match_at (p : pattern) (st : mstate) : option mobj :=
  let st0 := {| pos := pos st; prev := prev st; rest := rest st; caps := [] |} in
  match run (p_flags p) (p_regex p) (fun e => Some e) st0 with
  | Some e => Some {| m_start := pos st; m_end := pos e;
                      m_caps := caps e; m_after := e |}
  | None => None
  end.

(** The scan of [search]: every offset from [st] on, leftmost first. *)
Fixpoint search_from (p : pattern) (st : mstate) (l : str) {struct l}
    : option mobj :=
  match match_at p st with
  | Some m => Some m
  | None =>
      match l with
      | [] => None
      | c :: l' => search_from p (advance st c l') l'
      end
  end.

Definition start_state (s : str) : mstate :=
  {| pos := 0; prev := None; rest := s; caps := [] |}.

(** [p.search(s)]. *)
Definition search (p : pattern) (s : str) : option mobj :=
  search_from p (start_state s) s.

(** [p.finditer(s)]: successive non-overlapping matches.  After an
    empty match the scan moves on by one character.  [fuel] bounds the
    number of matches; [finditer] gives one more than the length. *)
Fixpoint finditer_from (fuel : nat) (p : pattern) (st : mstate) : list mobj :=
  match fuel with
  | 0 => []
  | S fuel' =>
      match search_from p st (rest st) with
      | None => []
      | Some m =>
          let e := m_after m in
          m :: (if m_end m =? m_start m
                then match rest e with
                     | [] => []
                     | c :: l => finditer_from fuel' p (advance e c l)
                     end
                else finditer_from fuel' p e)
      end
  end.

Definition finditer (p : pattern) (s : str) : list mobj :=
  finditer_from (S (List.length s)) p (start_state s).

(** [m.group(n)], [m.start(n)], [m.end(n)] for [n >= 1]; [None] when
    the group took no part in the match. *)
Definition group (m : mobj) (n : nat) : option str :=
  option_map c_text (lookup n (m_caps m)).
Definition start (m : mobj) (n : nat) : option nat :=
  option_map c_start (lookup n (m_caps m)).
Definition end_ (m : mobj) (n : nat) : option nat :=
  option_map c_end (lookup n (m_caps m)).

End Re.

Import Re.

(** ** [replace_header_guard] *)

(** [r'(^.*?)(^\s*#ifndef\s+(\w+)\s*$\n^\s*#define\s+\3\s*$\n?)'] with
    [re.MULTILINE | re.DOTALL]. *)
Definition header_guard_pattern : pattern :=
  compile
    (Seq (Group 1 (Seq Bol (Star false CAny)))
         (Group 2 (Seqs [Bol; Star true CSpace; Lit "#ifndef"; Plus CSpace;
                         Group 3 (Plus CWord); Star true CSpace; Eol;
                         One (CChr NL);
                         Bol; Star true CSpace; Lit "#define"; Plus CSpace;
                         Backref 3; Star true CSpace; Eol;
                         Opt (One (CChr NL))])))
    {| MULTILINE := true; DOTALL := true |}.

(** [r'^\s*#(if|ifdef|ifndef|endif).*$'] with [re.MULTILINE]. *)
Definition directive_pattern : pattern :=
  compile
    (Seqs [Bol; Star true CSpace; Lit "#";
           Group 1 (Alt (Lit "if") (Alt (Lit "ifdef")
                      (Alt (Lit "ifndef") (Lit "endif"))));
           Star true CAny; Eol])
    {| MULTILINE := true; DOTALL := false |}.

(** Exceptions the body can raise. *)
Inductive exn := IndexError | TypeError.

Inductive outcome (A : Type) :=
| Return (a : A)
| Raise (e : exn).
Arguments Return {A} a.
Arguments Raise {A} e.

(** [x in (a, b, c)] and [x == a] on an optional string. *)
Definition opt_eqb (x : option str) (a : string) : bool :=
  match x with Some t => str_eqb t (py a) | None => false end.

(** [list.pop()]: the stack is kept with its top first. *)
Definition pop (stack : list str) : outcome (list str) :=
  match stack with
  | [] => Raise IndexError
  | _ :: stack' => Return stack'
  end.

Definition pragma_once : str :=
  NL :: py "#pragma once" ++ [NL; NL].

(** The text built at lines 59-65 from the terminating [#endif], whose
    match spans [dm_start, dm_end) of [post_define_content]. *)
Definition rebuild (content pre_guard_content post_define_content : str)
    (guard_end_pos dm_start dm_end : nat) : str :=
  let endif_pos := guard_end_pos + dm_end in
  let between_content := firstn dm_start post_define_content in
  let post_endif_content := skipn endif_pos content in
  let new_content :=
    pre_guard_content ++ pragma_once ++ between_content ++ post_endif_content in
  rstrip new_content ++ [NL].

(** The [for] loop of lines 51-65 over the matches still to visit. *)
Fixpoint scan (content pre_guard_content post_define_content : str)
    (guard_end_pos : nat) (stack : list str) (ms : list mobj)
    : outcome (option str) :=
  match ms with
  | [] => Return None
  | directive_match :: ms' =>
      let directive := group directive_match 1 in
      if opt_eqb directive "if" || opt_eqb directive "ifdef"
         || opt_eqb directive "ifndef"
      then
        match directive with
        | Some d =>
            scan content pre_guard_content post_define_content guard_end_pos
                 (("#"%char :: d) :: stack) ms'
        | None => Raise TypeError
        end
      else if opt_eqb directive "endif" then
        match pop stack with
        | Raise e => Raise e
        | Return stack' =>
            match stack' with
            | [] =>
                Return (Some (rebuild content pre_guard_content
                                post_define_content guard_end_pos
                                (m_start directive_match)
                                (m_end directive_match)))
            | _ :: _ =>
                scan content pre_guard_content post_define_content
                     guard_end_pos stack' ms'
            end
        end
      else
        scan content pre_guard_content post_define_content guard_end_pos
             stack ms'
  end.

Definition replace_header_guard (content : str) : outcome (option str) :=
  match search header_guard_pattern content with
  | None => Return None
  | Some match_ =>
      match group match_ 1, start match_ 2, end_ match_ 2 with
      | Some pre_guard_content, Some _, Some guard_end_pos =>
          let post_define_content := skipn guard_end_pos content in
          let stack := [py "#ifndef"] in
          scan content pre_guard_content post_define_content guard_end_pos
               stack (finditer directive_pattern post_define_content)
      | _, _, _ => Raise TypeError
      end
  end.

(** ** [process_file] *)

(** What [process_file] prints, to [stdout] or [stderr]. *)
Inductive message :=
| ErrorReading (file_path : string)
| NoHeaderGuard (file_path : string)
| NoChangesNeeded (file_path : string)
| DryRunWouldUpdate (file_path : string)
| Updated (file_path : string)
| ErrorWriting (file_path : string).

(** The files the script can read, those it can write, and its output.
    A path names one file: links between paths are not modelled.
    [writable w p] tells whether [open(p, 'w')] and the [f.write] that
    follows both succeed; a file that cannot be written is left as it
    was, as when [open] itself fails.  A line given to [print] is
    printed: a stream that refuses it is not modelled. *)
Record world := {
  files : string -> option str;
  writable : string -> bool;
  printed : list message
}.

Definition print (w : world) (m : message) : world :=
  {| files := files w; writable := writable w; printed := printed w ++ [m] |}.

Definition write (w : world) (file_path : string) (text : str) : world :=
  {| files := fun q => if String.eqb q file_path then Some text else files w q;
     writable := writable w; printed := printed w |}.

Definition process_file (w : world) (file_path : string)
    (dry_run verbose : bool) : outcome world :=
  match files w file_path with
  | None => Return (print w (ErrorReading file_path))
  | Some content =>
      match replace_header_guard content with
      | Raise e => Raise e
      | Return None =>
          Return (if verbose then print w (NoHeaderGuard file_path) else w)
      | Return (Some new_content) =>
          if str_eqb content new_content then
            Return (if verbose then print w (NoChangesNeeded file_path) else w)
          else if dry_run then
            Return (print w (DryRunWouldUpdate file_path))
          else if writable w file_path then
            let w' := write w file_path new_content in
            Return (if verbose then print w' (Updated file_path) else w')
          else Return (print w (ErrorWriting file_path))
      end
  end.

(** ** [find_header_files] *)

(** File names and paths are [str] values as well.  The functions of
    [os.path] are those of [posixpath]; [os.walk] is read with its
    default arguments ([topdown=True], [onerror=None],
    [followlinks=False]). *)

(** [p.rfind(c)] for a one-character [c]: the highest index at which
    [c] occurs in [p], or -1. *)
Fixpoint rfind_from (p : str) (c : ascii) (i last : Z) : Z :=
  match p with
  | [] => last
  | x :: p' => rfind_from p' c (i + 1) (if Ascii.eqb x c then i else last)
  end.

Definition rfind (p : str) (c : ascii) : Z := rfind_from p c 0 (-1).

(** The [while] loop of [genericpath._splitext], which skips the
    leading dots of the file name; [n] is [dotIndex - filenameIndex],
    the number of turns left.  [None] when the loop ends without
    returning. *)
Fixpoint skip_leading_dots (p : str) (dotIndex filenameIndex : Z) (n : nat)
    : option (str * str) :=
  match n with
  | 0 => None
  | S n' =>
      if negb (str_eqb (firstn 1 (skipn (Z.to_nat filenameIndex) p)) (py "."))
      then Some (firstn (Z.to_nat dotIndex) p, skipn (Z.to_nat dotIndex) p)
      else skip_leading_dots p dotIndex (filenameIndex + 1) n'
  end.

(** [os.path.splitext(p)]. *)
Definition splitext (p : str) : str * str :=
  let sepIndex := rfind p "/" in
  let dotIndex := rfind p "." in
  if (sepIndex <? dotIndex)%Z then
    let filenameIndex := (sepIndex + 1)%Z in
    match skip_leading_dots p dotIndex filenameIndex
            (Z.to_nat (dotIndex - filenameIndex)) with
    | Some r => r
    | None => (p, [])
    end
  else (p, []).

(** [str.lower] on one code point of U+0000..U+00FF: the capital
    letters are A-Z, U+00C0-U+00D6 and U+00D8-U+00DE, each 32 below its
    small letter. *)
Definition lower_char (c : ascii) : ascii :=
  let n := nat_of_ascii c in
  if ((65 <=? n) && (n <=? 90)) || ((192 <=? n) && (n <=? 214))
     || ((216 <=? n) && (n <=? 222))
  then ascii_of_nat (n + 32) else c.

(** [s.lower()]. *)
Definition lower (s : str) : str := map lower_char s.

(** [HEADER_EXTENSIONS], a set. *)
Definition HEADER_EXTENSIONS : list str :=
  [py ".h"; py ".hpp"; py ".hh"; py ".hxx"; py ".h++"].

(** [x in s] for a set of strings. *)
Definition in_set (x : str) (s : list str) : bool := existsb (str_eqb x) s.

Definition startswith_sep (b : str) : bool :=
  match b with c :: _ => Ascii.eqb c "/" | [] => false end.

Definition endswith_sep (a : str) : bool :=
  match rev a with c :: _ => Ascii.eqb c "/" | [] => false end.

(** [os.path.join(a, b)]. *)
Definition join (a b : str) : str :=
  if startswith_sep b then b
  else if match a with [] => true | _ :: _ => false end || endswith_sep a
       then a ++ b
  else a ++ "/"%char :: b.

(** A directory as [os.scandir] lists it: the names of its entries that
    are directories, in the order of the listing, each with what the
    walk finds below it, and the names of the other entries.  A
    directory that the walk does not enter (a symbolic link, or one
    whose listing fails) has [None]. *)
#[warnings="-register-all"] Inductive tree :=
| Tree (dirs : list (str * option tree)) (nondirs : list str).

(** [os.walk(top)] on a directory that lists as [t]: the triples
    [(dirpath, dirnames, filenames)], top down. *)
Fixpoint walk_tree (top : str) (t : tree) : list (str * list str * list str) :=
  match t with
  | Tree dirs nondirs =>
      (top, map fst dirs, nondirs)
      :: flat_map (fun d =>
                     match snd d with
                     | Some t' => walk_tree (join top (fst d)) t'
                     | None => []
                     end) dirs
  end.

(** What the script sees of the file system besides the contents of
    files: [os.path.isdir], and the listing of a path by [os.scandir]
    ([None] when it fails). *)
Record filesystem := {
  isdir : str -> bool;
  listing : str -> option tree
}.

Definition walk (fs : filesystem) (top : str)
    : list (str * list str * list str) :=
  match listing fs top with
  | Some t => walk_tree top t
  | None => []
  end.

(** The inner [for] loop, lines 15-18. *)
Definition add_header_files (dirpath : str) (filenames : list str)
    (header_files : list str) : list str :=
  fold_left (fun header_files filename =>
               let (_, ext) := splitext filename in
               if in_set (lower ext) HEADER_EXTENSIONS
               then header_files ++ [join dirpath filename]
               else header_files)
            filenames header_files.

Definition find_header_files (fs : filesystem) (root_dir : str) : list str :=
  fold_left (fun header_files triple =>
               let '(dirpath, _, filenames) := triple in
               add_header_files dirpath filenames header_files)
            (walk fs root_dir) [].

(** ** [main] *)

(** The result of [parser.parse_args()]. *)
Record Namespace := {
  arg_directory : str;
  arg_dry_run : bool;
  arg_verbose : bool
}.

(** What the run prints, in order: the lines of [main] itself and those
    of the calls of [process_file]. *)
Inductive main_message :=
| NotAValidDirectory (root_dir : str)
| FoundHeaderFiles (n : nat)
| FileMessage (m : message)
| ProcessingComplete.

Inductive main_outcome :=
| Finished (out : list main_message) (w : world)
| SystemExit (code : nat) (out : list main_message) (w : world)
| MainRaise (e : exn).

(** The [for] loop of lines 135-136. *)
Fixpoint process_files (w : world) (header_files : list str)
    (dry_run verbose : bool) : outcome world :=
  match header_files with
  | [] => Return w
  | file_path :: header_files' =>
      match process_file w (string_of_list_ascii file_path) dry_run verbose with
      | Raise e => Raise e
      | Return w' => process_files w' header_files' dry_run verbose
      end
  end.

(** What was printed between [w] and [w']. *)
Definition emitted (w w' : world) : list message :=
  skipn (List.length (printed w)) (printed w').

(** [main], from line 123 on: the arguments are parsed. *)
Definition main (fs : filesystem) (args : Namespace) (w : world)
    : main_outcome :=
  let root_dir := arg_directory args in
  let dry_run := arg_dry_run args in
  let verbose := arg_verbose args in
  if negb (isdir fs root_dir) then
    SystemExit 1 [NotAValidDirectory root_dir] w
  else
    let header_files := find_header_files fs root_dir in
    let found :=
      if verbose then [FoundHeaderFiles (List.length header_files)] else [] in
    match process_files w header_files dry_run verbose with
    | Raise e => MainRaise e
    | Return w' =>
        Finished (found ++ map FileMessage (emitted w w')
                    ++ (if verbose then [ProcessingComplete] else []))
                 w'
    end.

(** ** Nesting depth, as the specification words it *)

Definition is_open (g : option str) : bool :=
  opt_eqb g "if" || opt_eqb g "ifdef" || opt_eqb g "ifndef".

Definition is_close (g : option str) : bool := opt_eqb g "endif".

(** The depth after a directive whose group 1 is [g]. *)
Definition step_depth (g : option str) (d : nat) : nat :=
  if is_open g then S d else if is_close g then pred d else d.

(** The depths reached after each directive in turn, from depth [d]. *)
Fixpoint depth_trace (d : nat) (gs : list (option str)) : list nat :=
  match gs with
  | [] => []
  | g :: gs' => step_depth g d :: depth_trace (step_depth g d) gs'
  end.

(** The depth after all of them. *)
Fixpoint depth_after (d : nat) (gs : list (option str)) : nat :=
  match gs with
  | [] => d
  | g :: gs' => depth_after (step_depth g d) gs'
  end.

Definition groups1 (ms : list mobj) : list (option str) :=
  map (fun m => group m 1) ms.

(** The depth counter, seeded at 1, never comes back to zero. *)
Definition never_zero (ms : list mobj) : Prop :=
  Forall (fun d => d <> 0) (depth_trace 1 (groups1 ms)).

(** No guard-shaped pair is found. *)
Definition no_guard (content : str) : Prop :=
  search header_guard_pattern content = None.

(** A guard is found and its [#endif] is not. *)
Definition unterminated (content : str) : Prop :=
  exists m pre gs ge,
    search header_guard_pattern content = Some m /\
    group m 1 = Some pre /\ start m 2 = Some gs /\ end_ m 2 = Some ge /\
    never_zero (finditer directive_pattern (skipn ge content)).

Inductive kind := KOpen | KClose.

Definition kind_of (m : mobj) : option kind :=
  if is_open (group m 1) then Some KOpen
  else if is_close (group m 1) then Some KClose
  else None.

(** [nested n w]: the directives [w] form [n] conditional blocks, each
    opened by an [#if]/[#ifdef]/[#ifndef] and closed by an [#endif],
    side by side or one inside another. *)
Inductive nested : nat -> list kind -> Prop :=
| nested_nil : nested 0 []
| nested_block n m a b :
    nested n a -> nested m b ->
    nested (S (n + m)) (KOpen :: a ++ KClose :: b).

Definition count_close (w : list kind) : nat :=
  List.length (filter (fun k => match k with KClose => true | KOpen => false end) w).

(** The full per-file transform: the new text when there is one, the
    input itself otherwise. *)
Definition rewrite_text (content : str) : str :=
  match replace_header_guard content with
  | Return (Some new_content) => new_content
  | _ => content
  end.

(** ** Deterministic readings of the two patterns

    Each pattern is followed by a function that computes, without any
    backtracking, what the matcher returns on it; the two are proved
    equal below. *)

Fixpoint take_while (p : ascii -> bool) (l : str) : str :=
  match l with
  | c :: l' => if p c then c :: take_while p l' else []
  | [] => []
  end.

Fixpoint drop_while (p : ascii -> bool) (l : str) : str :=
  match l with
  | c :: l' => if p c then drop_while p l' else l
  | [] => []
  end.

Fixpoint strip_prefix (t l : str) : option str :=
  match t with
  | [] => Some l
  | c :: t' =>
      match l with
      | d :: l' => if Ascii.eqb d c then strip_prefix t' l' else None
      | [] => None
      end
  end.

Definition has_nl (w : str) : bool := existsb (Ascii.eqb NL) w.

Definition is_nil (w : str) : bool :=
  match w with [] => true | _ => false end.

(** The state reached from [st] once the characters of [w], a prefix of
    the remaining text, are consumed. *)
Fixpoint skip (st : mstate) (w : str) : mstate :=
  match w with
  | [] => st
  | c :: w' => skip (advance st c (tl (rest st))) w'
  end.

(** [\s*$\n?] at the end of the guard pattern: the number of characters
    it takes.  The greedy run is given back down to the last line feed
    unless it reaches the end of the text. *)
Fixpoint trail (l : str) : option nat :=
  match l with
  | [] => Some 0
  | c :: l' =>
      if is_space c then
        match trail l' with
        | Some n => Some (S n)
        | None => if Ascii.eqb c NL then Some 1 else None
        end
      else None
  end.

Definition shift (k : nat) (o : option nat) : option nat :=
  option_map (fun n => k + n) o.

(** [\3\s*$\n?] *)
Definition tail_ref (name l : str) : option nat :=
  match strip_prefix name l with
  | Some l' => shift (List.length name) (trail l')
  | None => None
  end.

(** [#define\s+\3\s*$\n?] *)
Definition tail_define (name l : str) : option nat :=
  match strip_prefix (py "#define") l with
  | Some l' =>
      let w := take_while is_space l' in
      if is_nil w then None
      else shift (7 + List.length w) (tail_ref name (drop_while is_space l'))
  | None => None
  end.

(** [\s*$\n^\s*#define\s+\3\s*$\n?]: the white space after the
    identifier must hold a line feed. *)
Definition tail_gap (name l : str) : option nat :=
  let w := take_while is_space l in
  if has_nl w
  then shift (List.length w) (tail_define name (drop_while is_space l))
  else None.

(** [(\w+)\s*$\n^\s*#define\s+\3\s*$\n?] *)
Definition tail_name (l : str) : option (nat * str) :=
  let name := take_while is_word l in
  if is_nil name then None
  else match tail_gap name (drop_while is_word l) with
       | Some n => Some (List.length name + n, name)
       | None => None
       end.

(** [#ifndef\s+(\w+)...] *)
Definition tail_ifndef (l : str) : option (nat * str) :=
  match strip_prefix (py "#ifndef") l with
  | Some l' =>
      let w := take_while is_space l' in
      if is_nil w then None
      else match tail_name (drop_while is_space l') with
           | Some (n, name) => Some (7 + List.length w + n, name)
           | None => None
           end
  | None => None
  end.

(** Group 2 of the guard pattern tried on [l], a text that starts a
    line: the length of the span and the identifier. *)
Definition guard_here (l : str) : option (nat * str) :=
  let w := take_while is_space l in
  match tail_ifndef (drop_while is_space l) with
  | Some (n, name) => Some (List.length w + n, name)
  | None => None
  end.

(** The first offset, scanning forward from [p], at which a line starts
    and group 2 matches: start of the span, its length, the identifier. *)
Fixpoint find_guard (bol : bool) (l : str) (p : nat)
    : option (nat * nat * str) :=
  match (if bol then guard_here l else None) with
  | Some (n, name) => Some (p, n, name)
  | None =>
      match l with
      | [] => None
      | c :: l' => find_guard (Ascii.eqb c NL) l' (S p)
      end
  end.

Definition locate (content : str) : option (nat * nat * str) :=
  find_guard true content 0.

(** ** The guard pattern, stage by stage *)

(** [e] is [n] characters further than [st]. *)
Definition ahead (st : mstate) (n : nat) (e : mstate) : Prop :=
  pos e = pos st + n /\ rest st = firstn n (rest st) ++ rest e
  /\ List.length (firstn n (rest st)) = n.

Definition re_trail : regex :=
  Seq (Star true CSpace) (Seq Eol (Seq (Opt (One (CChr NL))) Eps)).

Definition re_ref : regex := Seq (Backref 3) re_trail.

Definition re_define : regex :=
  Seq (Lit "#define") (Seq (Plus CSpace) re_ref).

Definition re_gap : regex :=
  Seq (Star true CSpace)
    (Seq Eol (Seq (One (CChr NL)) (Seq Bol (Seq (Star true CSpace) re_define)))).

Definition re_name : regex := Seq (Group 3 (Plus CWord)) re_gap.

Definition re_ifndef : regex :=
  Seq (Lit "#ifndef") (Seq (Plus CSpace) re_name).

Definition re_guard : regex := Seq Bol (Seq (Star true CSpace) re_ifndef).

(** What a run of [R] from [st] into [K] amounts to when the
    deterministic reading gives [o]. *)
Definition accepts (R : regex) (K : mstate -> option mstate) (st : mstate)
    (o : option nat) : Prop :=
  match o with
  | Some n =>
      exists e, run {| MULTILINE := true; DOTALL := true |} R K st = K e /\
                ahead st n e /\ caps e = caps st
  | None => run {| MULTILINE := true; DOTALL := true |} R K st = None
  end.

(** The identifier captured by group 3, as the later stages see it. *)
Definition holds_name (st : mstate) (name : str) : Prop :=
  exists c3, lookup 3 (caps st) = Some c3 /\ c_text c3 = name.

(** The same for the part of the pattern that also closes group 3. *)
Definition accepts3 (K : mstate -> option mstate) (R : regex) (st : mstate)
    (o : option (nat * str)) : Prop :=
  match o with
  | Some (n, name) =>
      exists e, run {| MULTILINE := true; DOTALL := true |} R K st = K e /\
                ahead st n e /\
                exists c3, caps e = (3, c3) :: caps st /\ c_text c3 = name
  | None => run {| MULTILINE := true; DOTALL := true |} R K st = None
  end.

Definition shift3 (k : nat) (o : option (nat * str)) : option (nat * str) :=
  match o with Some (n, name) => Some (k + n, name) | None => None end.

(** What follows group 1: group 2, tried at the state where the lazy
    [.*?] stopped. *)
Definition after_pre (st0 st1 : mstate) : option mstate :=
  run {| MULTILINE := true; DOTALL := true |} (Group 2 re_guard)
      (fun e => Some e) (close_group 1 st0 st1).

Definition pre_capture (st0 st1 : mstate) : capture :=
  {| c_start := pos st0; c_end := pos st1;
     c_text := firstn (pos st1 - pos st0) (rest st0) |}.

(** The final state of a match whose group 2 spans [p, p + n). *)
Definition guard_match (st0 : mstate) (p n : nat) (name : str) (e : mstate)
    : Prop :=
  pos e = p + n /\
  exists st1 c2 c3,
    pos st1 = p /\
    caps e = (2, c2) :: (3, c3) :: (1, pre_capture st0 st1) :: caps st1 /\
    c_start c2 = p /\ c_end c2 = p + n /\ c_text c3 = name.

(** ** The directive pattern and the whole function, deterministically *)

Definition not_nl (c : ascii) : bool := negb (Ascii.eqb c NL).

(** [directive_pattern] tried on [l], a text that starts a line: the
    length of the match and the text of group 1.  As [if] is the first
    alternative and [.*$] accepts whatever follows it, group 1 is [if]
    for [#if], [#ifdef] and [#ifndef] alike. *)
Definition dir_here (l : str) : option (nat * str) :=
  let w := take_while is_space l in
  match drop_while is_space l with
  | c :: l1 =>
      if Ascii.eqb c "#" then
        match strip_prefix (py "if") l1 with
        | Some l2 =>
            Some (List.length w + 1 + 2 + List.length (take_while not_nl l2),
                  py "if")
        | None =>
            match strip_prefix (py "endif") l1 with
            | Some l2 =>
                Some (List.length w + 1 + 5
                      + List.length (take_while not_nl l2), py "endif")
            | None => None
            end
        end
      else None
  | [] => None
  end.

(** The first offset from [p] on at which a line starts and the
    directive pattern matches: start, length, group 1, and the text
    left after the match. *)
Fixpoint find_dir (bol : bool) (l : str) (p : nat)
    : option (nat * nat * str * str) :=
  match (if bol then dir_here l else None) with
  | Some (n, kw) => Some (p, n, kw, skipn n l)
  | None =>
      match l with
      | [] => None
      | c :: l' => find_dir (Ascii.eqb c NL) l' (S p)
      end
  end.

(** The matches of [finditer], as (start, length, group 1). *)
Fixpoint dirs (fuel : nat) (bol : bool) (l : str) (p : nat)
    : list (nat * nat * str) :=
  match fuel with
  | 0 => []
  | S fuel' =>
      match find_dir bol l p with
      | Some (q, n, kw, r) => (q, n, kw) :: dirs fuel' false r (q + n)
      | None => []
      end
  end.

Definition directives (text : str) : list (nat * nat * str) :=
  dirs (S (List.length text)) true text 0.

Definition re_kw : regex :=
  Alt (Lit "if") (Alt (Lit "ifdef") (Alt (Lit "ifndef") (Lit "endif"))).

Definition re_line : regex := Seq (Star true CAny) (Seq Eol Eps).

Definition re_hash : regex := Seq (Lit "#") (Seq (Group 1 re_kw) re_line).

(** What a successful attempt at [st] returns. *)
Definition dir_result (st : mstate) (n : nat) (kw : str) (m : mobj) : Prop :=
  m_start m = pos st /\ m_end m = pos st + n /\ group m 1 = Some kw /\
  pos (m_after m) = pos st + n /\ rest (m_after m) = skipn n (rest st) /\
  at_bol {| MULTILINE := true; DOTALL := false |} (m_after m) = false.

(** What [search_from] returns when [find_dir] gives (start, length,
    group 1, text left). *)
Definition found (q n : nat) (kw r : str) (m : mobj) : Prop :=
  m_start m = q /\ m_end m = q + n /\ group m 1 = Some kw /\
  pos (m_after m) = q + n /\ rest (m_after m) = r /\
  at_bol {| MULTILINE := true; DOTALL := false |} (m_after m) = false /\ 0 < n.

(** The part of a match object the script looks at. *)
Definition obs (m : mobj) : nat * nat * option str :=
  (m_start m, m_end m, group m 1).

Definition obs_of (d : nat * nat * str) : nat * nat * option str :=
  let '(q, n, kw) := d in (q, q + n, Some kw).

(** The loop of [scan] run on (start, length, group 1) triples, with
    the stack reduced to its depth: the span of the [endif] that brings
    the depth to zero. *)
Fixpoint terminator (depth : nat) (ds : list (nat * nat * str))
    : option (nat * nat) :=
  match ds with
  | [] => None
  | (q, n, kw) :: ds' =>
      if str_eqb kw (py "if") then terminator (S depth) ds'
      else match depth with
           | 0 | 1 => Some (q, q + n)
           | S d => terminator d ds'
           end
  end.

(** The guard located in [content] and the [endif] that closes it: the
    text before the guard, the offset just after it, and the span of the
    terminator in the text after the guard. *)
Definition guard_parts (content : str) : option (str * nat * nat * nat) :=
  match locate content with
  | Some (p, n, _) =>
      match terminator 1 (directives (skipn (p + n) content)) with
      | Some (s, e) => Some (firstn p content, p + n, s, e)
      | None => None
      end
  | None => None
  end.

Definition rewritten (content : str) : option str :=
  match guard_parts content with
  | Some (pre, ge, s, e) => Some (rebuild content pre (skipn ge content) ge s e)
  | None => None
  end.

(** ** Predicates of the statements *)

(** Whether a line starts at offset [k] of [l], given whether one
    starts at offset 0. *)
Definition line_start (b : bool) (l : str) (k : nat) : bool :=
  match k with
  | 0 => b
  | S j => match nth_error l j with
           | Some c => Ascii.eqb c NL
           | None => false
           end
  end.

Definition all_space (w : str) : bool := forallb is_space w.

Definition all_word (w : str) : bool := forallb is_word w.

(** The span of a located guard: white space, [#ifndef], white space,
    the identifier, white space with a line feed in it, [#define],
    white space, the same identifier, and white space up to the end of
    the text or of a line. *)
Definition guard_shape (l : str) (n : nat) (name : str) : Prop :=
  exists w0 w1 w2 w3 w4 tl,
    l = w0 ++ py "#ifndef" ++ w1 ++ name ++ w2 ++ py "#define" ++ w3
           ++ name ++ w4 ++ tl /\
    n = List.length (w0 ++ py "#ifndef" ++ w1 ++ name ++ w2 ++ py "#define"
                        ++ w3 ++ name ++ w4) /\
    all_space w0 = true /\ all_space w1 = true /\ w1 <> [] /\
    all_word name = true /\ name <> [] /\
    all_space w2 = true /\ has_nl w2 = true /\
    all_space w3 = true /\ w3 <> [] /\
    all_space w4 = true /\ (tl = [] \/ exists w, w4 = w ++ [NL]).

Definition no_hash (s : str) : bool :=
  forallb (fun c => negb (Ascii.eqb c "#")) s.

(** Whether a line starts right after [pre], given whether one starts
    at its first character. *)
Definition bol_after (b : bool) (pre : str) : bool :=
  match rev pre with
  | [] => b
  | c :: _ => Ascii.eqb c NL
  end.

(** Whether [#ifndef] at the head of [l] is followed, across white
    space and one identifier only, by [#define]. *)
Definition adjacent_pair (l : str) : bool :=
  match strip_prefix (py "#ifndef") l with
  | Some l1 =>
      match strip_prefix (py "#define")
              (drop_while is_space (drop_while is_word (drop_while is_space l1)))
      with
      | Some _ => true
      | None => false
      end
  | None => false
  end.

(** [f] holds of the text from some offset on. *)
Fixpoint any_suffix (f : str -> bool) (l : str) : bool :=
  f l || match l with
         | [] => false
         | _ :: l' => any_suffix f l'
         end.

(** The number of offsets of [l] at which [t] occurs. *)
Fixpoint count_occ_str (t l : str) : nat :=
  (match strip_prefix t l with Some _ => 1 | None => 0 end)
  + match l with
    | [] => 0
    | _ :: l' => count_occ_str t l'
    end.

(** [text.split('\n')]. *)
Fixpoint split_lines (l : str) : list str :=
  match l with
  | [] => [[]]
  | c :: l' =>
      if Ascii.eqb c NL then [] :: split_lines l'
      else match split_lines l' with
           | ln :: r => (c :: ln) :: r
           | [] => [[c]]
           end
  end.

(** What a line does to the depth: after its leading white space it
    starts with [#if] (open), with [#endif] (close), or with neither. *)
Definition classify_line (ln : str) : option kind :=
  match drop_while is_space ln with
  | c :: r =>
      if Ascii.eqb c "#" then
        match strip_prefix (py "if") r with
        | Some _ => Some KOpen
        | None =>
            match strip_prefix (py "endif") r with
            | Some _ => Some KClose
            | None => None
            end
        end
      else None
  | [] => None
  end.

Fixpoint filter_map {A B} (f : A -> option B) (l : list A) : list B :=
  match l with
  | [] => []
  | a :: l' =>
      match f a with
      | Some b => b :: filter_map f l'
      | None => filter_map f l'
      end
  end.

(** What a line that opens or closes a block does to the depth. *)
Definition bump (k : kind) (d : nat) : nat :=
  match k with
  | KOpen => S d
  | KClose => pred d
  end.

(** The depths reached after each such line in turn, from depth [d]. *)
Fixpoint kinds_trace (d : nat) (ks : list kind) : list nat :=
  match ks with
  | [] => []
  | k :: ks' => bump k d :: kinds_trace (bump k d) ks'
  end.

Definition kind_kw (kw : str) : kind :=
  if str_eqb kw (py "if") then KOpen else KClose.

Definition kinds (ds : list (nat * nat * str)) : list kind :=
  map (fun d => kind_kw (snd d)) ds.

Definition kw_of (k : kind) : str :=
  match k with KOpen => py "if" | KClose => py "endif" end.

Definition ends_line (rest_ : str) : Prop :=
  rest_ = [] \/ exists l', rest_ = NL :: l'.

(** The pattern as the specification words it,
    [^\s*#(if|ifdef|ifndef|endif)\b], to set against the one of the
    script. *)
Definition spec_directive_pattern : pattern :=
  compile
    (Seqs [Bol; Star true CSpace; Lit "#";
           Group 1 (Alt (Lit "if") (Alt (Lit "ifdef")
                      (Alt (Lit "ifndef") (Lit "endif"))));
           WordB])
    {| MULTILINE := true; DOTALL := false |}.

Definition kind_of_group (g : option str) : option kind :=
  if is_open g then Some KOpen
  else if is_close g then Some KClose
  else None.

(** [content] cut at the guard and at the [#endif] that closes it. *)
Record parts (content pre g body e suffix : str) : Prop := {
  parts_eq : content = pre ++ g ++ body ++ e ++ suffix;
  parts_pre_line : line_start true content (List.length pre) = true;
  parts_locate : exists name,
                   locate content = Some (List.length pre, List.length g, name);
  parts_first : forall j, j < List.length pre ->
                  line_start true content j = true ->
                  guard_here (skipn j content) = None;
  parts_guard : exists name,
                  guard_here (g ++ body ++ e ++ suffix)
                  = Some (List.length g, name);
  parts_body_line : line_start true (body ++ e ++ suffix) (List.length body) = true;
  parts_endif : exists w x, e = w ++ py "#endif" ++ x /\ all_space w = true /\
                            forallb not_nl x = true;
  parts_endif_here : dir_here (e ++ suffix) = Some (List.length e, py "endif");
  parts_suffix : ends_line suffix;
  parts_term : terminator 1 (directives (body ++ e ++ suffix))
               = Some (List.length body, List.length body + List.length e)
}.

(** The prologue and the body as the specification words them: the
    bytes before the [#ifndef] line, and the bytes between the
    [#define] line and the matched [#endif] line. *)

(** The offset at which the line holding offset [i] starts. *)
Definition line_begin (content : str) (i : nat) : nat :=
  i - List.length (take_while not_nl (rev (firstn i content))).

(** The offset of the [#] of the located [#ifndef]. *)
Definition ifndef_offset (content : str) : option nat :=
  match locate content with
  | Some (p, _, _) =>
      Some (p + List.length (take_while is_space (skipn p content)))
  | None => None
  end.

(** The bytes strictly before the line of the located [#ifndef]. *)
Definition spec_prologue (content : str) : option str :=
  match ifndef_offset content with
  | Some i => Some (firstn (line_begin content i) content)
  | None => None
  end.

(** The offset just after the line of the guard's [#define]. *)
Definition define_line_end (content : str) : option nat :=
  match ifndef_offset content with
  | Some i =>
      let l := skipn (i + 7) content in
      let at_define :=
        drop_while is_space (drop_while is_word (drop_while is_space l)) in
      let d := List.length content - List.length at_define in
      Some (d + List.length (take_while not_nl at_define) + 1)
  | None => None
  end.

(** The offset at which the line of the matched [#endif] starts. *)
Definition endif_line_begin (content : str) : option nat :=
  match guard_parts content with
  | Some (_, ge, s, _) =>
      let i := ge + s in
      Some (line_begin content
              (i + List.length (take_while is_space (skipn i content))))
  | None => None
  end.

(** The bytes strictly between the end of the [#define] line and the
    start of the matched [#endif] line. *)
Definition spec_body (content : str) : option str :=
  match define_line_end content, endif_line_begin content with
  | Some a, Some b => Some (firstn (b - a) (skipn a content))
  | _, _ => None
  end.

Definition is_infix (a b : str) : bool :=
  any_suffix (fun s => match strip_prefix a s with
                       | Some _ => true
                       | None => false
                       end) b.

(** The white space at the head of [x] holds a line feed or runs to the
    end of the text: what [\s*$] asks for. *)
Definition eol_ahead (x : str) : bool :=
  has_nl (take_while is_space x) || is_nil (drop_while is_space x).

(** The part of a guard span that the pattern fixes: everything up to
    the end of the identifier after [#define]. *)
Definition is_core (c name : str) : Prop :=
  exists w0 w1 w2 w3,
    c = w0 ++ py "#ifndef" ++ w1 ++ name ++ w2 ++ py "#define" ++ w3 ++ name /\
    all_space w0 = true /\ all_space w1 = true /\ w1 <> [] /\
    all_word name = true /\ name <> [] /\
    all_space w2 = true /\ has_nl w2 = true /\
    all_space w3 = true /\ w3 <> [].

(** Every [#] of a core starts [#ifndef] or [#define]. *)
Fixpoint hashes_ok (l : str) : bool :=
  match l with
  | [] => true
  | c :: l' =>
      (if Ascii.eqb c "#"
       then match l' with
            | d :: _ => Ascii.eqb d "i" || Ascii.eqb d "d"
            | [] => false
            end
       else true) && hashes_ok l'
  end.

(** A guard starts at offset [q] of [t]. *)
Definition guard_at (t : str) (q : nat) : Prop :=
  line_start true t q = true /\ guard_here (skipn q t) <> None.

Definition ends_nl (a : str) : Prop := exists a', a = a' ++ [NL].

(** The matches follow one another. *)
Fixpoint ordered (lo : nat) (ds : list (nat * nat * str)) : Prop :=
  match ds with
  | [] => True
  | (q, n, _) :: ds' => lo <= q /\ 0 < n /\ ordered (q + n) ds'
  end.

(** [post_define_content] as the function computes it: the text after
    the guard match. *)
Definition post_define_content (content : str) : option str :=
  match search header_guard_pattern content with
  | Some match_ =>
      match end_ match_ 2 with
      | Some guard_end_pos => Some (skipn guard_end_pos content)
      | None => None
      end
  | None => None
  end.

(** ** Example texts *)

Definition c1_input : str :=
  lines_nl ["// license"; "#ifndef X_H"; "#define X_H"; "#ifdef FOO";
            "int a;"; "#endif"; "#endif"; "int tail;"].

Definition c1_claimed : str :=
  lines_nl ["// license"; "#pragma once"; ""; "#ifdef FOO"; "int a;";
            "#endif"; "int tail;"].

Definition c1_actual : str :=
  lines_nl ["// license"; ""; "#pragma once"; ""; "#ifdef FOO"; "int a;";
            "#endif"; ""; "int tail;"].

Definition c4_no_guard : str := lines_nl ["int x;"].

Definition c4_unclosed : str :=
  lines_nl ["#ifndef A"; "#define A"; "#ifdef B"; "int x;"; "#endif"].

Definition no_match : mobj :=
  {| m_start := 0; m_end := 0; m_caps := []; m_after := start_state [] |}.

Definition c2_guard : mobj :=
  match search header_guard_pattern c1_input with
  | Some m => m
  | None => no_match
  end.

Definition c2_matches : list mobj :=
  finditer directive_pattern (skipn 35 c1_input).

Definition c2_endif : mobj := nth 2 c2_matches no_match.

Definition c6_blank_lines : str :=
  lines_nl ["// c"; "#ifndef X_H"; ""; "  "; "#define X_H"; "#endif"].

Definition c6_text_between : str :=
  lines_nl ["#ifndef X_H"; "int x;"; "#define X_H"; "#endif"].

Definition c7_input : str :=
  lines_nl ["// c"; "#ifndef FOO"; "#define BAR"; "int x;"; "#endif"].

Definition c8_text : str :=
  lines_nl ["#ifdef A"; "  #elif B"; "#else"; "int a;"; ""; " #endif"].

Definition c8_match : mobj := nth 0 (finditer directive_pattern c8_text) no_match.

Definition c8_close : mobj := nth 1 (finditer directive_pattern c8_text) no_match.

Definition c8_not_a_directive : str := lines_nl ["#iffy"].

Definition c8_input : str :=
  lines_nl ["#ifndef G"; "#define G"; "#ifdef A"; "int a;"; "#elif B";
            "int b;"; "#else"; "int c;"; "#endif"; "#endif"; "// end"].

Definition c8_output : str :=
  lines_nl [""; "#pragma once"; ""; "#ifdef A"; "int a;"; "#elif B";
            "int b;"; "#else"; "int c;"; "#endif"; ""; "// end"].

Definition c8_guard : mobj :=
  match search header_guard_pattern c8_input with
  | Some m => m
  | None => no_match
  end.

Definition c8_matches : list mobj :=
  finditer directive_pattern (skipn 20 c8_input).

Definition c8_endif : mobj := nth 2 c8_matches no_match.

Definition c9_input : str :=
  lines_nl ["a"; ""; ""; "#ifndef X"; "#define X"; ""; ""; ""; "int b;";
            ""; ""; "#endif"].

Definition c9_output : str :=
  lines_nl ["a"; ""; "#pragma once"; ""; "int b;"].

(** A guard whose body starts with a second guard-shaped pair. *)
Definition c3_input : str :=
  lines_nl ["#ifndef A"; "#define A"; "#ifndef B"; "#define B";
            "#endif"; "#endif"].

Definition c3_once : str :=
  lines_nl [""; "#pragma once"; ""; "#ifndef B"; "#define B"; "#endif"].

Definition c3_twice : str :=
  lines_nl [""; "#pragma once"; ""; "#pragma once"].

(** A text whose last line ends with a character that is not white
    space and a line feed. *)
Definition ends_tight (s : str) : Prop :=
  exists a d, s = a ++ [d; NL] /\ is_space d = false.

(** ** Files and directories *)

Definition all_dots (s : str) : bool :=
  forallb (fun c => Ascii.eqb c ".") s.

(** The test of lines 16-17 on a file name. *)
Definition has_header_extension (filename : str) : bool :=
  in_set (lower (snd (splitext filename))) HEADER_EXTENSIONS.

(** [file_at top t filename p]: below a directory [top] that lists as
    [t], in a directory that the walk enters, there is an entry
    [filename] that is not a directory, and [p] is its path as
    [os.path.join] builds it from [top]. *)
Inductive file_at : str -> tree -> str -> str -> Prop :=
| file_here top dirs nondirs filename :
    In filename nondirs ->
    file_at top (Tree dirs nondirs) filename (join top filename)
| file_below top dirs nondirs dirname t' filename p :
    In (dirname, Some t') dirs ->
    file_at (join top dirname) t' filename p ->
    file_at top (Tree dirs nondirs) filename p.

Definition no_sep (name : str) : bool :=
  negb (existsb (Ascii.eqb "/") name).

(** No name of the listing holds a [/], as is the case of the names
    that [os.scandir] gives. *)
Fixpoint names_ok (t : tree) : bool :=
  match t with
  | Tree dirs nondirs =>
      forallb no_sep nondirs
      && forallb (fun d =>
                    no_sep (fst d)
                    && match snd d with
                       | Some t' => names_ok t'
                       | None => true
                       end) dirs
  end.

(** The file a line of [process_file] is about. *)
Definition message_path (m : message) : string :=
  match m with
  | ErrorReading p | NoHeaderGuard p | NoChangesNeeded p
  | DryRunWouldUpdate p | Updated p | ErrorWriting p => p
  end.

(** The world at the end of a run. *)
Definition final_world (o : main_outcome) : option world :=
  match o with
  | Finished _ w | SystemExit _ _ w => Some w
  | MainRaise _ => None
  end.

(** A directory [proj] with two headers, a source file, a file named
    [.h] and a subdirectory [sub] with one header. *)
Definition x_tree : tree :=
  Tree [(py "sub", Some (Tree [] [py "b.HPP"]))]
       [py "a.h"; py "main.c"; py ".h"].

Definition x_fs : filesystem :=
  {| isdir := fun p => str_eqb p (py "proj");
     listing := fun p => if str_eqb p (py "proj") then Some x_tree else None |}.

Definition x_world : world :=
  {| files := fun q => if String.eqb q "proj/a.h" then Some c1_input
                       else if String.eqb q "proj/sub/b.HPP" then Some c4_unclosed
                       else None;
     writable := fun _ => true;
     printed := [] |}.

(** ** Character classes *)

Lemma is_space_NL : is_space NL = true.
Proof. reflexivity. Qed.

Lemma word_not_space c : is_word c = true -> is_space c = false.
Proof.
  destruct c as [[] [] [] [] [] [] [] []]; vm_compute; intros H;
    first [reflexivity | discriminate H].
Qed.

Lemma space_not_word c : is_space c = true -> is_word c = false.
Proof.
  intros H. destruct (is_word c) eqn:E; [|reflexivity].
  apply word_not_space in E. congruence.
Qed.

Lemma eqb_NL_space c : Ascii.eqb c NL = true -> is_space c = true.
Proof. intros H. apply Ascii.eqb_eq in H. subst. reflexivity. Qed.

Lemma not_space_not_NL c : is_space c = false -> Ascii.eqb c NL = false.
Proof.
  intros H. destruct (Ascii.eqb c NL) eqn:E; [|reflexivity].
  apply eqb_NL_space in E. congruence.
Qed.

(** ** Lists of characters *)

Lemma take_drop_while p l : take_while p l ++ drop_while p l = l.
Proof.
  induction l as [|c l IH]; simpl; [reflexivity|].
  destruct (p c); simpl; [now rewrite IH | reflexivity].
Qed.

Lemma take_while_all p l : forallb p (take_while p l) = true.
Proof.
  induction l as [|c l IH]; simpl; [reflexivity|].
  destruct (p c) eqn:E; simpl; [now rewrite E | reflexivity].
Qed.

Lemma drop_while_head p l c r : drop_while p l = c :: r -> p c = false.
Proof.
  induction l as [|d l IH]; simpl; [discriminate|].
  destruct (p d) eqn:E; [exact IH|]. intros H. now inversion H; subst.
Qed.

Lemma take_while_app p w l :
  forallb p w = true -> take_while p (w ++ l) = w ++ take_while p l.
Proof.
  induction w as [|c w IH]; simpl; [reflexivity|].
  intros H. apply andb_true_iff in H as [Hc Hw]. now rewrite Hc, IH.
Qed.

Lemma drop_while_app p w l :
  forallb p w = true -> drop_while p (w ++ l) = drop_while p l.
Proof.
  induction w as [|c w IH]; simpl; [reflexivity|].
  intros H. apply andb_true_iff in H as [Hc Hw]. now rewrite Hc, IH.
Qed.

Lemma take_while_stop p l : 
  match l with [] => True | c :: _ => p c = false end -> take_while p l = [].
Proof. destruct l as [|c l]; simpl; [reflexivity|]. now intros ->. Qed.

Lemma drop_while_stop p l : 
  match l with [] => True | c :: _ => p c = false end -> drop_while p l = l.
Proof. destruct l as [|c l]; simpl; [reflexivity|]. now intros ->. Qed.

Lemma strip_prefix_spec t l l' : strip_prefix t l = Some l' <-> l = t ++ l'.
Proof.
  revert l. induction t as [|c t IH]; intros l; simpl.
  - split; [now intros [= ->] | now intros ->].
  - destruct l as [|d l]; [split; discriminate|].
    destruct (Ascii.eqb d c) eqn:E.
    + apply Ascii.eqb_eq in E. subst d. rewrite IH. split.
      * now intros ->.
      * now intros [= ->].
    + apply Ascii.eqb_neq in E. split; [discriminate|].
      intros [= -> _]. now elim E.
Qed.

Lemma strip_prefix_app t l : strip_prefix t (t ++ l) = Some l.
Proof. now apply strip_prefix_spec. Qed.

Lemma is_nil_false (w : str) : is_nil w = false -> w <> [].
Proof. destruct w; [discriminate | discriminate]. Qed.

Lemma is_nil_true (w : str) : is_nil w = true -> w = [].
Proof. destruct w; [reflexivity | discriminate]. Qed.

(** ** States *)

Lemma skip_app st a b : skip st (a ++ b) = skip (skip st a) b.
Proof.
  revert st. induction a as [|c a IH]; intros st; simpl; [reflexivity|].
  apply IH.
Qed.

Lemma skip_spec st w l :
  rest st = w ++ l ->
  pos (skip st w) = pos st + List.length w /\ rest (skip st w) = l
  /\ caps (skip st w) = caps st.
Proof.
  revert st. induction w as [|c w IH]; intros st H; simpl.
  - rewrite Nat.add_0_r. auto.
  - rewrite H in *. simpl. 
    destruct (IH (advance st c (w ++ l)) eq_refl) as (Hp & Hr & Hc).
    rewrite Hp, Hr, Hc. simpl. repeat split. lia.
Qed.

Lemma skip_rest st w l : rest st = w ++ l -> rest (skip st w) = l.
Proof. intros H. now apply skip_spec. Qed.

Lemma skip_pos st w l :
  rest st = w ++ l -> pos (skip st w) = pos st + List.length w.
Proof. intros H. eapply skip_spec; eauto. Qed.

Lemma skip_caps st w : caps (skip st w) = caps st.
Proof.
  revert st. induction w as [|c w IH]; intros st; simpl; [reflexivity|].
  now rewrite IH.
Qed.

Lemma ahead_skip st w l : rest st = w ++ l -> ahead st (List.length w) (skip st w).
Proof.
  intros H. destruct (skip_spec st w l H) as (Hp & Hr & Hc).
  unfold ahead. rewrite Hp, Hr, H.
  rewrite firstn_app, Nat.sub_diag, firstn_all. simpl. rewrite app_nil_r.
  auto.
Qed.

Lemma ahead_trans st a e b f :
  ahead st a e -> ahead e b f -> ahead st (a + b) f.
Proof.
  intros (Hp & Hr & Hl) (Hp' & Hr' & Hl').
  assert (E : firstn (a + b) (rest st) = firstn a (rest st) ++ firstn b (rest e)).
  { rewrite Hr at 1. rewrite firstn_app, Hl.
    replace (a + b - a) with b by lia.
    rewrite firstn_all2 by (rewrite Hl; lia). reflexivity. }
  unfold ahead. rewrite E. repeat split.
  - lia.
  - rewrite Hr at 1. rewrite Hr' at 1. now rewrite app_assoc.
  - rewrite length_app. lia.
Qed.

Lemma ahead_same st st' n e :
  pos st' = pos st -> rest st' = rest st -> ahead st n e -> ahead st' n e.
Proof. unfold ahead. intros -> ->. auto. Qed.

Lemma ahead_le st n e : ahead st n e -> n <= List.length (rest st).
Proof.
  intros (_ & _ & H). rewrite <- H. rewrite length_firstn. lia.
Qed.

Lemma ahead_rest st n e : ahead st n e -> rest e = skipn n (rest st).
Proof.
  intros (_ & H & Hl).
  rewrite <- (firstn_skipn n (rest st)) in H at 1.
  now apply app_inv_head in H.
Qed.

Lemma trail_le l n : trail l = Some n -> n <= List.length l.
Proof.
  revert n. induction l as [|c l IH]; simpl; intros n.
  - intros [= <-]. lia.
  - destruct (is_space c); [|discriminate].
    destruct (trail l) as [m|].
    + intros [= <-]. specialize (IH m eq_refl). lia.
    + destruct (Ascii.eqb c NL); [|discriminate]. intros [= <-]. lia.
Qed.

(** ** The matcher on greedy runs and literals *)

Section RunEquations.

Variable fl : flags.

Lemma run_Seq a b k st : run fl (Seq a b) k st = run fl a (run fl b k) st.
Proof. reflexivity. Qed.

Lemma run_Star g cs k st : run fl (Star g cs) k st = star fl g cs k st (rest st).
Proof. reflexivity. Qed.

Lemma run_Bol k st : run fl Bol k st = if at_bol fl st then k st else None.
Proof. reflexivity. Qed.

Lemma run_Group n r k st :
  run fl (Group n r) k st = run fl r (fun st1 => k (close_group n st st1)) st.
Proof. reflexivity. Qed.

Lemma run_Backref n k st :
  run fl (Backref n) k st =
  match lookup n (caps st) with
  | Some c => literal (c_text c) k st (rest st)
  | None => None
  end.
Proof. reflexivity. Qed.

End RunEquations.

Section RunLemmas.

Variable dotall : bool.
Let fl := {| MULTILINE := true; DOTALL := dotall |}.

Lemma orelse_none_r {A} (a : option A) : orelse a None = a.
Proof. now destruct a. Qed.

(** A greedy run followed by a continuation that refuses every state
    whose next character is still in the class takes the whole run. *)
Lemma star_max cs k : forall l st,
  rest st = l ->
  (forall st' c r, caps st' = caps st -> rest st' = c :: r ->
                   cset_mem fl cs c = true -> k st' = None) ->
  star fl true cs k st l = k (skip st (take_while (cset_mem fl cs) l)).
Proof.
  induction l as [|c l IH]; intros st Hr Hk; simpl; [reflexivity|].
  destruct (cset_mem fl cs c) eqn:E; [|reflexivity].
  rewrite (Hk st c l eq_refl Hr E), orelse_none_r.
  cbn [skip]. rewrite Hr. cbn [tl]. apply IH; [reflexivity|].
  intros st' d r Hc. apply Hk. exact Hc.
Qed.

(** A greedy run takes the whole run when the continuation accepts there. *)
Lemma star_first cs k : forall l st r,
  rest st = l ->
  k (skip st (take_while (cset_mem fl cs) l)) = Some r ->
  star fl true cs k st l = Some r.
Proof.
  induction l as [|c l IH]; intros st r Hr Hk; cbn [star take_while] in *;
    [exact Hk|].
  destruct (cset_mem fl cs c) eqn:E; [|exact Hk].
  cbn [skip] in Hk. rewrite Hr in Hk. cbn [tl] in Hk.
  now rewrite (IH (advance st c l) r eq_refl Hk).
Qed.

Lemma run_lit s k : forall st,
  run fl (Lit' s) k st =
  match strip_prefix s (rest st) with
  | Some _ => k (skip st s)
  | None => None
  end.
Proof.
  induction s as [|c s IH]; intros st; simpl; [reflexivity|].
  destruct (rest st) as [|d l] eqn:Hr; [reflexivity|].
  destruct (Ascii.eqb d c) eqn:E; [|reflexivity].
  apply Ascii.eqb_eq in E. subst d. rewrite IH. reflexivity.
Qed.

Lemma literal_run t k : forall st l,
  rest st = l ->
  literal t k st l =
  match strip_prefix t l with
  | Some _ => k (skip st t)
  | None => None
  end.
Proof.
  induction t as [|c t IH]; intros st l Hr; simpl; [reflexivity|].
  destruct l as [|d l]; [reflexivity|].
  destruct (Ascii.eqb d c) eqn:E; [|reflexivity].
  apply Ascii.eqb_eq in E. subst d. rewrite Hr. simpl.
  now apply IH.
Qed.

(** [c+] followed by a continuation that refuses a further [c]. *)
Lemma run_plus_max cs k st :
  (forall st' c r, caps st' = caps st -> rest st' = c :: r ->
                   cset_mem fl cs c = true -> k st' = None) ->
  run fl (Plus cs) k st =
  let w := take_while (cset_mem fl cs) (rest st) in
  if is_nil w then None else k (skip st w).
Proof.
  intros Hk. unfold Plus. simpl.
  destruct (rest st) as [|c l] eqn:Hr; simpl; [reflexivity|].
  destruct (cset_mem fl cs c) eqn:E; simpl; [|reflexivity].
  rewrite Hr. simpl. apply star_max; [reflexivity|]. exact Hk.
Qed.

Lemma at_eol_multiline st :
  at_eol fl st = match rest st with [] => true | c :: _ => Ascii.eqb c NL end.
Proof.
  unfold at_eol. destruct (rest st) as [|c l]; [reflexivity|].
  simpl. now rewrite andb_true_r.
Qed.

Lemma at_bol_multiline st :
  at_bol fl st = match prev st with None => true | Some c => Ascii.eqb c NL end.
Proof. unfold at_bol. now destruct (prev st). Qed.

Lemma run_eol_opt K st :
  (forall s, K s <> None) ->
  run fl (Seq Eol (Seq (Opt (One (CChr NL))) Eps)) K st =
  match rest st with
  | [] => K st
  | c :: l => if Ascii.eqb c NL then K (advance st c l) else None
  end.
Proof.
  intros HK. cbn [run Opt]. rewrite at_eol_multiline.
  destruct (rest st) as [|c l] eqn:Hr; [reflexivity|].
  cbn [cset_mem]. destruct (Ascii.eqb c NL); [|reflexivity].
  destruct (K (advance st c l)) eqn:EK; [reflexivity | now elim (HK _ EK)].
Qed.

(** [\s*$\n?] at the very end of a pattern. *)
Lemma run_trail K : (forall s, K s <> None) -> forall l st,
  rest st = l ->
  star fl true CSpace (run fl (Seq Eol (Seq (Opt (One (CChr NL))) Eps)) K) st l =
  match trail l with
  | Some n => K (skip st (firstn n l))
  | None => None
  end.
Proof.
  intros HK. induction l as [|c l IH]; intros st Hr.
  - cbn [star trail firstn skip]. rewrite run_eol_opt, Hr by exact HK.
    reflexivity.
  - cbn [star trail cset_mem]. rewrite run_eol_opt, Hr by exact HK.
    destruct (is_space c) eqn:E.
    + rewrite (IH (advance st c l) eq_refl).
      destruct (trail l) as [n|].
      * cbn [firstn skip orelse]. rewrite Hr. cbn [tl].
        destruct (K (skip (advance st c l) (firstn n l))) eqn:EK;
          [reflexivity | now elim (HK _ EK)].
      * cbn [orelse]. destruct (Ascii.eqb c NL); [|reflexivity].
        cbn [firstn skip]. rewrite Hr. reflexivity.
    + now rewrite (not_space_not_NL _ E).
Qed.

Lemma run_eol_nl R K st :
  (forall st' c r, caps st' = caps st -> rest st' = c :: r ->
                   is_space c = true -> run fl R K st' = None) ->
  run fl (Seq Eol (Seq (One (CChr NL)) (Seq Bol (Seq (Star true CSpace) R)))) K st =
  match rest st with
  | [] => None
  | c :: l =>
      if Ascii.eqb c NL
      then run fl R K (skip (advance st c l) (take_while is_space l))
      else None
  end.
Proof.
  intros HR. cbn [run]. rewrite at_eol_multiline.
  destruct (rest st) as [|c l] eqn:Hr; [reflexivity|].
  cbn [cset_mem]. destruct (Ascii.eqb c NL) eqn:EN; [|reflexivity].
  rewrite at_bol_multiline. cbn [advance prev rest]. rewrite EN.
  apply (star_max CSpace); [reflexivity|].
  intros st' d r Hc. apply HR. exact Hc.
Qed.

(** [\s*$\n^\s*] between the two directives: the white space is taken
    whole and must hold a line feed. *)
Lemma run_gap R K : forall l st,
  rest st = l ->
  (forall st' c r, caps st' = caps st -> rest st' = c :: r ->
                   is_space c = true -> run fl R K st' = None) ->
  star fl true CSpace
    (run fl (Seq Eol (Seq (One (CChr NL)) (Seq Bol (Seq (Star true CSpace) R)))) K)
    st l =
  if has_nl (take_while is_space l)
  then run fl R K (skip st (take_while is_space l))
  else None.
Proof.
  induction l as [|c l IH]; intros st Hr HR.
  - cbn [star take_while has_nl existsb]. rewrite run_eol_nl, Hr by exact HR.
    reflexivity.
  - cbn [star cset_mem take_while]. rewrite run_eol_nl, Hr by exact HR.
    destruct (is_space c) eqn:E.
    + rewrite (IH (advance st c l) eq_refl)
        by (intros st' d r Hc; apply HR; exact Hc).
      cbn [has_nl existsb skip]. rewrite Hr. cbn [tl].
      fold (has_nl (take_while is_space l)).
      rewrite (Ascii.eqb_sym NL c).
      destruct (has_nl (take_while is_space l)), (Ascii.eqb c NL); simpl;
        try reflexivity; try apply orelse_none_r.
      now destruct (run fl R K (skip (advance st c l) (take_while is_space l))).
    + now rewrite (not_space_not_NL _ E).
Qed.

End RunLemmas.

(** ** The guard pattern, deterministically *)

Section GuardPattern.

Local Abbreviation fl := {| MULTILINE := true; DOTALL := true |}.

Lemma header_guard_pattern_eq :
  p_regex header_guard_pattern =
  Seq (Group 1 (Seq Bol (Star false CAny))) (Group 2 re_guard).
Proof. reflexivity. Qed.

Lemma accepts_shift R R' K st w l o :
  rest st = w ++ l ->
  run fl R K st = run fl R' K (skip st w) ->
  accepts R' K (skip st w) o ->
  accepts R K st (shift (List.length w) o).
Proof.
  intros Hr Hrun Ha. destruct o as [n|]; simpl in *.
  - destruct Ha as (e & He & Hah & Hc). exists e. split; [congruence|]. split.
    + eapply ahead_trans; [apply (ahead_skip st w l Hr) | exact Hah].
    + now rewrite Hc, skip_caps.
  - congruence.
Qed.

Variable K : mstate -> option mstate.
Hypothesis K_total : forall s, K s <> None.

Lemma accepts_trail st : accepts re_trail K st (trail (rest st)).
Proof.
  unfold accepts, re_trail. rewrite run_Seq, run_Star.
  rewrite (@run_trail true K K_total (rest st) st eq_refl).
  destruct (trail (rest st)) as [n|] eqn:E; [|reflexivity].
  eexists. split; [reflexivity|]. split; [|apply skip_caps].
  pose proof (trail_le _ _ E) as Hle.
  assert (Hn : List.length (firstn n (rest st)) = n)
    by (rewrite length_firstn; lia).
  rewrite <- Hn at 1.
  apply ahead_skip with (l := skipn n (rest st)).
  now rewrite firstn_skipn.
Qed.

Lemma holds_name_caps st st' name :
  caps st' = caps st -> holds_name st name -> holds_name st' name.
Proof. unfold holds_name. now intros ->. Qed.

Lemma accepts_ref st name :
  holds_name st name -> accepts re_ref K st (tail_ref name (rest st)).
Proof.
  intros (c3 & Hl & Ht). unfold tail_ref.
  destruct (strip_prefix name (rest st)) as [l'|] eqn:E.
  - apply strip_prefix_spec in E.
    apply accepts_shift with (R' := re_trail) (l := l'); [exact E| |].
    + unfold re_ref. rewrite run_Seq, run_Backref, Hl, Ht.
      rewrite (@literal_run name _ st (rest st) eq_refl).
      rewrite E, strip_prefix_app. reflexivity.
    + rewrite <- (skip_rest st name l' E). apply accepts_trail.
  - unfold accepts, re_ref. rewrite run_Seq, run_Backref, Hl, Ht.
    rewrite (@literal_run name _ st (rest st) eq_refl). now rewrite E.
Qed.

Lemma tail_ref_space name c r :
  match name with [] => False | d :: _ => is_space d = false end ->
  is_space c = true -> tail_ref name (c :: r) = None.
Proof.
  destruct name as [|d name]; [easy|]. intros Hd Hc. unfold tail_ref. simpl.
  destruct (Ascii.eqb c d) eqn:E; [|reflexivity].
  apply Ascii.eqb_eq in E. congruence.
Qed.

Lemma accepts_define st name :
  holds_name st name ->
  match name with [] => False | d :: _ => is_space d = false end ->
  accepts re_define K st (tail_define name (rest st)).
Proof.
  intros Hn Hd. unfold tail_define.
  assert (Hrun : run fl re_define K st =
               match strip_prefix (py "#define") (rest st) with
               | Some _ => run fl (Seq (Plus CSpace) re_ref) K (skip st (py "#define"))
               | None => None
               end).
  { unfold re_define, Lit. now rewrite run_Seq, run_lit. }
  destruct (strip_prefix (py "#define") (rest st)) as [l'|] eqn:E;
    [|exact Hrun].
  apply strip_prefix_spec in E.
  set (st1 := skip st (py "#define")) in *.
  assert (Hr1 : rest st1 = l') by (apply (skip_rest st _ _ E)).
  assert (Hc1 : caps st1 = caps st) by apply skip_caps.
  assert (Hrun1 : run fl (Seq (Plus CSpace) re_ref) K st1 =
                  let w := take_while is_space l' in
                  if is_nil w then None else run fl re_ref K (skip st1 w)).
  { rewrite run_Seq, (run_plus_max true CSpace) by
      (intros st' c r Hc' Hr' Hs;
       pose proof (accepts_ref st' name
                     (holds_name_caps st st' name (eq_trans Hc' Hc1) Hn)) as A;
       rewrite Hr', (tail_ref_space name c r Hd Hs) in A; exact A).
    now rewrite Hr1. }
  cbv zeta in Hrun1.
  destruct (is_nil (take_while is_space l')) eqn:En.
  - unfold accepts. congruence.
  - pose proof (take_drop_while is_space l') as Hsplit.
    set (w := take_while is_space l') in *.
    replace (7 + List.length w) with (List.length (py "#define" ++ w))
      by (rewrite length_app; reflexivity).
    apply accepts_shift with (R' := re_ref) (l := drop_while is_space l').
    + now rewrite E, <- app_assoc, Hsplit.
    + rewrite skip_app. fold st1. congruence.
    + rewrite skip_app. fold st1.
      rewrite <- (skip_rest st1 w (drop_while is_space l'))
        by (now rewrite Hr1).
      apply accepts_ref. eapply holds_name_caps; [|exact Hn].
      now rewrite skip_caps.
Qed.

Lemma run_define_space st c r :
  rest st = c :: r -> is_space c = true -> run fl re_define K st = None.
Proof.
  intros Hr Hs. unfold re_define, Lit. rewrite run_Seq, run_lit, Hr.
  cbn [py list_ascii_of_string strip_prefix].
  destruct (Ascii.eqb c "#") eqn:E; [|reflexivity].
  apply Ascii.eqb_eq in E. subst c. discriminate Hs.
Qed.

Lemma accepts_gap st name :
  holds_name st name ->
  match name with [] => False | d :: _ => is_space d = false end ->
  accepts re_gap K st (tail_gap name (rest st)).
Proof.
  intros Hn Hd. unfold tail_gap.
  assert (Hrun : run fl re_gap K st =
                 if has_nl (take_while is_space (rest st))
                 then run fl re_define K (skip st (take_while is_space (rest st)))
                 else None).
  { unfold re_gap. rewrite run_Seq, run_Star.
    apply (run_gap true re_define K (rest st) st eq_refl).
    intros st' c r _. apply run_define_space. }
  destruct (has_nl (take_while is_space (rest st))); [|exact Hrun].
  pose proof (take_drop_while is_space (rest st)) as Hsplit.
  apply accepts_shift with (R' := re_define) (l := drop_while is_space (rest st)).
  - now rewrite Hsplit.
  - exact Hrun.
  - rewrite <- (skip_rest st _ _ (eq_sym Hsplit)).
    apply accepts_define; [|exact Hd].
    eapply holds_name_caps; [|exact Hn]. apply skip_caps.
Qed.

Lemma accepts3_shift R R' st w l o :
  rest st = w ++ l ->
  run fl R K st = run fl R' K (skip st w) ->
  accepts3 K R' (skip st w) o ->
  accepts3 K R st (shift3 (List.length w) o).
Proof.
  intros Hr Hrun Ha. destruct o as [[n name]|]; simpl in *.
  - destruct Ha as (e & He & Hah & c3 & Hc & Ht). exists e.
    split; [congruence|]. split.
    + eapply ahead_trans; [apply (ahead_skip st w l Hr) | exact Hah].
    + exists c3. now rewrite Hc, skip_caps.
  - congruence.
Qed.

Lemma take_while_word_head l :
  match take_while is_word l with [] => True | d :: _ => is_space d = false end.
Proof.
  destruct l as [|c l]; simpl; [exact I|].
  destruct (is_word c) eqn:E; [|exact I]. now apply word_not_space.
Qed.

Lemma run_gap_word st c r :
  rest st = c :: r -> is_word c = true -> run fl re_gap K st = None.
Proof.
  intros Hr Hw. unfold re_gap. rewrite run_Seq, run_Star.
  rewrite (run_gap true re_define K (rest st) st eq_refl)
    by (intros st' d r' _; apply run_define_space).
  rewrite Hr. simpl. now rewrite (word_not_space _ Hw).
Qed.

Lemma accepts_name st : accepts3 K re_name st (tail_name (rest st)).
Proof.
  unfold tail_name. set (name := take_while is_word (rest st)).
  assert (Hrun : run fl re_name K st =
                 if is_nil name then None
                 else run fl re_gap K (close_group 3 st (skip st name))).
  { unfold re_name. rewrite run_Seq, run_Group.
    rewrite (run_plus_max true CWord); [reflexivity|].
    intros st' c r _ Hr' Hw. cbn [cset_mem] in Hw.
    apply (run_gap_word (close_group 3 st st') c r); [exact Hr' | exact Hw]. }
  pose proof (take_drop_while is_word (rest st)) as Hsplit. fold name in Hsplit.
  pose proof (take_while_word_head (rest st)) as Hhead. fold name in Hhead.
  destruct (is_nil name) eqn:En; [exact Hrun|].
  apply is_nil_false in En.
  destruct (skip_spec st name _ (eq_sym Hsplit)) as (Hp & Hr & Hc).
  set (st3 := close_group 3 st (skip st name)) in *.
  assert (Hn : holds_name st3 name).
  { eexists. split; [reflexivity|]. cbn [c_text]. rewrite Hp.
    replace (pos st + List.length name - pos st) with (List.length name) by lia.
    rewrite <- Hsplit at 1. rewrite firstn_app, Nat.sub_diag, firstn_all.
    simpl. apply app_nil_r. }
  assert (Hd : match name with [] => False | d :: _ => is_space d = false end).
  { destruct name; [now elim En | exact Hhead]. }
  pose proof (accepts_gap st3 name Hn Hd) as A.
  replace (rest st3) with (drop_while is_word (rest st)) in A
    by (symmetry; exact Hr).
  destruct (tail_gap name (drop_while is_word (rest st))) as [n|];
    unfold accepts in A; unfold accepts3.
  - destruct A as (e & He & Hah & Hce). exists e. split; [congruence|]. split.
    + eapply ahead_trans; [apply (ahead_skip st name _ (eq_sym Hsplit))|].
      eapply ahead_same; [| |exact Hah]; reflexivity.
    + destruct Hn as (c3 & Hl & Ht). exists c3. split; [|exact Ht].
      rewrite Hce. unfold st3 in Hl |- *. cbn [close_group caps lookup] in Hl |- *.
      rewrite Nat.eqb_refl in Hl. inversion Hl. now rewrite Hc.
  - congruence.
Qed.

Lemma run_name_space st c r :
  rest st = c :: r -> is_space c = true -> run fl re_name K st = None.
Proof.
  intros Hr Hs. unfold re_name, Plus.
  rewrite run_Seq, run_Group, run_Seq. cbn [run]. rewrite Hr.
  cbn [cset_mem]. now rewrite (space_not_word _ Hs).
Qed.

Lemma accepts_ifndef st : accepts3 K re_ifndef st (tail_ifndef (rest st)).
Proof.
  unfold tail_ifndef.
  assert (Hrun : run fl re_ifndef K st =
               match strip_prefix (py "#ifndef") (rest st) with
               | Some _ => run fl (Seq (Plus CSpace) re_name) K (skip st (py "#ifndef"))
               | None => None
               end).
  { unfold re_ifndef, Lit. now rewrite run_Seq, run_lit. }
  destruct (strip_prefix (py "#ifndef") (rest st)) as [l'|] eqn:E;
    [|exact Hrun].
  apply strip_prefix_spec in E.
  set (st1 := skip st (py "#ifndef")) in *.
  assert (Hr1 : rest st1 = l') by (apply (skip_rest st _ _ E)).
  assert (Hrun1 : run fl (Seq (Plus CSpace) re_name) K st1 =
                  let w := take_while is_space l' in
                  if is_nil w then None else run fl re_name K (skip st1 w)).
  { rewrite run_Seq, (run_plus_max true CSpace)
      by (intros st' c r _; apply run_name_space).
    now rewrite Hr1. }
  cbv zeta in Hrun1.
  destruct (is_nil (take_while is_space l')) eqn:En.
  - unfold accepts3. congruence.
  - pose proof (take_drop_while is_space l') as Hsplit.
    set (w := take_while is_space l') in *.
    assert (A : accepts3 K re_ifndef st
                  (shift3 (List.length (py "#ifndef" ++ w))
                          (tail_name (drop_while is_space l')))).
    { apply accepts3_shift with (R' := re_name) (l := drop_while is_space l').
      - now rewrite E, <- app_assoc, Hsplit.
      - rewrite skip_app. fold st1. congruence.
      - rewrite skip_app. fold st1.
        rewrite <- (skip_rest st1 w (drop_while is_space l'))
          by (now rewrite Hr1).
        apply accepts_name. }
    rewrite length_app in A.
    destruct (tail_name (drop_while is_space l')) as [[n name]|]; exact A.
Qed.

Lemma run_ifndef_space st c r :
  rest st = c :: r -> is_space c = true -> run fl re_ifndef K st = None.
Proof.
  intros Hr Hs. unfold re_ifndef, Lit. rewrite run_Seq, run_lit, Hr.
  cbn [py list_ascii_of_string strip_prefix].
  destruct (Ascii.eqb c "#") eqn:E; [|reflexivity].
  apply Ascii.eqb_eq in E. subst c. discriminate Hs.
Qed.

(** Group 2 without its opening [^]. *)
Lemma accepts_guard st :
  accepts3 K (Seq (Star true CSpace) re_ifndef) st (guard_here (rest st)).
Proof.
  unfold guard_here.
  pose proof (take_drop_while is_space (rest st)) as Hsplit.
  set (w := take_while is_space (rest st)) in *.
  assert (A : accepts3 K (Seq (Star true CSpace) re_ifndef) st
                (shift3 (List.length w) (tail_ifndef (drop_while is_space (rest st))))).
  { apply accepts3_shift with (R' := re_ifndef) (l := drop_while is_space (rest st)).
    - now rewrite Hsplit.
    - rewrite run_Seq, run_Star.
      apply (star_max true CSpace); [reflexivity|].
      intros st' c r _. apply run_ifndef_space.
    - rewrite <- (skip_rest st w _ (eq_sym Hsplit)). apply accepts_ifndef. }
  destruct (tail_ifndef (drop_while is_space (rest st))) as [[n name]|]; exact A.
Qed.

End GuardPattern.

(** ** [header_guard_pattern.search] *)

Section GuardSearch.

Local Abbreviation fl := {| MULTILINE := true; DOTALL := true |}.

Lemma after_pre_spec st0 st1 :
  match (if at_bol fl st1 then guard_here (rest st1) else None) with
  | Some (n, name) =>
      exists e, after_pre st0 st1 = Some e /\ guard_match st0 (pos st1) n name e
  | None => after_pre st0 st1 = None
  end.
Proof.
  unfold after_pre. rewrite run_Group. unfold re_guard.
  rewrite run_Seq, run_Bol.
  change (at_bol fl (close_group 1 st0 st1)) with (at_bol fl st1).
  destruct (at_bol fl st1); [|reflexivity].
  set (s := close_group 1 st0 st1).
  pose proof (accepts_guard (fun st' => Some (close_group 2 s st'))
                ltac:(discriminate) s) as A.
  change (rest s) with (rest st1) in A.
  destruct (guard_here (rest st1)) as [[n name]|]; unfold accepts3 in A.
  - destruct A as (e & He & (Hp & _ & _) & c3 & Hc & Ht).
    eexists. split; [exact He|]. split; [exact Hp|].
    exists st1. eexists. exists c3. cbn [close_group caps c_start c_end].
    rewrite Hc. unfold s. cbn [close_group caps pos]. rewrite Hp.
    repeat split; auto.
  - exact A.
Qed.

(** The lazy [.*?] of group 1 stops at the first offset where the rest
    of the pattern matches. *)
Lemma lazy_find st0 : forall l st b,
  rest st = l -> at_bol fl st = b ->
  match find_guard b l (pos st) with
  | Some (p, n, name) =>
      exists e, star fl false CAny (after_pre st0) st l = Some e /\
                guard_match st0 p n name e
  | None => star fl false CAny (after_pre st0) st l = None
  end.
Proof.
  induction l as [|c l IH]; intros st b Hr Hb.
  - cbn [find_guard star]. pose proof (after_pre_spec st0 st) as A.
    rewrite Hb, Hr in A.
    destruct (if b then guard_here [] else None) as [[n name]|]; exact A.
  - cbn [find_guard star cset_mem DOTALL orb].
    pose proof (after_pre_spec st0 st) as A. rewrite Hb, Hr in A.
    destruct (if b then guard_here (c :: l) else None) as [[n name]|].
    + destruct A as (e & He & Hm). exists e. now rewrite He.
    + rewrite A. cbn [orelse].
      specialize (IH (advance st c l) (Ascii.eqb c NL) eq_refl).
      cbn [advance pos] in IH. apply IH.
      rewrite at_bol_multiline. reflexivity.
Qed.

Lemma find_guard_none_tail b c l p :
  find_guard b (c :: l) p = None -> find_guard (Ascii.eqb c NL) l (S p) = None.
Proof.
  cbn [find_guard].
  destruct (if b then guard_here (c :: l) else None) as [[n name]|];
    [discriminate | trivial].
Qed.

Lemma match_at_guard st :
  match find_guard (at_bol fl st) (rest st) (pos st) with
  | Some (p, n, name) =>
      at_bol fl st = true ->
      exists m, match_at header_guard_pattern st = Some m /\
                m_start m = pos st /\ m_end m = p + n /\
                guard_match {| pos := pos st; prev := prev st;
                               rest := rest st; caps := [] |} p n name (m_after m) /\
                m_caps m = caps (m_after m)
  | None => match_at header_guard_pattern st = None
  end.
Proof.
  unfold match_at. cbn [p_flags p_regex header_guard_pattern compile].
  change (Seq _ _) with (Seq (Group 1 (Seq Bol (Star false CAny))) (Group 2 re_guard)).
  rewrite run_Seq, run_Group, run_Seq, run_Bol, run_Star.
  set (st0 := {| pos := pos st; prev := prev st; rest := rest st; caps := [] |}).
  change (at_bol fl st0) with (at_bol fl st).
  pose proof (lazy_find st0 (rest st) st0 (at_bol fl st) eq_refl eq_refl) as A.
  change (pos st0) with (pos st) in A.
  change (star fl false CAny (after_pre st0) st0 (rest st)) with
    (star fl false CAny
       (fun st1 => run fl (Group 2 re_guard) (fun e => Some e)
                     (close_group 1 st0 st1)) st0 (rest st0)) in A.
  destruct (at_bol fl st) eqn:Hb.
  - destruct (find_guard true (rest st) (pos st)) as [[[p n] name]|].
    + intros _. destruct A as (e & He & Hm). rewrite He.
      eexists. split; [reflexivity|]. cbn. repeat split; apply Hm.
    + now rewrite A.
  - destruct (find_guard false (rest st) (pos st)) as [[[p n] name]|];
      [discriminate | reflexivity].
Qed.

Lemma search_from_none : forall l st,
  rest st = l ->
  find_guard (at_bol fl st) l (pos st) = None ->
  search_from header_guard_pattern st l = None.
Proof.
  induction l as [|c l IH]; intros st Hr Hf;
    pose proof (match_at_guard st) as A; rewrite Hr, Hf in A;
    cbn [search_from]; rewrite A; [reflexivity|].
  apply IH; [reflexivity|].
  rewrite at_bol_multiline. cbn [advance prev pos].
  eapply find_guard_none_tail. exact Hf.
Qed.

(** [header_guard_pattern.search(content)] is [locate content]: the
    match starts at offset 0, group 1 is the text before the span of
    group 2, group 2 is that span and group 3 the identifier. *)
Theorem search_locate content :
  match locate content with
  | Some (p, n, name) =>
      exists m, search header_guard_pattern content = Some m /\
                group m 1 = Some (firstn p content) /\
                start m 2 = Some p /\ end_ m 2 = Some (p + n) /\
                group m 3 = Some name
  | None => search header_guard_pattern content = None
  end.
Proof.
  unfold locate, search.
  pose proof (match_at_guard (start_state content)) as A.
  cbn [start_state rest pos] in A.
  change (at_bol fl _) with true in A.
  destruct (find_guard true content 0) as [[[p n] name]|] eqn:Hf.
  - destruct (A eq_refl)
      as (m & Hm & Hs & He &
          (Hp & st1 & c2 & c3 & Hp1 & Hc & H2s & H2e & H3) & Hcaps).
    exists m. split.
    { destruct content; cbn [search_from]; now rewrite Hm. }
    unfold group, start, end_. rewrite Hcaps, Hc. cbn [lookup Nat.eqb option_map].
    unfold pre_capture. cbn [c_text c_start c_end pos rest].
    rewrite Hp1, Nat.sub_0_r, H2s, H2e, H3. auto.
  - apply search_from_none; [reflexivity|]. exact Hf.
Qed.

End GuardSearch.

(** ** The directive pattern, deterministically *)

Section DirectivePattern.

Local Abbreviation fl := {| MULTILINE := true; DOTALL := false |}.

Lemma directive_pattern_eq :
  p_regex directive_pattern = Seq Bol (Seq (Star true CSpace) re_hash).
Proof. reflexivity. Qed.

Lemma cset_any_not_nl c : cset_mem fl CAny c = not_nl c.
Proof. reflexivity. Qed.

Lemma take_while_ext p q l :
  (forall c, p c = q c) -> take_while p l = take_while q l.
Proof.
  intros H. induction l as [|c l IH]; simpl; [reflexivity|].
  now rewrite H, IH.
Qed.

Lemma not_nl_run_eol l :
  match drop_while not_nl l with [] => True | c :: _ => c = NL end.
Proof.
  destruct (drop_while not_nl l) as [|c r] eqn:E; [exact I|].
  apply drop_while_head in E. unfold not_nl in E.
  apply negb_false_iff in E. now apply Ascii.eqb_eq.
Qed.

(** [.*$]: to the end of the line. *)
Lemma run_line st :
  run fl re_line (fun e => Some e) st =
  Some (skip st (take_while not_nl (rest st))).
Proof.
  unfold re_line. rewrite run_Seq, run_Star.
  apply (star_first false CAny); [reflexivity|].
  rewrite (take_while_ext _ _ (rest st) cset_any_not_nl).
  pose proof (take_drop_while not_nl (rest st)) as Hsplit.
  pose proof (not_nl_run_eol (rest st)) as Hd.
  cbn [run]. rewrite at_eol_multiline.
  rewrite (skip_rest st _ _ (eq_sym Hsplit)).
  destruct (drop_while not_nl (rest st)) as [|c r]; [reflexivity|].
  subst c. reflexivity.
Qed.

Lemma strip_if_prefix l :
  strip_prefix (py "if") l = None ->
  strip_prefix (py "ifdef") l = None /\ strip_prefix (py "ifndef") l = None.
Proof.
  intros H. split.
  - destruct (strip_prefix (py "ifdef") l) as [x|] eqn:E; [|reflexivity].
    apply strip_prefix_spec in E. subst l. discriminate H.
  - destruct (strip_prefix (py "ifndef") l) as [x|] eqn:E; [|reflexivity].
    apply strip_prefix_spec in E. subst l. discriminate H.
Qed.

(** Group 1 and the rest of the line, from the state after [#]. *)
Lemma run_kw st :
  run fl (Seq (Group 1 re_kw) re_line) (fun e => Some e) st =
  match strip_prefix (py "if") (rest st) with
  | Some l2 =>
      Some (skip (close_group 1 st (skip st (py "if"))) (take_while not_nl l2))
  | None =>
      match strip_prefix (py "endif") (rest st) with
      | Some l2 =>
          Some (skip (close_group 1 st (skip st (py "endif")))
                     (take_while not_nl l2))
      | None => None
      end
  end.
Proof.
  rewrite run_Seq, run_Group. unfold re_kw, Lit.
  cbn [run]. fold (Lit' (py "if")) (Lit' (py "ifdef")) (Lit' (py "ifndef"))
    (Lit' (py "endif")).
  change (fun st0 : mstate => run fl (Lit' (py "if")) ?k st0) with
    (run fl (Lit' (py "if")) k).
  rewrite !run_lit.
  destruct (strip_prefix (py "if") (rest st)) as [l2|] eqn:E.
  - apply strip_prefix_spec in E. rewrite run_line.
    cbn [orelse close_group rest]. now rewrite (skip_rest st _ _ E).
  - destruct (strip_if_prefix _ E) as [-> ->]. cbn [orelse].
    destruct (strip_prefix (py "endif") (rest st)) as [l2|] eqn:E2;
      [|reflexivity].
    apply strip_prefix_spec in E2. rewrite run_line.
    cbn [close_group rest]. now rewrite (skip_rest st _ _ E2).
Qed.

Lemma skip_prev : forall w st,
  prev (skip st w) = match rev w with [] => prev st | c :: _ => Some c end.
Proof.
  induction w as [|c w IH]; intros st; [reflexivity|].
  cbn [skip rev]. rewrite IH. cbn [advance prev].
  now destruct (rev w).
Qed.

Lemma skip_not_bol w st :
  forallb not_nl w = true ->
  (w = [] -> at_bol fl st = false) ->
  at_bol fl (skip st w) = false.
Proof.
  intros Hall Hnil. rewrite at_bol_multiline, skip_prev.
  destruct (rev w) as [|c r] eqn:E.
  - assert (w = []) as -> by (now apply (f_equal (@rev ascii)) in E;
      rewrite rev_involutive in E).
    specialize (Hnil eq_refl). now rewrite at_bol_multiline in Hnil.
  - assert (Hin : In c w) by (apply in_rev; rewrite E; now left).
    rewrite forallb_forall in Hall. specialize (Hall c Hin).
    unfold not_nl in Hall. now apply negb_true_iff in Hall.
Qed.

(** The state after the keyword [kw] and the rest of its line. *)
Lemma kw_state sH kw l2 :
  rest sH = kw ++ l2 -> kw <> [] -> forallb not_nl kw = true -> caps sH = [] ->
  let e := skip (close_group 1 sH (skip sH kw)) (take_while not_nl l2) in
  ahead sH (List.length kw + List.length (take_while not_nl l2)) e /\
  option_map c_text (lookup 1 (caps e)) = Some kw /\
  at_bol fl e = false.
Proof.
  intros Hr Hne Hnl Hc e.
  destruct (skip_spec sH kw l2 Hr) as (Hp & Hr1 & Hc1).
  set (s1 := close_group 1 sH (skip sH kw)) in *.
  pose proof (take_drop_while not_nl l2) as Hsplit.
  assert (Hrs1 : rest s1 = take_while not_nl l2 ++ drop_while not_nl l2)
    by (now rewrite Hsplit).
  split; [|split].
  - eapply ahead_trans; [apply (ahead_skip sH kw l2 Hr)|].
    eapply ahead_same; [| |apply (ahead_skip s1 _ _ Hrs1)]; reflexivity.
  - unfold e. rewrite skip_caps. unfold s1. cbn. rewrite Hp.
    replace (pos sH + List.length kw - pos sH) with (List.length kw) by lia.
    rewrite Hr, firstn_app, Nat.sub_diag, firstn_all. cbn.
    now rewrite app_nil_r.
  - apply skip_not_bol; [apply take_while_all|]. intros _.
    change (at_bol fl s1) with (at_bol fl (skip sH kw)).
    apply skip_not_bol; [exact Hnl | now intros]. 
Qed.

Lemma run_hash_space st c r :
  rest st = c :: r -> is_space c = true ->
  run fl re_hash (fun e => Some e) st = None.
Proof.
  intros Hr Hs. unfold re_hash, Lit. rewrite run_Seq, run_lit, Hr.
  cbn [py list_ascii_of_string strip_prefix].
  destruct (Ascii.eqb c "#") eqn:E; [|reflexivity].
  apply Ascii.eqb_eq in E. subst c. discriminate Hs.
Qed.

Lemma match_at_dir st :
  match (if at_bol fl st then dir_here (rest st) else None) with
  | Some (n, kw) =>
      exists m, match_at directive_pattern st = Some m /\ dir_result st n kw m
  | None => match_at directive_pattern st = None
  end.
Proof.
  unfold match_at. cbn [p_flags p_regex directive_pattern compile].
  change (Seqs _) with (Seq Bol (Seq (Star true CSpace) re_hash)).
  set (st0 := {| pos := pos st; prev := prev st; rest := rest st; caps := [] |}).
  rewrite run_Seq, run_Bol. change (at_bol fl st0) with (at_bol fl st).
  destruct (at_bol fl st); [|reflexivity].
  rewrite run_Seq, run_Star.
  rewrite (star_max false CSpace) by
    (try reflexivity; intros st' c r _; apply run_hash_space).
  change (cset_mem fl CSpace) with is_space. change (rest st0) with (rest st).
  unfold dir_here.
  pose proof (take_drop_while is_space (rest st)) as Hsplit.
  set (w := take_while is_space (rest st)) in *.
  assert (Hah0 : ahead st0 (List.length w) (skip st0 w))
    by (apply (ahead_skip st0 w (drop_while is_space (rest st))); now rewrite Hsplit).
  assert (Hr0 : rest (skip st0 w) = drop_while is_space (rest st))
    by (apply skip_rest; now rewrite Hsplit).
  unfold re_hash, Lit. rewrite run_Seq, run_lit, Hr0.
  destruct (drop_while is_space (rest st)) as [|c l1] eqn:Ed; [reflexivity|].
  change (strip_prefix (py "#") (c :: l1)) with
    (if Ascii.eqb c "#" then Some l1 else None).
  destruct (Ascii.eqb c "#") eqn:Ec; [|reflexivity].
  apply Ascii.eqb_eq in Ec. subst c.
  set (sH := skip (skip st0 w) (py "#")).
  assert (HrH : rest sH = l1) by (apply (skip_rest (skip st0 w) (py "#") l1 Hr0)).
  assert (HcH : caps sH = []) by (unfold sH; now rewrite !skip_caps).
  assert (HahH : ahead st0 (List.length w + 1) sH).
  { eapply ahead_trans; [exact Hah0|].
    apply (ahead_skip (skip st0 w) (py "#") l1 Hr0). }
  rewrite run_kw, HrH.
  assert (Hfin : forall kw l2, l1 = kw ++ l2 -> kw <> [] ->
            forallb not_nl kw = true ->
            let e := skip (close_group 1 sH (skip sH kw)) (take_while not_nl l2) in
            exists m,
              match Some e with
              | Some e0 => Some {| m_start := pos st; m_end := pos e0;
                                   m_caps := caps e0; m_after := e0 |}
              | None => None
              end = Some m /\
              dir_result st (List.length w + 1 + List.length kw
                             + List.length (take_while not_nl l2)) kw m).
  { intros kw l2 El Hne Hnl e.
    destruct (kw_state sH kw l2 (eq_trans HrH El) Hne Hnl HcH)
      as (Hah & Hg & Hb). fold e in Hah, Hg, Hb.
    pose proof (ahead_trans _ _ _ _ _ HahH Hah) as Hall.
    rewrite Nat.add_assoc in Hall.
    eexists. split; [reflexivity|]. unfold dir_result, group.
    cbn [m_start m_end m_caps m_after].
    destruct Hall as (Hp & Hr & Hl). cbn [pos rest st0] in Hp.
    repeat split; auto.
    apply (ahead_rest st0). unfold ahead. auto. }
  destruct (strip_prefix (py "if") l1) as [l2|] eqn:E.
  - apply strip_prefix_spec in E.
    apply (Hfin (py "if") l2 E); [discriminate | reflexivity].
  - destruct (strip_prefix (py "endif") l1) as [l2|] eqn:E2; [|reflexivity].
    apply strip_prefix_spec in E2.
    apply (Hfin (py "endif") l2 E2); [discriminate | reflexivity].
Qed.

End DirectivePattern.

(** ** [directive_pattern.finditer] *)

Section DirectiveScan.

Local Abbreviation fl := {| MULTILINE := true; DOTALL := false |}.

Lemma dir_here_pos l n kw : dir_here l = Some (n, kw) -> 0 < n.
Proof.
  unfold dir_here. destruct (drop_while is_space l) as [|c l1]; [discriminate|].
  destruct (Ascii.eqb c "#"); [|discriminate].
  destruct (strip_prefix (py "if") l1).
  - intros [= <- _]. lia.
  - destruct (strip_prefix (py "endif") l1); [|discriminate].
    intros [= <- _]. lia.
Qed.

Lemma dir_here_kw l n kw :
  dir_here l = Some (n, kw) -> kw = py "if" \/ kw = py "endif".
Proof.
  unfold dir_here. destruct (drop_while is_space l) as [|c l1]; [discriminate|].
  destruct (Ascii.eqb c "#"); [|discriminate].
  destruct (strip_prefix (py "if") l1).
  - intros [= _ <-]. now left.
  - destruct (strip_prefix (py "endif") l1); [|discriminate].
    intros [= _ <-]. now right.
Qed.

Lemma search_from_dir : forall l st,
  rest st = l ->
  match find_dir (at_bol fl st) l (pos st) with
  | Some (q, n, kw, r) =>
      exists m, search_from directive_pattern st l = Some m /\ found q n kw r m
  | None => search_from directive_pattern st l = None
  end.
Proof.
  induction l as [|c l IH]; intros st Hr;
    pose proof (match_at_dir st) as A; rewrite Hr in A;
    cbn [find_dir search_from].
  - destruct (if at_bol fl st then dir_here [] else None) as [[n kw]|] eqn:E.
    + destruct A as (m & Hm & H1 & H2 & H3 & H4 & H5 & H6). rewrite Hm.
      exists m. split; [reflexivity|]. unfold found. rewrite Hr in H5.
      repeat split; auto.
      destruct (at_bol fl st); [|discriminate]. now apply dir_here_pos in E.
    + now rewrite A.
  - destruct (if at_bol fl st then dir_here (c :: l) else None)
      as [[n kw]|] eqn:E.
    + destruct A as (m & Hm & H1 & H2 & H3 & H4 & H5 & H6). rewrite Hm.
      exists m. split; [reflexivity|]. unfold found. rewrite Hr in H5.
      repeat split; auto.
      destruct (at_bol fl st); [|discriminate]. now apply dir_here_pos in E.
    + rewrite A. specialize (IH (advance st c l) eq_refl).
      rewrite at_bol_multiline in IH. exact IH.
Qed.

Lemma finditer_from_dirs : forall fuel st,
  map obs (finditer_from fuel directive_pattern st) =
  map obs_of (dirs fuel (at_bol fl st) (rest st) (pos st)).
Proof.
  induction fuel as [|fuel IH]; intros st; [reflexivity|].
  cbn [finditer_from dirs].
  pose proof (search_from_dir (rest st) st eq_refl) as A.
  destruct (find_dir (at_bol fl st) (rest st) (pos st)) as [[[[q n] kw] r]|].
  - destruct A as (m & Hm & H1 & H2 & H3 & H4 & H5 & H6 & H7). rewrite Hm.
    replace (m_end m =? m_start m) with false
      by (symmetry; apply Nat.eqb_neq; lia).
    cbn [map]. rewrite IH, H6, H5, H4. unfold obs, obs_of.
    now rewrite H1, H2, H3.
  - now rewrite A.
Qed.

(** [directive_pattern.finditer(text)], as the script reads it. *)
Theorem finditer_directives text :
  map obs (finditer directive_pattern text) = map obs_of (directives text).
Proof. apply finditer_from_dirs. Qed.

End DirectiveScan.

(** ** [replace_header_guard], deterministically *)

Lemma str_eqb_eq a b : str_eqb a b = true <-> a = b.
Proof.
  revert b. induction a as [|x a IH]; intros [|y b]; simpl;
    try (split; [discriminate | discriminate]); [tauto|].
  rewrite andb_true_iff, Ascii.eqb_eq, IH. split.
  - now intros [-> ->].
  - now intros [= -> ->].
Qed.

Lemma find_dir_kw : forall l b p q n kw r,
  find_dir b l p = Some (q, n, kw, r) -> kw = py "if" \/ kw = py "endif".
Proof.
  induction l as [|c l IH]; intros b p q n kw r; cbn [find_dir];
    destruct (if b then dir_here _ else None) as [[n' kw']|] eqn:E.
  - intros [= _ _ <- _]. destruct b; [|discriminate].
    eapply dir_here_kw; eauto.
  - discriminate.
  - intros [= _ _ <- _]. destruct b; [|discriminate].
    eapply dir_here_kw; eauto.
  - apply IH.
Qed.

Lemma dirs_kw : forall fuel b l p q n kw,
  In (q, n, kw) (dirs fuel b l p) -> kw = py "if" \/ kw = py "endif".
Proof.
  induction fuel as [|fuel IH]; intros b l p q n kw; cbn [dirs]; [easy|].
  destruct (find_dir b l p) as [[[[q' n'] kw'] r]|] eqn:E; [|easy].
  intros [[= <- <- <-]|H].
  - eapply find_dir_kw; eauto.
  - eapply IH; eauto.
Qed.

Lemma scan_obs content pre post ge : forall ms ms' stack,
  map obs ms = map obs ms' ->
  scan content pre post ge stack ms = scan content pre post ge stack ms'.
Proof.
  induction ms as [|m ms IH]; intros [|m' ms'] stack; try discriminate;
    [reflexivity|].
  cbn [map]. intros [= H1 H2 H3 Ht]. cbn [scan]. rewrite H1, H2, H3.
  destruct (opt_eqb (group m' 1) "if" || opt_eqb (group m' 1) "ifdef"
            || opt_eqb (group m' 1) "ifndef").
  - destruct (group m' 1); [|reflexivity]. now apply IH.
  - destruct (opt_eqb (group m' 1) "endif"); [|now apply IH].
    destruct (pop stack) as [[|x st']|]; try reflexivity. now apply IH.
Qed.

Lemma scan_terminator content pre post ge : forall ds ms stack,
  map obs ms = map obs_of ds ->
  (forall q n kw, In (q, n, kw) ds -> kw = py "if" \/ kw = py "endif") ->
  stack <> [] ->
  scan content pre post ge stack ms =
  Return (option_map (fun se => rebuild content pre post ge (fst se) (snd se))
            (terminator (List.length stack) ds)).
Proof.
  induction ds as [|[[q n] kw] ds IH]; intros [|m ms] stack; try discriminate;
    [reflexivity|].
  cbn [map obs obs_of]. intros [= H1 H2 H3 Ht] Hkw Hs.
  cbn [scan terminator]. rewrite H1, H2, H3.
  destruct (Hkw q n kw (or_introl eq_refl)) as [-> | ->].
  - cbn [opt_eqb str_eqb orb]. change (str_eqb (py "if") (py "if")) with true.
    cbn [orb].
    rewrite (IH ms (("#"%char :: py "if") :: stack) Ht);
      [reflexivity | intros; eapply Hkw; right; eauto | discriminate].
  - change (opt_eqb (Some (py "endif")) "if") with false.
    change (opt_eqb (Some (py "endif")) "ifdef") with false.
    change (opt_eqb (Some (py "endif")) "ifndef") with false.
    change (opt_eqb (Some (py "endif")) "endif") with true.
    change (str_eqb (py "endif") (py "if")) with false. cbn [orb].
    destruct stack as [|x [|y stack]]; [now elim Hs | reflexivity |].
    cbn [pop List.length].
    apply (IH ms (y :: stack) Ht); [|discriminate].
    intros; eapply Hkw; right; eauto.
Qed.

(** [replace_header_guard] returns what the deterministic reading of
    its two patterns gives; in particular it raises nothing. *)
Theorem replace_header_guard_eq content :
  replace_header_guard content = Return (rewritten content).
Proof.
  unfold replace_header_guard, rewritten, guard_parts.
  pose proof (search_locate content) as A.
  destruct (locate content) as [[[p n] name]|].
  - destruct A as (m & -> & -> & -> & -> & _).
    rewrite (scan_terminator content (firstn p content) (skipn (p + n) content)
               (p + n) (directives (skipn (p + n) content)));
      [| apply finditer_directives | apply dirs_kw | discriminate].
    cbn [List.length].
    now destruct (terminator 1 (directives (skipn (p + n) content))) as [[s e]|].
  - now rewrite A.
Qed.

(** ** The example of the specification *)

(** C1 (as the code has it): on the example input the transform returns
    the text with the marker ['\n#pragma once\n\n'] after the prologue,
    hence a blank line before [#pragma once], and with the line feed
    that ended the closing [#endif] kept, hence a blank line before
    [int tail;]. *)
Theorem c1_example_output :
  replace_header_guard c1_input = Return (Some c1_actual).
Proof. vm_compute. reflexivity. Qed.

(** C1 (as stated) fails: the output is not the text of the
    specification's example. *)
Lemma c1_example_differs :
  replace_header_guard c1_input <> Return (Some c1_claimed).
Proof. vm_compute. discriminate. Qed.

(** ** The loop and the stack *)

Lemma kind_of_open m : kind_of m = Some KOpen -> is_open (group m 1) = true.
Proof.
  unfold kind_of. destruct (is_open (group m 1)); [reflexivity|].
  destruct (is_close (group m 1)); discriminate.
Qed.

Lemma kind_of_close m :
  kind_of m = Some KClose ->
  is_open (group m 1) = false /\ is_close (group m 1) = true.
Proof.
  unfold kind_of. destruct (is_open (group m 1)); [discriminate|].
  destruct (is_close (group m 1)); [auto | discriminate].
Qed.

Lemma is_open_some g : is_open g = true -> exists d, g = Some d.
Proof. destruct g as [d|]; [now exists d | discriminate]. Qed.

(** A run of complete blocks leaves the stack as it found it. *)
Lemma scan_nested content pre post ge : forall N w,
  nested N w ->
  forall ms1 stack rest_,
    map kind_of ms1 = map Some w -> stack <> [] ->
    scan content pre post ge stack (ms1 ++ rest_) =
    scan content pre post ge stack rest_.
Proof.
  induction 1 as [|n m a b Ha IHa Hb IHb]; intros ms1 stack rest_ Hk Hs.
  - apply map_eq_nil in Hk. now subst.
  - cbn [map] in Hk. apply map_eq_cons in Hk as (mo & t & -> & Ho & Hk).
    rewrite map_app in Hk. apply map_eq_app in Hk as (ma & t' & -> & Hma & Hk).
    cbn [map] in Hk. apply map_eq_cons in Hk as (mc & mb & -> & Hc & Hmb).
    apply kind_of_open in Ho. destruct (is_open_some _ Ho) as (d & Hd).
    apply kind_of_close in Hc as (Hc1 & Hc2).
    cbn [app scan]. fold (is_open (group mo 1)). rewrite Ho, Hd.
    rewrite <- app_assoc. rewrite (IHa ma); [|exact Hma|discriminate].
    cbn [app scan]. fold (is_open (group mc 1)) (is_close (group mc 1)).
    rewrite Hc1, Hc2. cbn [pop].
    destruct stack as [|x stack]; [now elim Hs|].
    now apply IHb.
Qed.

(** With the depth never back at zero the loop runs out of matches. *)
Lemma scan_never_zero content pre post ge : forall ms stack,
  Forall (fun d => d <> 0) (depth_trace (List.length stack) (groups1 ms)) ->
  scan content pre post ge stack ms = Return None.
Proof.
  induction ms as [|m ms IH]; intros stack H; [reflexivity|].
  cbn [groups1 map depth_trace] in H. inversion H as [|? ? Hd Ht]; subst.
  cbn [scan]. fold (is_open (group m 1)) (is_close (group m 1)).
  unfold step_depth in Hd, Ht.
  destruct (is_open (group m 1)) eqn:Eo.
  - destruct (is_open_some _ Eo) as (d & ->). apply IH. exact Ht.
  - destruct (is_close (group m 1)) eqn:Ec.
    + destruct stack as [|x [|y stack]]; cbn [List.length pred] in Hd, Ht;
        try (now elim Hd).
      cbn [pop]. apply IH. exact Ht.
    + apply IH. exact Ht.
Qed.

Lemma nested_count N w : nested N w -> count_close w = N.
Proof.
  unfold count_close. induction 1 as [|n m a b Ha IHa Hb IHb]; [reflexivity|].
  cbn [filter]. rewrite filter_app. cbn [filter].
  rewrite length_app. cbn [List.length]. lia.
Qed.

Lemma depth_trace_app d a b :
  depth_trace d (a ++ b) = depth_trace d a ++ depth_trace (depth_after d a) b.
Proof.
  revert d. induction a as [|g a IH]; intros d; [reflexivity|].
  cbn [app depth_trace depth_after]. now rewrite IH.
Qed.

Lemma depth_after_app d a b :
  depth_after d (a ++ b) = depth_after (depth_after d a) b.
Proof.
  revert d. induction a as [|g a IH]; intros d; [reflexivity|].
  cbn [app depth_after]. now rewrite IH.
Qed.

(** Inside complete blocks the depth never goes below where it started
    and ends where it started. *)
Lemma nested_depth N w : nested N w -> forall ms d,
  map kind_of ms = map Some w ->
  Forall (fun x => d <= x) (depth_trace d (groups1 ms)) /\
  depth_after d (groups1 ms) = d.
Proof.
  induction 1 as [|n m a b Ha IHa Hb IHb]; intros ms d Hk.
  - apply map_eq_nil in Hk. subst. split; [constructor | reflexivity].
  - cbn [map] in Hk. apply map_eq_cons in Hk as (mo & t & -> & Ho & Hk).
    rewrite map_app in Hk. apply map_eq_app in Hk as (ma & t' & -> & Hma & Hk).
    cbn [map] in Hk. apply map_eq_cons in Hk as (mc & mb & -> & Hc & Hmb).
    apply kind_of_open in Ho. apply kind_of_close in Hc as (Hc1 & Hc2).
    destruct (IHa ma (S d) Hma) as (Fa & Ea).
    destruct (IHb mb d Hmb) as (Fb & Eb).
    assert (Eo : step_depth (group mo 1) d = S d)
      by (unfold step_depth; now rewrite Ho).
    assert (Ec : step_depth (group mc 1) (S d) = d)
      by (unfold step_depth; now rewrite Hc1, Hc2).
    unfold groups1 in *. cbn [map depth_trace depth_after]. rewrite Eo.
    rewrite map_app. cbn [map].
    rewrite depth_trace_app, depth_after_app, Ea.
    cbn [depth_trace depth_after]. rewrite Ec. split; [|exact Eb].
    constructor; [lia|]. apply Forall_app. split.
    + eapply Forall_impl; [|exact Fa]. cbn. intros; lia.
    + constructor; [lia | exact Fb].
Qed.

(** ** C10, C5, C4, C2 *)

(** The loop raises nothing when it starts from a stack that is not
    empty: every [pop] finds an entry. *)
Lemma scan_never_raises content pre post ge : forall ms stack,
  stack <> [] -> exists r, scan content pre post ge stack ms = Return r.
Proof.
  induction ms as [|m ms IH]; intros stack Hs; [now eexists|].
  cbn [scan]. fold (is_open (group m 1)) (is_close (group m 1)).
  destruct (is_open (group m 1)) eqn:Eo.
  - destruct (is_open_some _ Eo) as (d & ->). apply IH. discriminate.
  - destruct (is_close (group m 1)); [|now apply IH].
    destruct stack as [|x [|y stack]]; [now elim Hs | now eexists |].
    cbn [pop]. apply IH. discriminate.
Qed.

(** C10: [replace_header_guard] returns [None] or a text for every
    input, and raises nothing; the [pop] at an [#endif] always finds an
    entry on the stack, which holds the guard's own [#ifndef] from the
    start and is left as soon as a [pop] empties it. *)
Theorem c10_never_raises content :
  exists r, replace_header_guard content = Return r.
Proof. eexists. apply replace_header_guard_eq. Qed.

Lemma replace_unterminated content :
  unterminated content -> replace_header_guard content = Return None.
Proof.
  intros (m & pre & gs & ge & Hm & H1 & H2 & H3 & Hz).
  unfold replace_header_guard. rewrite Hm, H1, H2, H3.
  apply scan_never_zero. exact Hz.
Qed.

(** C5: when a guard is located and the depth counter never comes back
    to zero, [replace_header_guard] returns no text and [process_file]
    leaves every file as it was. *)
Theorem c5_unterminated_untouched content :
  unterminated content ->
  replace_header_guard content = Return None /\
  forall w file_path dry_run verbose,
    files w file_path = Some content ->
    exists w', process_file w file_path dry_run verbose = Return w' /\
               files w' = files w.
Proof.
  intros H. pose proof (replace_unterminated content H) as Hr.
  split; [exact Hr|]. intros w file_path dry_run verbose Hf.
  unfold process_file. rewrite Hf, Hr.
  eexists. split; [reflexivity|]. now destruct verbose.
Qed.

Lemma c4_unclosed_unterminated : unterminated c4_unclosed.
Proof.
  unfold unterminated. eexists _, _, _, _.
  split; [vm_compute; reflexivity|].
  split; [vm_compute; reflexivity|].
  split; [vm_compute; reflexivity|].
  split; [vm_compute; reflexivity|].
  vm_compute. repeat (apply Forall_cons; [discriminate|]). apply Forall_nil.
Defined.

(** C5, on a guard whose [#endif] is missing. *)
Lemma c5_witness :
  replace_header_guard c4_unclosed = Return None /\
  forall w file_path dry_run verbose,
    files w file_path = Some c4_unclosed ->
    exists w', process_file w file_path dry_run verbose = Return w' /\
               files w' = files w.
Proof. apply (c5_unterminated_untouched c4_unclosed c4_unclosed_unterminated). Defined.

(** C4 (as the code has it): an input with no guard and an input whose
    guard is never closed give the same result, [None], and
    [process_file] reports both as "no header guard found". *)
Theorem c4_failures_alike a b :
  no_guard a -> unterminated b ->
  replace_header_guard a = Return None /\
  replace_header_guard b = Return None /\
  forall w pa pb,
    files w pa = Some a -> files w pb = Some b ->
    process_file w pa false true = Return (print w (NoHeaderGuard pa)) /\
    process_file w pb false true = Return (print w (NoHeaderGuard pb)).
Proof.
  intros Ha Hb.
  assert (Ra : replace_header_guard a = Return None)
    by (unfold replace_header_guard; now rewrite Ha).
  pose proof (replace_unterminated b Hb) as Rb.
  split; [exact Ra|]. split; [exact Rb|].
  intros w pa pb Fa Fb. unfold process_file.
  now rewrite Fa, Fb, Ra, Rb.
Qed.

Lemma c4_witness :
  replace_header_guard c4_no_guard = Return None /\
  replace_header_guard c4_unclosed = Return None /\
  forall w pa pb,
    files w pa = Some c4_no_guard -> files w pb = Some c4_unclosed ->
    process_file w pa false true = Return (print w (NoHeaderGuard pa)) /\
    process_file w pb false true = Return (print w (NoHeaderGuard pb)).
Proof.
  apply (c4_failures_alike c4_no_guard c4_unclosed);
    [vm_compute; reflexivity | exact c4_unclosed_unterminated].
Defined.

(** C4 (as stated) fails: the two failures cannot be told apart from
    the value returned. *)
Lemma c4_indistinguishable :
  no_guard c4_no_guard /\ unterminated c4_unclosed /\
  replace_header_guard c4_no_guard = replace_header_guard c4_unclosed.
Proof.
  split; [vm_compute; reflexivity|].
  split; [exact c4_unclosed_unterminated|].
  vm_compute. reflexivity.
Qed.

(** ** Where a guard is found *)

Lemma line_start_S b c l k :
  line_start b (c :: l) (S k) = line_start (Ascii.eqb c NL) l k.
Proof. destruct k; reflexivity. Qed.

Lemma find_guard_some : forall l b p0 p n name,
  find_guard b l p0 = Some (p, n, name) ->
  exists k, p = p0 + k /\ k <= List.length l /\ line_start b l k = true /\
            guard_here (skipn k l) = Some (n, name) /\
            forall j, j < k -> line_start b l j = true ->
                      guard_here (skipn j l) = None.
Proof.
  induction l as [|c l IH]; intros b p0 p n name; cbn [find_guard];
    destruct (if b then guard_here _ else None) as [[n' nm]|] eqn:E.
  - intros [= <- <- <-]. exists 0. destruct b; [|discriminate].
    rewrite Nat.add_0_r. repeat split; auto. intros j Hj. lia.
  - discriminate.
  - intros [= <- <- <-]. exists 0. destruct b; [|discriminate].
    rewrite Nat.add_0_r. split; [reflexivity|]. split; [cbn; lia|].
    split; [reflexivity|]. split; [exact E|]. intros j Hj. lia.
  - intros H. destruct (IH _ _ _ _ _ H) as (k & -> & Hk & Hl & Hg & Hmin).
    exists (S k). rewrite line_start_S. split; [lia|]. split; [cbn; lia|].
    split; [exact Hl|]. split; [exact Hg|].
    intros [|j] Hj.
    + cbn [line_start skipn]. intros ->. exact E.
    + rewrite line_start_S. cbn [skipn]. apply Hmin. lia.
Qed.

Lemma find_guard_none : forall l b p0,
  find_guard b l p0 = None ->
  forall j, line_start b l j = true -> guard_here (skipn j l) = None.
Proof.
  induction l as [|c l IH]; intros b p0; cbn [find_guard];
    destruct (if b then guard_here _ else None) as [[n' nm]|] eqn:E;
    try discriminate.
  - intros _ [|j]; cbn [line_start]; [now intros -> |].
    now destruct j.
  - intros H [|j].
    + cbn [line_start skipn]. now intros ->.
    + rewrite line_start_S. cbn [skipn]. eapply IH; eauto.
Qed.

Lemma find_guard_complete : forall l b p0 j,
  line_start b l j = true -> guard_here (skipn j l) <> None ->
  find_guard b l p0 <> None.
Proof.
  intros l b p0 j Hl Hg Hn. apply Hg. eapply find_guard_none; eauto.
Qed.

(** ** The shape of a guard span *)

Lemma trail_shape : forall l k,
  trail l = Some k ->
  all_space (firstn k l) = true /\ k <= List.length l /\
  (skipn k l = [] \/ exists w, firstn k l = w ++ [NL]).
Proof.
  induction l as [|c l IH]; intros k; cbn [trail].
  - intros [= <-]. cbn. auto.
  - destruct (is_space c) eqn:Ec; [|discriminate].
    destruct (trail l) as [m|] eqn:Et.
    + intros [= <-]. destruct (IH m eq_refl) as (Ha & Hle & Hend).
      cbn [firstn skipn all_space forallb List.length]. rewrite Ec.
      repeat split; auto; [lia|].
      destruct Hend as [Hend | (w & Hw)]; [now left | right].
      exists (c :: w). now rewrite Hw.
    + destruct (Ascii.eqb c NL) eqn:En; [|discriminate]. intros [= <-].
      apply Ascii.eqb_eq in En. subst c. cbn. repeat split; auto; [lia|].
      right. now exists [].
Qed.

Lemma guard_here_shape l n name :
  guard_here l = Some (n, name) -> guard_shape l n name.
Proof.
  unfold guard_here, tail_ifndef, tail_name, tail_gap, tail_define, tail_ref.
  pose proof (take_drop_while is_space l) as S0.
  pose proof (take_while_all is_space l) as A0.
  set (w0 := take_while is_space l) in *.
  destruct (strip_prefix (py "#ifndef") (drop_while is_space l)) as [l1|] eqn:E1;
    [|discriminate].
  apply strip_prefix_spec in E1.
  pose proof (take_drop_while is_space l1) as S1.
  pose proof (take_while_all is_space l1) as A1.
  set (w1 := take_while is_space l1) in *.
  destruct (is_nil w1) eqn:N1; [discriminate|]. apply is_nil_false in N1.
  pose proof (take_drop_while is_word (drop_while is_space l1)) as S2.
  pose proof (take_while_all is_word (drop_while is_space l1)) as A2.
  set (nm := take_while is_word (drop_while is_space l1)) in *.
  destruct (is_nil nm) eqn:N2; [discriminate|]. apply is_nil_false in N2.
  set (l3 := drop_while is_word (drop_while is_space l1)) in *.
  pose proof (take_drop_while is_space l3) as S3.
  pose proof (take_while_all is_space l3) as A3.
  set (w2 := take_while is_space l3) in *.
  destruct (has_nl w2) eqn:H2; [|discriminate].
  destruct (strip_prefix (py "#define") (drop_while is_space l3)) as [l5|] eqn:E5;
    [|discriminate].
  apply strip_prefix_spec in E5.
  pose proof (take_drop_while is_space l5) as S5.
  pose proof (take_while_all is_space l5) as A5.
  set (w3 := take_while is_space l5) in *.
  destruct (is_nil w3) eqn:N3; [discriminate|]. apply is_nil_false in N3.
  destruct (strip_prefix nm (drop_while is_space l5)) as [l7|] eqn:E7;
    [|discriminate].
  apply strip_prefix_spec in E7.
  destruct (trail l7) as [k|] eqn:Et; [|discriminate].
  destruct (trail_shape l7 k Et) as (A7 & Hk & Hend).
  cbn [shift option_map]. intros [= <- <-].
  exists w0, w1, w2, w3, (firstn k l7), (skipn k l7).
  repeat split; auto.
  - rewrite <- S0 at 1. f_equal. rewrite E1. f_equal. rewrite <- S1 at 1.
    f_equal. rewrite <- S2 at 1. f_equal. rewrite <- S3 at 1. f_equal.
    rewrite E5. f_equal. rewrite <- S5 at 1. f_equal. rewrite E7. f_equal.
    now rewrite firstn_skipn.
  - rewrite !length_app, length_firstn. cbn [py list_ascii_of_string List.length].
    lia.
Qed.

(** The converse: a text of that shape, with each run of white space
    and each identifier taken whole, is matched. *)
Lemma head_not_space_word (name x : str) :
  all_word name = true -> name <> [] ->
  match name ++ x with [] => True | c :: _ => is_space c = false end.
Proof.
  destruct name as [|c name]; [easy|]. cbn. intros H _.
  apply andb_true_iff in H as [H _]. now apply word_not_space.
Qed.

Lemma head_not_word_space (w x : str) :
  all_space w = true -> w <> [] ->
  match w ++ x with [] => True | c :: _ => is_word c = false end.
Proof.
  destruct w as [|c w]; [easy|]. cbn. intros H _.
  apply andb_true_iff in H as [H _]. now apply space_not_word.
Qed.

Lemma take_while_run p w x :
  forallb p w = true ->
  match x with [] => True | c :: _ => p c = false end ->
  take_while p (w ++ x) = w.
Proof.
  intros Hw Hx. rewrite take_while_app by exact Hw.
  rewrite take_while_stop by exact Hx. apply app_nil_r.
Qed.

Lemma drop_while_run p w x :
  forallb p w = true ->
  match x with [] => True | c :: _ => p c = false end ->
  drop_while p (w ++ x) = x.
Proof.
  intros Hw Hx. rewrite drop_while_app by exact Hw.
  now apply drop_while_stop.
Qed.

Lemma has_nl_nonempty w : has_nl w = true -> w <> [].
Proof. now destruct w. Qed.

Lemma guard_here_build w0 w1 name w2 w3 x k :
  all_space w0 = true -> all_space w1 = true -> w1 <> [] ->
  all_word name = true -> name <> [] ->
  all_space w2 = true -> has_nl w2 = true ->
  all_space w3 = true -> w3 <> [] ->
  trail x = Some k ->
  guard_here (w0 ++ py "#ifndef" ++ w1 ++ name ++ w2 ++ py "#define" ++ w3
                 ++ name ++ x) =
  Some (List.length (w0 ++ py "#ifndef" ++ w1 ++ name ++ w2 ++ py "#define"
                        ++ w3 ++ name) + k, name).
Proof.
  intros A0 A1 N1 An Nn A2 H2 A3 N3 Ht.
  unfold guard_here.
  rewrite take_while_run, drop_while_run by first [exact A0 | reflexivity].
  unfold tail_ifndef. rewrite strip_prefix_app.
  rewrite take_while_run, drop_while_run
    by first [exact A1 | now apply head_not_space_word].
  destruct w1 as [|c1 w1']; [now elim N1|]. cbn [is_nil]. 
  set (w1 := c1 :: w1') in *.
  unfold tail_name.
  rewrite take_while_run, drop_while_run
    by first [exact An | apply head_not_word_space;
                         [exact A2 | now apply has_nl_nonempty]].
  destruct name as [|cn name']; [now elim Nn|]. cbn [is_nil].
  set (name := cn :: name') in *.
  unfold tail_gap.
  rewrite take_while_run, drop_while_run by first [exact A2 | reflexivity].
  rewrite H2. unfold tail_define. rewrite strip_prefix_app.
  rewrite take_while_run, drop_while_run
    by first [exact A3 | now apply head_not_space_word].
  destruct w3 as [|c3 w3']; [now elim N3|]. cbn [is_nil].
  set (w3 := c3 :: w3') in *.
  unfold tail_ref. rewrite strip_prefix_app, Ht.
  cbn [shift option_map]. f_equal. f_equal.
  rewrite !length_app. cbn [py list_ascii_of_string List.length]. lia.
Qed.

Lemma trail_nl x : exists k, trail (NL :: x) = Some k.
Proof.
  cbn [trail]. rewrite is_space_NL.
  destruct (trail x); [now eexists|]. now eexists.
Qed.

(** ** C6 and C7 *)

Lemma bol_after_cons b c pre :
  bol_after b (c :: pre) = bol_after (Ascii.eqb c NL) pre.
Proof.
  unfold bol_after. cbn [rev]. destruct (rev pre); reflexivity.
Qed.

Lemma drop_while_app_some p w x c r :
  drop_while p w = c :: r -> drop_while p (w ++ x) = (c :: r) ++ x.
Proof.
  induction w as [|d w IH]; cbn; [discriminate|].
  destruct (p d); [exact IH|]. now intros [= -> ->].
Qed.

Lemma drop_while_in p w c r : drop_while p w = c :: r -> In c w.
Proof.
  induction w as [|d w IH]; cbn; [discriminate|].
  destruct (p d); [intros H; right; now apply IH|].
  intros [= -> _]. now left.
Qed.

Lemma drop_while_nil_all p w : drop_while p w = [] -> forallb p w = true.
Proof.
  induction w as [|d w IH]; cbn; [reflexivity|].
  destruct (p d); [exact IH | discriminate].
Qed.

(** Before the first [#], only white space can lead to a guard. *)
Lemma guard_here_no_hash pre x :
  no_hash pre = true -> all_space pre = false -> guard_here (pre ++ x) = None.
Proof.
  intros Hh Hs. unfold guard_here.
  destruct (drop_while is_space pre) as [|c r] eqn:E.
  - apply drop_while_nil_all in E. unfold all_space in Hs. congruence.
  - rewrite (drop_while_app_some _ _ x _ _ E).
    assert (Hc : Ascii.eqb c "#" = false).
    { apply drop_while_in in E. unfold no_hash in Hh.
      rewrite forallb_forall in Hh. now apply negb_true_iff, Hh. }
    unfold tail_ifndef. cbn. now rewrite Hc.
Qed.

Lemma find_guard_after_pre G name :
  (forall ws, all_space ws = true -> exists n, guard_here (ws ++ G) = Some (n, name)) ->
  forall pre b p0,
    no_hash pre = true -> bol_after b pre = true ->
    exists p n, find_guard b (pre ++ G) p0 = Some (p, n, name).
Proof.
  intros HG. induction pre as [|c pre IH]; intros b p0 Hh Hb.
  - cbn in Hb. subst b. destruct (HG [] eq_refl) as (n & Hn). cbn in Hn.
    exists p0, n. cbn [app]. destruct G; cbn [find_guard]; now rewrite Hn.
  - cbn [app find_guard].
    assert (Hnext : exists p n,
              find_guard (Ascii.eqb c NL) (pre ++ G) (S p0) = Some (p, n, name)).
    { apply IH; [|now rewrite <- (bol_after_cons b)].
      cbn in Hh. now apply andb_true_iff in Hh. }
    destruct b; [|exact Hnext].
    destruct (all_space (c :: pre)) eqn:Es.
    + destruct (HG (c :: pre) Es) as (n & Hn). cbn [app] in Hn. rewrite Hn.
      now exists p0, n.
    + change (c :: pre ++ G) with ((c :: pre) ++ G).
      rewrite (guard_here_no_hash (c :: pre) G Hh Es). exact Hnext.
Qed.

Lemma any_suffix_skipn f : forall l k,
  f (skipn k l) = true -> any_suffix f l = true.
Proof.
  induction l as [|c l IH]; intros k H.
  - rewrite skipn_nil in H. cbn. now rewrite H.
  - destruct k as [|k]; cbn [skipn any_suffix] in *.
    + now rewrite H.
    + rewrite (IH k H). apply orb_true_r.
Qed.

Lemma guard_here_adjacent l n name :
  guard_here l = Some (n, name) ->
  adjacent_pair (drop_while is_space l) = true.
Proof.
  unfold guard_here, tail_ifndef, adjacent_pair.
  destruct (strip_prefix (py "#ifndef") (drop_while is_space l)) as [l1|];
    [|discriminate].
  destruct (is_nil (take_while is_space l1)); [discriminate|].
  unfold tail_name.
  destruct (is_nil (take_while is_word (drop_while is_space l1)));
    [discriminate|].
  unfold tail_gap.
  destruct (has_nl _); [|discriminate].
  unfold tail_define.
  destruct (strip_prefix (py "#define") _); [reflexivity | discriminate].
Qed.

Lemma skipn_take_while p l :
  skipn (List.length (take_while p l)) l = drop_while p l.
Proof.
  induction l as [|c l IH]; cbn; [reflexivity|].
  destruct (p c); [exact IH | reflexivity].
Qed.

Lemma locate_adjacent content p n name :
  locate content = Some (p, n, name) ->
  any_suffix adjacent_pair content = true.
Proof.
  intros H. apply find_guard_some in H as (k & _ & _ & _ & Hg & _).
  apply guard_here_adjacent in Hg.
  apply any_suffix_skipn
    with (k := k + List.length (take_while is_space (skipn k content))).
  rewrite Nat.add_comm, <- skipn_skipn, skipn_take_while. exact Hg.
Qed.

Lemma search_none_locate content :
  locate content = None -> search header_guard_pattern content = None.
Proof. intros H. pose proof (search_locate content) as A. now rewrite H in A. Qed.

Lemma search_some_locate content m :
  search header_guard_pattern content = Some m ->
  exists p n name,
    locate content = Some (p, n, name) /\
    group m 1 = Some (firstn p content) /\ start m 2 = Some p /\
    end_ m 2 = Some (p + n) /\ group m 3 = Some name.
Proof.
  intros H. pose proof (search_locate content) as A.
  destruct (locate content) as [[[p n] name]|]; [|congruence].
  destruct A as (m' & Hm & A). assert (m' = m) by congruence. subst m'.
  now exists p, n, name.
Qed.

(** C6: an [#ifndef NAME] line and a [#define NAME] line with nothing
    but white-space lines between them are located as a guard, whatever
    their number; and a guard is located only where [#ifndef] is
    followed, across white space and one identifier only, by [#define],
    so that any other text between the two directives rules the pair
    out. *)
Theorem c6_only_blank_between :
  (forall pre name blanks rest_,
     no_hash pre = true -> bol_after true pre = true ->
     name <> [] -> all_word name = true -> all_space blanks = true ->
     exists m,
       search header_guard_pattern
         (pre ++ py "#ifndef " ++ name ++ NL :: blanks ++ py "#define "
              ++ name ++ NL :: rest_) = Some m /\
       group m 3 = Some name) /\
  (forall content,
     any_suffix adjacent_pair content = false ->
     search header_guard_pattern content = None /\
     replace_header_guard content = Return None).
Proof.
  split.
  - intros pre name blanks rest_ Hh Hb Nn An Ab.
    set (G := py "#ifndef " ++ name ++ NL :: blanks ++ py "#define "
                 ++ name ++ NL :: rest_).
    assert (HG : forall ws, all_space ws = true ->
                   exists n, guard_here (ws ++ G) = Some (n, name)).
    { intros ws Hws. destruct (trail_nl rest_) as (k & Hk).
      eexists.
      change G with (py "#ifndef" ++ [" "%char] ++ name ++ (NL :: blanks)
                       ++ py "#define" ++ [" "%char] ++ name ++ NL :: rest_).
      apply guard_here_build; auto; try discriminate. exact Hk. }
    destruct (find_guard_after_pre G name HG pre true 0 Hh Hb) as (p & n & Hf).
    pose proof (search_locate (pre ++ G)) as A. unfold locate in A.
    rewrite Hf in A. destruct A as (m & Hm & _ & _ & _ & H3).
    now exists m.
  - intros content H.
    assert (Hl : locate content = None).
    { destruct (locate content) as [[[p n] name]|] eqn:E; [|reflexivity].
      apply locate_adjacent in E. congruence. }
    pose proof (search_none_locate content Hl) as Hs.
    split; [exact Hs|]. unfold replace_header_guard. now rewrite Hs.
Qed.

(** C6, on two blank lines between the directives, and on a
    declaration between them. *)
Lemma c6_witness :
  (exists m, search header_guard_pattern c6_blank_lines = Some m /\
             group m 3 = Some (py "X_H")) /\
  search header_guard_pattern c6_text_between = None /\
  replace_header_guard c6_text_between = Return None.
Proof.
  split.
  - apply (proj1 c6_only_blank_between (lines_nl ["// c"]) (py "X_H")
             (lines_nl [""; "  "]) (lines_nl ["#endif"]));
      first [reflexivity | discriminate].
  - apply (proj2 c6_only_blank_between c6_text_between). reflexivity.
Defined.

Lemma count_occ_zero t : t <> [] -> forall l i,
  count_occ_str t l = 0 -> strip_prefix t (skipn i l) = None.
Proof.
  intros Ht. induction l as [|c l IH]; intros i H.
  - rewrite skipn_nil. destruct t; [now elim Ht | reflexivity].
  - cbn [count_occ_str] in H. destruct i as [|i]; cbn [skipn].
    + destruct (strip_prefix t (c :: l)); [discriminate | reflexivity].
    + apply IH. lia.
Qed.

Lemma count_occ_one t : t <> [] -> forall l i j,
  count_occ_str t l = 1 ->
  strip_prefix t (skipn i l) <> None -> strip_prefix t (skipn j l) <> None ->
  i = j.
Proof.
  intros Ht. induction l as [|c l IH]; intros i j H Hi Hj.
  - rewrite skipn_nil in Hi. destruct t; [now elim Ht | now elim Hi].
  - cbn [count_occ_str] in H.
    destruct i as [|i], j as [|j]; cbn [skipn] in Hi, Hj; [reflexivity| | |].
    + destruct (strip_prefix t (c :: l)); [|now elim Hi].
      elim Hj. apply count_occ_zero; [exact Ht | lia].
    + destruct (strip_prefix t (c :: l)); [|now elim Hj].
      elim Hi. apply count_occ_zero; [exact Ht | lia].
    + f_equal. apply IH; auto.
      destruct (strip_prefix t (c :: l)); [|exact H].
      elim Hi. apply count_occ_zero; [exact Ht | lia].
Qed.

(** An identifier that is not the one captured leaves a word character
    where the pattern wants white space or the end of the line. *)
Lemma strip_other_identifier : forall foo bar rest_ l',
  strip_prefix foo (bar ++ rest_) = Some l' ->
  all_word foo = true -> all_word bar = true ->
  match rest_ with [] => True | c :: _ => is_word c = false end ->
  foo <> bar ->
  exists c x, l' = c :: x /\ is_word c = true.
Proof.
  induction foo as [|a foo IH]; intros bar rest_ l' Hs Hf Hb Hr Hne.
  - cbn in Hs. injection Hs as <-. destruct bar as [|d bar]; [now elim Hne|].
    cbn in Hb. apply andb_true_iff in Hb as [Hd _]. now exists d, (bar ++ rest_).
  - cbn in Hf. apply andb_true_iff in Hf as [Ha Hf].
    destruct bar as [|d bar].
    + cbn in Hs. destruct rest_ as [|d r]; [discriminate|].
      destruct (Ascii.eqb d a) eqn:E; [|discriminate].
      apply Ascii.eqb_eq in E. subst d. congruence.
    + cbn in Hs, Hb. apply andb_true_iff in Hb as [Hd Hb].
      destruct (Ascii.eqb d a) eqn:E; [|discriminate].
      apply Ascii.eqb_eq in E. subst d.
      apply (IH bar rest_ l' Hs Hf Hb Hr). congruence.
Qed.

Lemma head_not_word_gap (w x : str) :
  all_space w = true ->
  match w ++ py "#define" ++ x with [] => True | c :: _ => is_word c = false end.
Proof.
  destruct w as [|c w]; [reflexivity|]. cbn. intros H.
  apply andb_true_iff in H as [H _]. now apply space_not_word.
Qed.

(** With two different identifiers the pair is not a guard, whatever
    white space comes before it. *)
Lemma guard_here_mismatch w0 w1 foo w2 w3 bar rest_ :
  all_space w0 = true -> all_space w1 = true -> w1 <> [] ->
  all_word foo = true -> foo <> [] -> all_space w2 = true ->
  all_space w3 = true -> w3 <> [] -> all_word bar = true -> bar <> [] ->
  foo <> bar ->
  match rest_ with [] => True | c :: _ => is_word c = false end ->
  guard_here (w0 ++ py "#ifndef" ++ w1 ++ foo ++ w2 ++ py "#define" ++ w3
                 ++ bar ++ rest_) = None.
Proof.
  intros A0 A1 N1 Af Nf A2 A3 N3 Ab Nb Hne Hr.
  unfold guard_here.
  rewrite take_while_run, drop_while_run by first [exact A0 | reflexivity].
  unfold tail_ifndef. rewrite strip_prefix_app.
  rewrite take_while_run, drop_while_run
    by first [exact A1 | now apply head_not_space_word].
  destruct w1 as [|c1 w1']; [now elim N1|]. cbn [is_nil].
  unfold tail_name.
  rewrite take_while_run, drop_while_run
    by first [exact Af | now apply head_not_word_gap].
  destruct foo as [|cf foo']; [now elim Nf|]. cbn [is_nil].
  set (foo := cf :: foo') in *.
  unfold tail_gap.
  rewrite take_while_run, drop_while_run by first [exact A2 | reflexivity].
  destruct (has_nl w2); [|reflexivity].
  unfold tail_define. rewrite strip_prefix_app.
  rewrite take_while_run, drop_while_run
    by first [exact A3 | now apply head_not_space_word].
  destruct w3 as [|c3 w3']; [now elim N3|]. cbn [is_nil].
  unfold tail_ref.
  destruct (strip_prefix foo (bar ++ rest_)) as [l'|] eqn:E; [|reflexivity].
  destruct (strip_other_identifier foo bar rest_ l' E Af Ab Hr Hne)
    as (c & x & -> & Hc).
  cbn [trail]. now rewrite (word_not_space _ Hc).
Qed.

Lemma guard_here_ifndef l n name :
  guard_here l = Some (n, name) ->
  strip_prefix (py "#ifndef") (drop_while is_space l) <> None.
Proof.
  unfold guard_here, tail_ifndef.
  destruct (strip_prefix (py "#ifndef") (drop_while is_space l));
    [discriminate | discriminate].
Qed.

(** ** Directives, line by line *)

Lemma split_lines_line ln rest_ :
  forallb not_nl ln = true ->
  split_lines (ln ++ NL :: rest_) = ln :: split_lines rest_.
Proof.
  induction ln as [|c ln IH]; cbn [app split_lines forallb]; intros H.
  - reflexivity.
  - apply andb_true_iff in H as [Hc H]. unfold not_nl in Hc.
    apply negb_true_iff in Hc. rewrite Hc, (IH H). reflexivity.
Qed.

Lemma split_lines_last ln :
  forallb not_nl ln = true -> split_lines ln = [ln].
Proof.
  induction ln as [|c ln IH]; cbn [split_lines forallb]; intros H.
  - reflexivity.
  - apply andb_true_iff in H as [Hc H]. unfold not_nl in Hc.
    apply negb_true_iff in Hc. rewrite Hc, (IH H). reflexivity.
Qed.

(** A text is its first line and, after a line feed, the rest. *)
Lemma first_line l :
  exists ln, forallb not_nl ln = true /\
             (l = ln \/ exists l', l = ln ++ NL :: l').
Proof.
  exists (take_while not_nl l). split; [apply take_while_all|].
  pose proof (take_drop_while not_nl l) as Hs.
  pose proof (not_nl_run_eol l) as Hd.
  destruct (drop_while not_nl l) as [|c l'].
  - left. now rewrite app_nil_r in Hs.
  - right. subst c. now exists l'.
Qed.

Lemma find_dir_skip_line : forall x rest_ p,
  forallb not_nl x = true ->
  find_dir false (x ++ rest_) p = find_dir false rest_ (p + List.length x).
Proof.
  induction x as [|c x IH]; intros rest_ p H; cbn [app List.length].
  - now rewrite Nat.add_0_r.
  - cbn [forallb] in H. apply andb_true_iff in H as [Hc H].
    unfold not_nl in Hc. apply negb_true_iff in Hc.
    cbn [find_dir]. rewrite Hc, (IH rest_ (S p) H). f_equal. lia.
Qed.

Lemma find_dir_false_nil p : find_dir false [] p = None.
Proof. reflexivity. Qed.

Lemma find_dir_false_nl l p :
  find_dir false (NL :: l) p = find_dir true l (S p).
Proof. reflexivity. Qed.

(** With no match at its start, the scan of a line resumes at the next. *)
Lemma find_dir_next_line ln rest_ p :
  forallb not_nl ln = true -> dir_here (ln ++ rest_) = None ->
  find_dir true (ln ++ rest_) p = find_dir false rest_ (p + List.length ln).
Proof.
  intros H Hd. destruct ln as [|c ln].
  - cbn [app List.length] in *. rewrite Nat.add_0_r.
    destruct rest_ as [|d r]; cbn [find_dir]; now rewrite Hd.
  - cbn [app find_dir List.length] in *. rewrite Hd.
    apply andb_true_iff in H as [Hc H].
    unfold not_nl in Hc. apply negb_true_iff in Hc. rewrite Hc.
    rewrite (find_dir_skip_line ln rest_ (S p) H). f_equal. lia.
Qed.

(** The kinds found do not depend on the offset the count starts from. *)
Lemma find_dir_offset : forall l b p p',
  match find_dir b l p, find_dir b l p' with
  | Some (q, n, kw, r), Some (q', n', kw', r') =>
      n = n' /\ kw = kw' /\ r = r'
  | None, None => True
  | _, _ => False
  end.
Proof.
  induction l as [|c l IH]; intros b p p'; cbn [find_dir];
    destruct (if b then dir_here _ else None) as [[n kw]|]; auto.
  apply IH.
Qed.

Lemma dirs_offset : forall fuel l b p p',
  kinds (dirs fuel b l p) = kinds (dirs fuel b l p').
Proof.
  induction fuel as [|fuel IH]; intros l b p p'; [reflexivity|].
  cbn [dirs]. pose proof (find_dir_offset l b p p') as H.
  destruct (find_dir b l p) as [[[[q n] kw] r]|],
           (find_dir b l p') as [[[[q' n'] kw'] r']|]; try easy.
  destruct H as (-> & -> & ->). unfold kinds in *. cbn [map snd].
  f_equal. apply IH.
Qed.

Lemma dirs_find_eq fuel b l p b' l' p' :
  find_dir b l p = find_dir b' l' p' ->
  dirs fuel b l p = dirs fuel b' l' p'.
Proof. destruct fuel; [reflexivity|]. cbn [dirs]. now intros ->. Qed.

Lemma ends_line_head rest_ :
  ends_line rest_ ->
  match rest_ with [] => True | c :: _ => not_nl c = false end.
Proof. intros [-> | (l' & ->)]; [exact I | reflexivity]. Qed.

Lemma strip_prefix_in_line : forall t r rest_,
  forallb not_nl t = true -> ends_line rest_ ->
  strip_prefix t (r ++ rest_) =
  option_map (fun r2 => r2 ++ rest_) (strip_prefix t r).
Proof.
  induction t as [|c t IH]; intros r rest_ Ht He; [reflexivity|].
  cbn [forallb] in Ht. apply andb_true_iff in Ht as [Hc Ht].
  destruct r as [|d r]; cbn [app strip_prefix].
  - destruct He as [-> | (l' & ->)]; [reflexivity|].
    unfold not_nl in Hc. apply negb_true_iff in Hc.
    now rewrite Ascii.eqb_sym, Hc.
  - destruct (Ascii.eqb d c); [now apply IH | reflexivity].
Qed.

Lemma take_while_app_some p w x c r :
  drop_while p w = c :: r -> take_while p (w ++ x) = take_while p w.
Proof.
  induction w as [|d w IH]; cbn; [discriminate|].
  destruct (p d); [intros H; now rewrite IH | reflexivity].
Qed.

Lemma forallb_drop_while (p q : ascii -> bool) l :
  forallb q l = true -> forallb q (drop_while p l) = true.
Proof.
  induction l as [|c l IH]; cbn; [reflexivity|]. intros H.
  destruct (p c); [apply IH; now apply andb_true_iff in H | exact H].
Qed.

Lemma strip_prefix_forallb (q : ascii -> bool) t l l' :
  strip_prefix t l = Some l' -> forallb q l = true -> forallb q l' = true.
Proof.
  intros H Hq. apply strip_prefix_spec in H. subst l.
  rewrite forallb_app in Hq. now apply andb_true_iff in Hq.
Qed.

(** On a line with something other than white space on it, the pattern
    matches exactly when the line is a directive, and then to its end. *)
Lemma dir_here_line ln rest_ :
  forallb not_nl ln = true -> ends_line rest_ -> all_space ln = false ->
  dir_here (ln ++ rest_) =
  match classify_line ln with
  | Some k => Some (List.length ln, kw_of k)
  | None => None
  end.
Proof.
  intros Hln He Hs. unfold dir_here, classify_line.
  destruct (drop_while is_space ln) as [|c r] eqn:Ed.
  { apply drop_while_nil_all in Ed. unfold all_space in Hs. congruence. }
  rewrite (take_while_app_some _ _ rest_ _ _ Ed).
  rewrite (drop_while_app_some _ _ rest_ _ _ Ed). cbn [app].
  destruct (Ascii.eqb c "#") eqn:Ec; [|reflexivity].
  pose proof (forallb_drop_while is_space not_nl ln Hln) as Hr.
  rewrite Ed in Hr. cbn [forallb] in Hr. apply andb_true_iff in Hr as [_ Hr].
  pose proof (take_drop_while is_space ln) as Hsplit. rewrite Ed in Hsplit.
  rewrite !strip_prefix_in_line by (try exact He; reflexivity).
  destruct (strip_prefix (py "if") r) as [r2|] eqn:E1; cbn [option_map].
  - rewrite take_while_run;
      [| exact (strip_prefix_forallb not_nl _ _ _ E1 Hr)
       | now apply ends_line_head].
    apply strip_prefix_spec in E1. subst r. cbn [kw_of]. f_equal. f_equal.
    apply (f_equal (@List.length ascii)) in Hsplit.
    rewrite !length_app in Hsplit.
    cbn [List.length py list_ascii_of_string app] in Hsplit. lia.
  - destruct (strip_prefix (py "endif") r) as [r2|] eqn:E2; cbn [option_map];
      [|reflexivity].
    rewrite take_while_run;
      [| exact (strip_prefix_forallb not_nl _ _ _ E2 Hr)
       | now apply ends_line_head].
    apply strip_prefix_spec in E2. subst r. cbn [kw_of]. f_equal. f_equal.
    apply (f_equal (@List.length ascii)) in Hsplit.
    rewrite !length_app in Hsplit.
    cbn [List.length py list_ascii_of_string app] in Hsplit. lia.
Qed.

(** A line of white space is part of the match of the directive below
    it, if there is one. *)
Lemma dir_here_blank ln l' :
  all_space ln = true ->
  dir_here (ln ++ NL :: l') =
  match dir_here l' with
  | Some (n, kw) => Some (List.length ln + 1 + n, kw)
  | None => None
  end.
Proof.
  intros Hs. unfold dir_here.
  rewrite take_while_app, drop_while_app by exact Hs.
  cbn [take_while drop_while]. rewrite is_space_NL.
  destruct (drop_while is_space l') as [|c l1]; [reflexivity|].
  destruct (Ascii.eqb c "#"); [|reflexivity].
  destruct (strip_prefix (py "if") l1).
  - f_equal. f_equal. rewrite length_app. cbn [List.length]. lia.
  - destruct (strip_prefix (py "endif") l1); [|reflexivity].
    f_equal. f_equal. rewrite length_app. cbn [List.length]. lia.
Qed.

Lemma dir_here_all_space ln : all_space ln = true -> dir_here ln = None.
Proof.
  intros Hs. unfold dir_here.
  rewrite <- (app_nil_r ln), drop_while_app by exact Hs. reflexivity.
Qed.

Lemma classify_all_space ln : all_space ln = true -> classify_line ln = None.
Proof.
  intros Hs. unfold classify_line.
  rewrite <- (app_nil_r ln), drop_while_app by exact Hs. reflexivity.
Qed.

Lemma kind_kw_of k : kind_kw (kw_of k) = k.
Proof. now destruct k. Qed.

Lemma skipn_app_length {A} (a b : list A) k :
  skipn (List.length a + k) (a ++ b) = skipn k b.
Proof. induction a as [|x a IH]; [reflexivity | exact IH]. Qed.

Lemma firstn_app_length {A} (a b : list A) k :
  firstn (List.length a + k) (a ++ b) = a ++ firstn k b.
Proof. induction a as [|x a IH]; [reflexivity | cbn; now rewrite IH]. Qed.

(** The kinds of the matches are those of the directive lines, in order. *)
Lemma dirs_lines : forall n l fuel p,
  List.length l <= n -> List.length l < fuel ->
  kinds (dirs fuel true l p) = filter_map classify_line (split_lines l).
Proof.
  induction n as [|n IH]; intros l fuel p Hn Hf.
  { destruct l; [|cbn in Hn; lia]. destruct fuel; [lia|]. reflexivity. }
  destruct (first_line l) as (ln & Hln & [-> | (l' & ->)]).
  - (* the last line *)
    rewrite (split_lines_last ln Hln). cbn [filter_map].
    destruct fuel as [|fuel]; [lia|]. cbn [dirs].
    destruct (all_space ln) eqn:Es.
    + rewrite (classify_all_space ln Es).
      rewrite <- (app_nil_r ln) at 1.
      rewrite find_dir_next_line, find_dir_false_nil;
        [reflexivity | exact Hln | rewrite app_nil_r; now apply dir_here_all_space].
    + pose proof (dir_here_line ln [] Hln (or_introl eq_refl) Es) as Hd.
      rewrite app_nil_r in Hd.
      destruct (classify_line ln) as [k|].
      * destruct ln as [|c ln]; [discriminate|].
        cbn [find_dir]. rewrite Hd. unfold kinds. cbn [map snd].
        rewrite kind_kw_of, skipn_all. f_equal.
        destruct fuel; reflexivity.
      * rewrite <- (app_nil_r ln) at 1.
        rewrite find_dir_next_line, find_dir_false_nil;
          [reflexivity | exact Hln | now rewrite app_nil_r].
  - (* a line and more text *)
    rewrite (split_lines_line ln l' Hln). cbn [filter_map].
    rewrite length_app in Hn, Hf. cbn [List.length] in Hn, Hf.
    destruct (all_space ln) eqn:Es.
    + rewrite (classify_all_space ln Es).
      rewrite <- (IH l' fuel (p + List.length ln + 1)) by lia.
      pose proof (dir_here_blank ln l' Es) as Hd.
      destruct (dir_here l') as [[n' kw]|] eqn:Ed'.
      * destruct fuel as [|fuel]; [lia|]. cbn [dirs].
        assert (F1 : find_dir true (ln ++ NL :: l') p =
                     Some (p, List.length ln + 1 + n', kw,
                           skipn (List.length ln + 1 + n') (ln ++ NL :: l'))).
        { destruct ln; cbn [app find_dir]; cbn [app] in Hd; now rewrite Hd. }
        assert (F2 : find_dir true l' (p + List.length ln + 1) =
                     Some (p + List.length ln + 1, n', kw, skipn n' l')).
        { destruct l'; cbn [find_dir]; now rewrite Ed'. }
        rewrite F1, F2. unfold kinds. cbn [map snd]. f_equal.
        replace (skipn (List.length ln + 1 + n') (ln ++ NL :: l'))
          with (skipn n' l').
        2:{ rewrite <- Nat.add_assoc, skipn_app_length. reflexivity. }
        apply dirs_offset.
      * f_equal. apply dirs_find_eq.
        rewrite find_dir_next_line by (try exact Hln; exact Hd).
        rewrite find_dir_false_nl. f_equal. lia.
    + pose proof (dir_here_line ln (NL :: l') Hln
                    (or_intror (ex_intro _ l' eq_refl)) Es) as Hd.
      destruct (classify_line ln) as [k|].
      * destruct fuel as [|fuel]; [lia|]. cbn [dirs].
        assert (F1 : find_dir true (ln ++ NL :: l') p =
                     Some (p, List.length ln, kw_of k, NL :: l')).
        { destruct ln as [|c ln]; [discriminate|].
          cbn [app find_dir]. cbn [app] in Hd. rewrite Hd. f_equal. f_equal.
          change (c :: ln ++ NL :: l') with ((c :: ln) ++ NL :: l').
          now rewrite skipn_app, Nat.sub_diag, skipn_all. }
        rewrite F1. unfold kinds. cbn [map snd]. rewrite kind_kw_of. f_equal.
        destruct fuel as [|fuel]; [lia|].
        rewrite (dirs_find_eq (S fuel) false (NL :: l') (p + List.length ln)
                   true l' (S (p + List.length ln)))
          by apply find_dir_false_nl.
        apply (IH l' (S fuel)); lia.
      * rewrite <- (IH l' fuel (p + List.length ln + 1)) by lia.
        f_equal. apply dirs_find_eq.
        rewrite find_dir_next_line by (try exact Hln; exact Hd).
        rewrite find_dir_false_nl. f_equal. lia.
Qed.

(** ** C8 *)

Lemma map_kind_of ms ds :
  map obs ms = map obs_of ds ->
  (forall q n kw, In (q, n, kw) ds -> kw = py "if" \/ kw = py "endif") ->
  map kind_of ms = map Some (kinds ds).
Proof.
  revert ds. induction ms as [|m ms IH]; intros [|[[q n] kw] ds];
    try discriminate; [reflexivity|].
  cbn [map obs obs_of]. intros [= _ _ Hg Ht] Hkw. unfold kinds. cbn [map snd].
  f_equal.
  - unfold kind_of. rewrite Hg.
    destruct (Hkw q n kw (or_introl eq_refl)) as [-> | ->]; reflexivity.
  - apply IH; [exact Ht|]. intros; eapply Hkw; right; eauto.
Qed.

Lemma finditer_kinds text :
  map kind_of (finditer directive_pattern text) =
  map Some (filter_map classify_line (split_lines text)).
Proof.
  rewrite (map_kind_of _ (directives text));
    [| apply finditer_directives | apply dirs_kw].
  f_equal. unfold directives. apply (dirs_lines (List.length text)); lia.
Qed.

(** C8 (as stated) fails: a line that starts with [#if] but is no
    [#if], [#ifdef] or [#ifndef] changes the depth, though the pattern
    with the word boundary does not match it. *)
Lemma c8_prefix_is_enough :
  map kind_of (finditer directive_pattern c8_not_a_directive) = [Some KOpen] /\
  finditer spec_directive_pattern c8_not_a_directive = [].
Proof. vm_compute. split; reflexivity. Qed.

(** ** Where the directives are *)

Lemma line_start_false_0 l k : line_start false l k = true -> 0 < k.
Proof. destruct k; [discriminate | lia]. Qed.

Lemma nth_error_skipn {A} (l : list A) k j :
  nth_error (skipn k l) j = nth_error l (k + j).
Proof.
  revert l. induction k as [|k IH]; intros l; [reflexivity|].
  destruct l as [|a l]; [now destruct j | apply IH].
Qed.

Lemma line_start_skipn b l k j :
  0 < j -> line_start b (skipn k l) j = line_start b l (k + j).
Proof.
  destruct j as [|j]; [lia|]. intros _.
  rewrite Nat.add_succ_r. cbn [line_start]. now rewrite nth_error_skipn.
Qed.

Lemma dir_here_le l n kw : dir_here l = Some (n, kw) -> n <= List.length l.
Proof.
  unfold dir_here. pose proof (take_drop_while is_space l) as Hs.
  apply (f_equal (@List.length ascii)) in Hs. rewrite length_app in Hs.
  destruct (drop_while is_space l) as [|c l1]; [discriminate|].
  destruct (Ascii.eqb c "#"); [|discriminate]. cbn [List.length] in Hs.
  destruct (strip_prefix (py "if") l1) as [l2|] eqn:E1.
  - apply strip_prefix_spec in E1. subst l1. intros [= <- _].
    pose proof (take_drop_while not_nl l2) as H2.
    apply (f_equal (@List.length ascii)) in H2.
    rewrite !length_app in *. cbn [List.length py list_ascii_of_string] in *.
    lia.
  - destruct (strip_prefix (py "endif") l1) as [l2|] eqn:E2; [|discriminate].
    apply strip_prefix_spec in E2. subst l1. intros [= <- _].
    pose proof (take_drop_while not_nl l2) as H2.
    apply (f_equal (@List.length ascii)) in H2.
    rewrite !length_app in *. cbn [List.length py list_ascii_of_string] in *.
    lia.
Qed.

Lemma find_dir_some : forall l b p0 q n kw r,
  find_dir b l p0 = Some (q, n, kw, r) ->
  exists k, q = p0 + k /\ k + n <= List.length l /\ line_start b l k = true /\
            dir_here (skipn k l) = Some (n, kw) /\ r = skipn (k + n) l /\
            forall j, j < k -> line_start b l j = true ->
                      dir_here (skipn j l) = None.
Proof.
  induction l as [|c l IH]; intros b p0 q n kw r; cbn [find_dir];
    destruct (if b then dir_here _ else None) as [[n' kw']|] eqn:E.
  - intros [= <- <- <- <-]. exists 0. destruct b; [|discriminate].
    rewrite Nat.add_0_r. split; [reflexivity|].
    split; [now apply dir_here_le in E|]. repeat split; auto.
    intros j Hj. lia.
  - discriminate.
  - intros [= <- <- <- <-]. exists 0. destruct b; [|discriminate].
    rewrite Nat.add_0_r. split; [reflexivity|].
    split; [now apply dir_here_le in E|]. repeat split; auto.
    intros j Hj. lia.
  - intros H. destruct (IH _ _ _ _ _ _ H) as (k & -> & Hk & Hl & Hg & Hr & Hmin).
    exists (S k). rewrite line_start_S. split; [lia|]. split; [cbn; lia|].
    split; [exact Hl|]. split; [exact Hg|]. split; [exact Hr|].
    intros [|j] Hj.
    + cbn [line_start skipn]. intros ->. exact E.
    + rewrite line_start_S. cbn [skipn]. apply Hmin. lia.
Qed.

(** Each match found in [l]: where it is, and that the pattern matches
    there at the start of a line. *)
Lemma dirs_in : forall fuel l b p q n kw,
  In (q, n, kw) (dirs fuel b l p) ->
  exists k, q = p + k /\ k + n <= List.length l /\ line_start b l k = true /\
            dir_here (skipn k l) = Some (n, kw).
Proof.
  induction fuel as [|fuel IH]; intros l b p q n kw; cbn [dirs]; [easy|].
  destruct (find_dir b l p) as [[[[q' n'] kw'] r]|] eqn:E; [|easy].
  apply find_dir_some in E as (k & -> & Hk & Hl & Hd & -> & _).
  intros [[= <- <- <-]|H]; [now exists k|].
  apply IH in H as (k' & -> & Hk' & Hl' & Hd').
  rewrite length_skipn in Hk'.
  pose proof (line_start_false_0 _ _ Hl') as Hpos.
  exists (k + n' + k'). rewrite skipn_skipn in Hd'.
  split; [lia|]. split; [lia|]. split.
  - rewrite line_start_skipn in Hl' by exact Hpos.
    destruct k' as [|k']; [lia|]. rewrite Nat.add_succ_r in *.
    exact Hl'.
  - now rewrite (Nat.add_comm k') in Hd'.
Qed.

Lemma terminator_in : forall ds d s e,
  terminator d ds = Some (s, e) ->
  exists n kw, In (s, n, kw) ds /\ e = s + n /\ str_eqb kw (py "if") = false.
Proof.
  induction ds as [|[[q n] kw] ds IH]; intros d s e; cbn [terminator];
    [discriminate|].
  destruct (str_eqb kw (py "if")) eqn:Ek.
  - intros H. destruct (IH _ _ _ H) as (n' & kw' & Hin & He & Hk).
    exists n', kw'. auto using in_cons.
  - destruct d as [|[|d]].
    + intros [= <- <-]. exists n, kw. auto using in_eq.
    + intros [= <- <-]. exists n, kw. auto using in_eq.
    + intros H. destruct (IH _ _ _ H) as (n' & kw' & Hin & He & Hk).
      exists n', kw'. auto using in_cons.
Qed.

(** The span of a match of the directive pattern: white space, [#],
    the keyword, and the rest of the line. *)
Lemma dir_here_shape l n kw :
  dir_here l = Some (n, kw) ->
  exists w x tl,
    l = w ++ "#"%char :: kw ++ x ++ tl /\
    n = List.length (w ++ "#"%char :: kw ++ x) /\
    all_space w = true /\ forallb not_nl x = true /\ ends_line tl /\
    (kw = py "if" \/ kw = py "endif").
Proof.
  unfold dir_here. pose proof (take_drop_while is_space l) as Hs.
  pose proof (take_while_all is_space l) as Hw.
  destruct (drop_while is_space l) as [|c l1]; [discriminate|].
  destruct (Ascii.eqb c "#") eqn:Ec; [|discriminate].
  apply Ascii.eqb_eq in Ec. subst c.
  assert (Hline : forall l2, ends_line (drop_while not_nl l2)).
  { intros l2. pose proof (not_nl_run_eol l2) as H.
    destruct (drop_while not_nl l2) as [|c r]; [now left|].
    subst c. right. now eexists. }
  destruct (strip_prefix (py "if") l1) as [l2|] eqn:E1.
  - apply strip_prefix_spec in E1. subst l1. intros [= <- <-].
    exists (take_while is_space l), (take_while not_nl l2), (drop_while not_nl l2).
    repeat split; auto using take_while_all.
    + now rewrite take_drop_while.
    + rewrite !length_app. cbn [List.length]. rewrite length_app.
      cbn [List.length py list_ascii_of_string]. lia.
  - destruct (strip_prefix (py "endif") l1) as [l2|] eqn:E2; [|discriminate].
    apply strip_prefix_spec in E2. subst l1. intros [= <- <-].
    exists (take_while is_space l), (take_while not_nl l2), (drop_while not_nl l2).
    repeat split; auto using take_while_all.
    + now rewrite take_drop_while.
    + rewrite !length_app. cbn [List.length]. rewrite length_app.
      cbn [List.length py list_ascii_of_string]. lia.
Qed.

(** ** [rstrip] *)

Lemma lstrip_drop_while s : lstrip s = drop_while is_space s.
Proof.
  induction s as [|c s IH]; cbn; [reflexivity|].
  destruct (is_space c); [exact IH | reflexivity].
Qed.

Lemma all_space_rev w : all_space (rev w) = all_space w.
Proof.
  unfold all_space. induction w as [|c w IH]; [reflexivity|].
  cbn [rev forallb]. rewrite forallb_app, IH. cbn. 
  rewrite andb_true_r. apply andb_comm.
Qed.

Lemma rstrip_all_space a w : all_space w = true -> rstrip (a ++ w) = rstrip a.
Proof.
  intros H. unfold rstrip. rewrite rev_app_distr, !lstrip_drop_while.
  rewrite drop_while_app; [reflexivity|]. now rewrite <- all_space_rev in H.
Qed.

Lemma rstrip_last a c : is_space c = false -> rstrip (a ++ [c]) = a ++ [c].
Proof.
  intros H. unfold rstrip. rewrite rev_app_distr. cbn. rewrite H.
  cbn [rev]. now rewrite rev_involutive.
Qed.

(** A text is what [rstrip] keeps of it and the white space it drops. *)
Lemma rstrip_split s :
  exists ws, s = rstrip s ++ ws /\ all_space ws = true.
Proof.
  unfold rstrip. rewrite lstrip_drop_while.
  exists (rev (take_while is_space (rev s))). split.
  - rewrite <- rev_app_distr, take_drop_while. now rewrite rev_involutive.
  - rewrite all_space_rev. apply take_while_all.
Qed.

Lemma rstrip_keeps a b :
  all_space b = false -> rstrip (a ++ b) = a ++ rstrip b.
Proof.
  intros H. unfold rstrip. rewrite rev_app_distr, !lstrip_drop_while.
  rewrite <- all_space_rev in H.
  destruct (drop_while is_space (rev b)) as [|c r] eqn:E.
  - apply drop_while_nil_all in E. unfold all_space in H. congruence.
  - rewrite (drop_while_app_some _ _ (rev a) _ _ E).
    now rewrite rev_app_distr, rev_involutive.
Qed.

(** ** The parts of a rewritten text *)

Lemma guard_here_le l n name :
  guard_here l = Some (n, name) -> n <= List.length l.
Proof.
  intros H. apply guard_here_shape in H
    as (w0 & w1 & w2 & w3 & w4 & tl & -> & -> & _).
  rewrite !length_app. lia.
Qed.

Lemma guard_parts_split content pre ge s e :
  guard_parts content = Some (pre, ge, s, e) ->
  exists g body E suffix,
    parts content pre g body E suffix /\
    ge = List.length (pre ++ g) /\ s = List.length body /\
    e = List.length (body ++ E).
Proof.
  unfold guard_parts.
  destruct (locate content) as [[[p n] name]|] eqn:El; [|discriminate].
  destruct (terminator 1 (directives (skipn (p + n) content)))
    as [[s' e']|] eqn:Et; [|discriminate].
  intros [= <- <- <- <-]. pose proof El as El'.
  apply find_guard_some in El as (k & Hp & Hk & Hl & Hg & Hmin).
  cbn in Hp. subst k.
  pose proof (guard_here_le _ _ _ Hg) as Hn. rewrite length_skipn in Hn.
  pose proof Et as Et'.
  apply terminator_in in Et as (m & kw & Hin & -> & Hkw).
  apply dirs_in in Hin as (k & Hs & Hm & Hls & Hd). cbn in Hs. subst k.
  rewrite length_skipn in Hm.
  destruct (dir_here_shape _ _ _ Hd) as (w & x & tl & Hsh & Hlen & Hw & Hx & Htl & Hk2).
  destruct Hk2 as [-> | ->]; [discriminate|].
  set (post := skipn (p + n) content) in *.
  exists (firstn n (skipn p content)), (firstn s' post),
         (firstn m (skipn s' post)), (skipn m (skipn s' post)).
  assert (Lpre : List.length (firstn p content) = p)
    by (rewrite length_firstn; lia).
  assert (Lg : List.length (firstn n (skipn p content)) = n)
    by (rewrite length_firstn, length_skipn; lia).
  assert (Lb : List.length (firstn s' post) = s')
    by (unfold post; rewrite length_firstn, length_skipn; lia).
  assert (Le : List.length (firstn m (skipn s' post)) = m)
    by (unfold post; rewrite length_firstn, !length_skipn; lia).
  assert (Hpost : skipn n (skipn p content) = post)
    by (unfold post; now rewrite skipn_skipn, Nat.add_comm).
  assert (Hrest : firstn s' post ++ firstn m (skipn s' post)
                    ++ skipn m (skipn s' post) = post)
    by (now rewrite !firstn_skipn).
  assert (Hcont : skipn p content =
                  firstn n (skipn p content) ++ firstn s' post
                    ++ firstn m (skipn s' post) ++ skipn m (skipn s' post)).
  { rewrite Hrest, <- Hpost. now rewrite firstn_skipn. }
  split; [|rewrite !length_app; lia].
  constructor.
  - rewrite <- Hcont. now rewrite firstn_skipn.
  - now rewrite Lpre.
  - exists name. now rewrite Lpre, Lg.
  - rewrite Lpre. exact Hmin.
  - exists name. rewrite <- Hcont, Lg. exact Hg.
  - rewrite Hrest, Lb. exact Hls.
  - exists w, x. rewrite Hsh, Hlen. repeat split; auto.
    change (w ++ "#"%char :: py "endif" ++ x ++ tl)
      with (w ++ ("#"%char :: py "endif" ++ x) ++ tl).
    rewrite app_assoc. change ("#"%char :: py "endif" ++ x)
      with (py "#endif" ++ x).
    rewrite <- (Nat.add_0_r (List.length _)), firstn_app_length.
    cbn [firstn]. now rewrite app_nil_r.
  - rewrite firstn_skipn, Le. exact Hd.
  - assert (E : skipn m (skipn s' post) = tl); [|now rewrite E].
    rewrite Hsh, Hlen.
    change (w ++ "#"%char :: py "endif" ++ x ++ tl)
      with (w ++ ("#"%char :: py "endif" ++ x) ++ tl).
    rewrite app_assoc.
    rewrite <- (Nat.add_0_r (List.length _)), skipn_app_length. reflexivity.
  - rewrite Hrest, Lb, Le. exact Et'.
Qed.

Lemma rewritten_parts content out :
  rewritten content = Some out ->
  exists pre g body e suffix,
    parts content pre g body e suffix /\
    out = rstrip (pre ++ pragma_once ++ body ++ suffix) ++ [NL].
Proof.
  unfold rewritten.
  destruct (guard_parts content) as [[[[pre ge] s] e]|] eqn:E; [|discriminate].
  intros [= <-].
  destruct (guard_parts_split _ _ _ _ _ E)
    as (g & body & e' & suffix & P & -> & -> & ->).
  exists pre, g, body, e', suffix. split; [exact P|].
  pose proof (parts_eq _ _ _ _ _ _ P) as Hc.
  assert (H1 : skipn (List.length (pre ++ g)) content = body ++ e' ++ suffix).
  { rewrite Hc, app_assoc, <- (Nat.add_0_r (List.length _)).
    now rewrite skipn_app_length. }
  assert (H2 : skipn (List.length (pre ++ g) + List.length (body ++ e')) content
               = suffix).
  { rewrite Nat.add_comm, <- skipn_skipn, H1, app_assoc.
    rewrite <- (Nat.add_0_r (List.length _)). now rewrite skipn_app_length. }
  unfold rebuild. rewrite H1, H2.
  rewrite <- (Nat.add_0_r (List.length body)), firstn_app_length.
  cbn [firstn]. now rewrite app_nil_r.
Qed.

(** ** C9 *)

Lemma rstrip_nil s : all_space s = true -> rstrip s = [].
Proof.
  intros H. unfold rstrip. rewrite lstrip_drop_while.
  rewrite <- (app_nil_r (rev s)), drop_while_app; [reflexivity|].
  now rewrite <- all_space_rev in H.
Qed.

Lemma all_space_app a b : all_space (a ++ b) = all_space a && all_space b.
Proof. apply forallb_app. Qed.

(** C9 (as stated) fails: blank lines right above the [#ifndef], right
    below the [#define] and right above the [#endif] are taken into the
    matches, so that neither the bytes before the [#ifndef] line nor
    the bytes between the [#define] and [#endif] lines are found in the
    output. *)
Lemma c9_blank_lines_dropped :
  replace_header_guard c9_input = Return (Some c9_output) /\
  spec_prologue c9_input = Some (lines_nl ["a"; ""; ""]) /\
  is_infix (lines_nl ["a"; ""; ""]) c9_output = false /\
  spec_body c9_input = Some (lines_nl [""; ""; ""; "int b;"; ""; ""]) /\
  is_infix (lines_nl [""; ""; ""; "int b;"; ""; ""]) c9_output = false.
Proof. vm_compute. repeat split; reflexivity. Qed.

(** ** Guards under a change of the text around them *)

Lemma eol_ahead_cons c x :
  eol_ahead (c :: x) = is_space c && (Ascii.eqb NL c || eol_ahead x).
Proof.
  unfold eol_ahead. cbn [take_while drop_while].
  destruct (is_space c); [|reflexivity]. cbn [has_nl existsb andb].
  now rewrite orb_assoc.
Qed.

Lemma trail_eol : forall x, eol_ahead x = true <-> exists k, trail x = Some k.
Proof.
  induction x as [|c x IH].
  - split; [now exists 0 | reflexivity].
  - rewrite eol_ahead_cons. cbn [trail]. destruct (is_space c); cbn [andb].
    + rewrite orb_true_iff, IH, Ascii.eqb_sym. split.
      * intros [H | (k & ->)]; [|now eexists].
        rewrite H. destruct (trail x); now eexists.
      * destruct (trail x) as [m|]; [right; now exists m|].
        destruct (Ascii.eqb c NL); [now left | now intros (k & [=])].
    + split; [discriminate | now intros (k & [=])].
Qed.

Lemma guard_here_core l n name :
  guard_here l = Some (n, name) ->
  exists c x, l = c ++ x /\ is_core c name /\ eol_ahead x = true.
Proof.
  unfold guard_here, tail_ifndef, tail_name, tail_gap, tail_define, tail_ref.
  pose proof (take_drop_while is_space l) as S0.
  pose proof (take_while_all is_space l) as A0.
  set (w0 := take_while is_space l) in *.
  destruct (strip_prefix (py "#ifndef") (drop_while is_space l)) as [l1|] eqn:E1;
    [|discriminate].
  apply strip_prefix_spec in E1.
  pose proof (take_drop_while is_space l1) as S1.
  pose proof (take_while_all is_space l1) as A1.
  set (w1 := take_while is_space l1) in *.
  destruct (is_nil w1) eqn:N1; [discriminate|]. apply is_nil_false in N1.
  pose proof (take_drop_while is_word (drop_while is_space l1)) as S2.
  pose proof (take_while_all is_word (drop_while is_space l1)) as A2.
  set (nm := take_while is_word (drop_while is_space l1)) in *.
  destruct (is_nil nm) eqn:N2; [discriminate|]. apply is_nil_false in N2.
  set (l3 := drop_while is_word (drop_while is_space l1)) in *.
  pose proof (take_drop_while is_space l3) as S3.
  pose proof (take_while_all is_space l3) as A3.
  set (w2 := take_while is_space l3) in *.
  destruct (has_nl w2) eqn:H2; [|discriminate].
  destruct (strip_prefix (py "#define") (drop_while is_space l3)) as [l5|] eqn:E5;
    [|discriminate].
  apply strip_prefix_spec in E5.
  pose proof (take_drop_while is_space l5) as S5.
  pose proof (take_while_all is_space l5) as A5.
  set (w3 := take_while is_space l5) in *.
  destruct (is_nil w3) eqn:N3; [discriminate|]. apply is_nil_false in N3.
  destruct (strip_prefix nm (drop_while is_space l5)) as [l7|] eqn:E7;
    [|discriminate].
  apply strip_prefix_spec in E7.
  destruct (trail l7) as [k|] eqn:Et; [|discriminate].
  cbn [shift option_map]. intros [= _ <-].
  exists (w0 ++ py "#ifndef" ++ w1 ++ nm ++ w2 ++ py "#define" ++ w3 ++ nm), l7.
  split; [|split].
  - rewrite <- S0 at 1. rewrite <- !app_assoc. f_equal. rewrite E1. f_equal.
    rewrite <- S1 at 1. f_equal. rewrite <- S2 at 1. f_equal.
    rewrite <- S3 at 1. f_equal. rewrite E5. f_equal. rewrite <- S5 at 1.
    f_equal. exact E7.
  - exists w0, w1, w2, w3. repeat split; auto.
  - apply trail_eol. now exists k.
Qed.

Lemma core_guard c name x :
  is_core c name -> eol_ahead x = true ->
  exists n, guard_here (c ++ x) = Some (n, name).
Proof.
  intros (w0 & w1 & w2 & w3 & -> & A0 & A1 & N1 & An & Nn & A2 & H2 & A3 & N3) Hx.
  apply trail_eol in Hx as (k & Hk). eexists.
  rewrite <- !app_assoc. apply guard_here_build; eauto.
Qed.

Lemma hashes_ok_app_r a y : hashes_ok (a ++ y) = true -> hashes_ok y = true.
Proof.
  induction a as [|c a IH]; [trivial|]. cbn [app hashes_ok].
  intros H. apply andb_true_iff in H as [_ H]. exact (IH H).
Qed.

Lemma hashes_ok_no_hash w y :
  no_hash w = true -> hashes_ok (w ++ y) = hashes_ok y.
Proof.
  induction w as [|c w IH]; [reflexivity|]. cbn [no_hash forallb app hashes_ok].
  intros H. apply andb_true_iff in H as [Hc H]. apply negb_true_iff in Hc.
  rewrite Hc. cbn [andb]. exact (IH H).
Qed.

Lemma all_space_no_hash w : all_space w = true -> no_hash w = true.
Proof.
  unfold all_space, no_hash. rewrite !forallb_forall. intros H c Hc.
  specialize (H c Hc). apply negb_true_iff.
  destruct (Ascii.eqb c "#") eqn:E; [|reflexivity].
  apply Ascii.eqb_eq in E. subst c. discriminate H.
Qed.

Lemma all_word_no_hash w : all_word w = true -> no_hash w = true.
Proof.
  unfold all_word, no_hash. rewrite !forallb_forall. intros H c Hc.
  specialize (H c Hc). apply negb_true_iff.
  destruct (Ascii.eqb c "#") eqn:E; [|reflexivity].
  apply Ascii.eqb_eq in E. subst c. discriminate H.
Qed.

Lemma core_hashes_ok c name : is_core c name -> hashes_ok c = true.
Proof.
  intros (w0 & w1 & w2 & w3 & -> & A0 & A1 & N1 & An & Nn & A2 & H2 & A3 & N3).
  rewrite hashes_ok_no_hash by now apply all_space_no_hash.
  change (hashes_ok (py "#ifndef" ++ ?y)) with (hashes_ok (py "ifndef" ++ y)).
  rewrite (hashes_ok_no_hash (py "ifndef")) by reflexivity.
  rewrite hashes_ok_no_hash by now apply all_space_no_hash.
  rewrite hashes_ok_no_hash by now apply all_word_no_hash.
  rewrite hashes_ok_no_hash by now apply all_space_no_hash.
  change (hashes_ok (py "#define" ++ ?y)) with (hashes_ok (py "define" ++ y)).
  rewrite (hashes_ok_no_hash (py "define")) by reflexivity.
  rewrite hashes_ok_no_hash by now apply all_space_no_hash.
  rewrite <- (app_nil_r name).
  now rewrite hashes_ok_no_hash by now apply all_word_no_hash.
Qed.

Lemma core_last_word c name :
  is_core c name -> exists c' d, c = c' ++ [d] /\ is_word d = true.
Proof.
  intros (w0 & w1 & w2 & w3 & -> & A0 & A1 & N1 & An & Nn & A2 & H2 & A3 & N3).
  destruct (exists_last Nn) as (n' & d & Hn).
  exists (w0 ++ py "#ifndef" ++ w1 ++ name ++ w2 ++ py "#define" ++ w3 ++ n'), d.
  split.
  - rewrite Hn at 2. now rewrite <- !app_assoc.
  - rewrite Hn in An. unfold all_word in An. rewrite forallb_app in An.
    apply andb_true_iff in An as [_ An]. cbn in An.
    now rewrite andb_true_r in An.
Qed.

Lemma locate_none_iff t : locate t = None <-> forall q, ~ guard_at t q.
Proof.
  unfold locate. split.
  - intros H q [Hl Hg]. apply Hg. eapply find_guard_none; eauto.
  - intros H. destruct (find_guard true t 0) as [[[p n] name]|] eqn:E;
      [|reflexivity].
    apply find_guard_some in E as (k & _ & _ & Hl & Hg & _).
    elim (H k). split; [exact Hl | congruence].
Qed.

Lemma guard_at_core t q :
  guard_at t q ->
  exists c name x, skipn q t = c ++ x /\ is_core c name /\ eol_ahead x = true.
Proof.
  intros [_ Hg]. destruct (guard_here (skipn q t)) as [[n name]|] eqn:E;
    [|now elim Hg].
  apply guard_here_core in E as (c & x & H1 & H2 & H3). now exists c, name, x.
Qed.

Lemma core_guard_at t q c name x :
  line_start true t q = true -> skipn q t = c ++ x -> is_core c name ->
  eol_ahead x = true -> guard_at t q.
Proof.
  intros Hl Hs Hc Hx. split; [exact Hl|]. rewrite Hs.
  destruct (core_guard c name x Hc Hx) as (n & ->). discriminate.
Qed.

(** Two ways to cut the same text. *)
Lemma cut_cases (a b c x : str) :
  a ++ b = c ++ x ->
  (exists z, a = c ++ z /\ x = z ++ b) \/
  (exists y, y <> [] /\ c = a ++ y /\ b = y ++ x).
Proof.
  intros H. apply app_eq_app in H as (l & [[-> ->] | [-> ->]]).
  - left. now exists l.
  - destruct l as [|d l].
    + left. exists []. now rewrite !app_nil_r.
    + right. exists (d :: l). repeat split; auto. discriminate.
Qed.

Lemma ends_nl_app a z : ends_nl (a ++ z) -> z <> [] -> ends_nl z.
Proof.
  intros (a' & H) Hz. destruct (exists_last Hz) as (z' & d & ->).
  rewrite app_assoc in H. apply app_inj_tail in H as [_ ->]. now exists z'.
Qed.

Lemma eol_ahead_all_space z : all_space z = true -> eol_ahead z = true.
Proof.
  intros H. unfold eol_ahead.
  rewrite <- (app_nil_r z), drop_while_app by exact H. apply orb_true_r.
Qed.

(** After a piece [z] that ends a line, what follows does not matter. *)
Lemma eol_ahead_line z b : ends_nl z -> eol_ahead (z ++ b) = eol_ahead z.
Proof.
  intros (z' & ->).
  destruct (drop_while is_space (z' ++ [NL])) as [|d r] eqn:E.
  - apply drop_while_nil_all in E.
    rewrite (eol_ahead_all_space (z' ++ [NL]) E). unfold eol_ahead.
    rewrite (take_while_app is_space (z' ++ [NL]) b E).
    unfold has_nl. rewrite !existsb_app. cbn. now rewrite !orb_true_r.
  - unfold eol_ahead. rewrite (take_while_app_some _ _ b _ _ E).
    now rewrite (drop_while_app_some _ _ b _ _ E), E.
Qed.

(** When a piece [z] ends with something else than white space, white
    space after it can be replaced by any white space. *)
Lemma eol_ahead_tail z d w w' :
  is_space d = false -> all_space w' = true ->
  eol_ahead ((z ++ [d]) ++ w) = true -> eol_ahead ((z ++ [d]) ++ w') = true.
Proof.
  intros Hd Hw'. unfold eol_ahead.
  destruct (drop_while is_space (z ++ [d])) as [|e r] eqn:E.
  - apply drop_while_nil_all in E. rewrite forallb_app in E.
    apply andb_true_iff in E as [_ E]. cbn in E.
    rewrite andb_true_r in E. congruence.
  - rewrite !(take_while_app_some _ _ _ _ _ E).
    now rewrite !(drop_while_app_some _ _ _ _ _ E).
Qed.

Lemma core_not_ends_nl c name : is_core c name -> ~ ends_nl c.
Proof.
  intros Hc (a' & H). destruct (core_last_word c name Hc) as (c' & d & -> & Hd).
  apply app_inj_tail in H as [_ ->]. discriminate Hd.
Qed.

Lemma core_not_nil c name : is_core c name -> c <> [].
Proof.
  intros Hc ->. destruct (core_last_word [] name Hc) as (c' & d & H & _).
  now destruct c'.
Qed.

(** A core that lies inside a text ending a line is followed by the
    same end of line whatever comes after that text. *)
Lemma core_inside a c name z b b' :
  is_core c name -> a = c ++ z -> ends_nl a ->
  eol_ahead (z ++ b) = true -> eol_ahead (z ++ b') = true.
Proof.
  intros Hc Ha Hn Hz. assert (Hzn : z <> []).
  { intros ->. rewrite app_nil_r in Ha. subst a.
    now apply (core_not_ends_nl c name). }
  subst a. pose proof (ends_nl_app _ _ Hn Hzn) as Hzl.
  rewrite eol_ahead_line in * by exact Hzl. exact Hz.
Qed.

(** A core cannot run into the marker. *)
Lemma core_stops_at_pragma c name a y x Y :
  is_core c name -> c = a ++ y -> y <> [] ->
  "#"%char :: "p"%char :: Y = y ++ x -> False.
Proof.
  intros Hc Hy Hne Hm.
  pose proof (core_hashes_ok c name Hc) as Hh. rewrite Hy in Hh.
  apply hashes_ok_app_r in Hh.
  destruct (core_last_word c name Hc) as (c' & d & Hl & Hd).
  destruct y as [|y0 [|y1 y]]; [now elim Hne | |].
  - injection Hm as <- _. rewrite Hy in Hl.
    apply app_inj_tail in Hl as [_ <-]. discriminate Hd.
  - injection Hm as <- <- _. discriminate Hh.
Qed.

Lemma core_stops_at_marker c name a y x Y :
  is_core c name -> c = a ++ y -> y <> [] ->
  NL :: "#"%char :: "p"%char :: Y = y ++ x -> False.
Proof.
  intros Hc Hy Hne Hm. destruct y as [|y0 y]; [now elim Hne|].
  injection Hm as <- Hm. destruct y as [|y1 y].
  - apply (core_not_ends_nl c name Hc). now exists a.
  - apply (core_stops_at_pragma c name (a ++ [NL]) (y1 :: y) x Y Hc);
      [now rewrite <- app_assoc | discriminate | exact Hm].
Qed.

(** White space before a guard is part of it. *)
Lemma guard_here_ws w l :
  all_space w = true ->
  guard_here (w ++ l) = match guard_here l with
                        | Some (n, name) => Some (List.length w + n, name)
                        | None => None
                        end.
Proof.
  intros H. unfold guard_here.
  rewrite take_while_app, drop_while_app by exact H.
  destruct (tail_ifndef (drop_while is_space l)) as [[n name]|]; [|reflexivity].
  rewrite length_app. f_equal. f_equal. lia.
Qed.

Lemma line_start_app_l b a y q :
  q <= List.length a -> 0 < List.length a ->
  line_start b (a ++ y) q = line_start b a q.
Proof.
  intros Hq Ha. destruct q as [|j]; [reflexivity|]. cbn [line_start].
  rewrite nth_error_app1 by lia. reflexivity.
Qed.

Lemma line_start_app_r a y j :
  0 < j -> line_start true (a ++ y) (List.length a + j) = line_start true y j.
Proof.
  destruct j as [|j]; [lia|]. intros _. rewrite Nat.add_succ_r.
  cbn [line_start]. rewrite nth_error_app2 by lia.
  now replace (List.length a + j - List.length a) with j by lia.
Qed.

Lemma line_start_end a :
  line_start true (a ++ []) (List.length a) = true -> a = [] \/ ends_nl a.
Proof.
  rewrite app_nil_r. destruct a as [|c a] using rev_ind; [now left|].
  rewrite length_app. cbn [List.length]. rewrite Nat.add_1_r.
  cbn [line_start]. rewrite nth_error_app2 by lia. rewrite Nat.sub_diag.
  cbn. intros H. apply Ascii.eqb_eq in H. subst. right. now exists a.
Qed.

Lemma line_start_cut a y :
  line_start true (a ++ y) (List.length a) = true -> a = [] \/ ends_nl a.
Proof.
  intros H. apply line_start_end. rewrite app_nil_r.
  destruct a as [|c a]; [reflexivity|].
  rewrite <- (line_start_app_l true (c :: a) y); [exact H | lia | cbn; lia].
Qed.

(** A guard at or after a cut is a guard of the second part. *)
Lemma guard_at_right a y q :
  List.length a <= q -> guard_at (a ++ y) q ->
  guard_at y (q - List.length a).
Proof.
  intros Hq [Hl Hg]. split.
  - destruct (q - List.length a) as [|j] eqn:E; [reflexivity|].
    replace q with (List.length a + S j) in Hl by lia.
    now rewrite line_start_app_r in Hl by lia.
  - replace q with (List.length a + (q - List.length a)) in Hg by lia.
    now rewrite skipn_app_length in Hg.
Qed.

Lemma guard_at_shift a y j :
  0 < j -> guard_at y j -> guard_at (a ++ y) (List.length a + j).
Proof.
  intros Hj [Hl Hg]. split.
  - now rewrite line_start_app_r.
  - now rewrite skipn_app_length.
Qed.

Lemma guard_at_shift0 a y :
  a = [] \/ ends_nl a -> guard_at y 0 -> guard_at (a ++ y) (List.length a).
Proof.
  intros Ha [_ Hg]. split.
  - destruct Ha as [-> | (a' & ->)]; [reflexivity|].
    rewrite length_app. cbn [List.length]. rewrite Nat.add_1_r.
    cbn [line_start]. rewrite <- app_assoc, nth_error_app2 by lia.
    rewrite Nat.sub_diag. reflexivity.
  - rewrite <- (Nat.add_0_r (List.length a)). now rewrite skipn_app_length.
Qed.

(** A guard that starts at a line feed starts on the next line too. *)
Lemma guard_at_nl y : guard_at (NL :: y) 0 -> guard_at (NL :: y) 1.
Proof.
  intros [_ Hg]. split; [reflexivity|]. cbn [skipn] in *.
  change (NL :: y) with ([NL] ++ y) in Hg.
  rewrite guard_here_ws in Hg by reflexivity.
  destruct (guard_here y) as [[n name]|]; [discriminate | now elim Hg].
Qed.

Lemma rstrip_shape X :
  rstrip X = [] \/ exists K d, rstrip X = K ++ [d] /\ is_space d = false.
Proof.
  unfold rstrip. rewrite lstrip_drop_while.
  destruct (drop_while is_space (rev X)) as [|d r] eqn:E; [now left|].
  right. exists (rev r), d. split; [reflexivity|].
  now apply drop_while_head in E.
Qed.

Lemma no_guard_nil j : ~ guard_at [] j.
Proof. intros [_ H]. rewrite skipn_nil in H. now apply H. Qed.

Lemma no_guard_nl j : ~ guard_at [NL] j.
Proof.
  intros [_ H]. destruct j as [|j]; cbn [skipn] in H.
  - now apply H.
  - rewrite skipn_nil in H. now apply H.
Qed.

Lemma ends_nl_skipn a q : ends_nl a -> q < List.length a -> ends_nl (skipn q a).
Proof.
  intros (a' & ->) Hq. rewrite length_app in Hq. cbn in Hq.
  rewrite skipn_app. replace (q - List.length a') with 0 by lia.
  now exists (skipn q a').
Qed.

Lemma skipn_app_lt {A} (a b : list A) q :
  q <= List.length a -> skipn q (a ++ b) = skipn q a ++ b.
Proof.
  intros H. rewrite skipn_app. now replace (q - List.length a) with 0 by lia.
Qed.

(** What [rstrip] and the final line feed do to the end of a text
    brings no guard. *)
Lemma guard_at_rstrip X q : guard_at (rstrip X ++ [NL]) q -> guard_at X q.
Proof.
  destruct (rstrip_split X) as (ws & HX & Hws).
  destruct (rstrip_shape X) as [HK | (K & d & HK & Hd)].
  { rewrite HK. intros H. now apply no_guard_nl in H. }
  set (R := rstrip X) in *. intros H.
  destruct (Nat.lt_ge_cases q (List.length R)) as [Hq | Hq].
  2:{ apply guard_at_right in H; [|exact Hq]. now apply no_guard_nl in H. }
  destruct (guard_at_core _ _ H) as (c & name & x & Hs & Hc & Hx).
  destruct H as [Hl _].
  rewrite skipn_app_lt in Hs by lia.
  assert (Hls : line_start true X q = true).
  { rewrite HX. rewrite line_start_app_l in Hl |- * by lia. exact Hl. }
  assert (Ha : exists a', skipn q R = a' ++ [d]).
  { rewrite HK in Hq |- *. rewrite length_app in Hq. cbn in Hq.
    rewrite skipn_app. replace (q - List.length K) with 0 by lia.
    now exists (skipn q K). }
  destruct Ha as (a' & Ha).
  destruct (cut_cases _ _ _ _ Hs) as [(z & Hz & Hxz) | (y & Hy & Hcy & Hm)].
  - apply (core_guard_at X q c name (z ++ ws)); [exact Hls | | exact Hc |].
    + rewrite HX, skipn_app_lt by lia. rewrite Hz. now rewrite <- app_assoc.
    + destruct z as [|z0 z] using rev_ind.
      * now apply eol_ahead_all_space.
      * rewrite Ha, app_assoc in Hz. apply app_inj_tail in Hz as [_ <-].
        rewrite Hxz in Hx. now apply (eol_ahead_tail z d [NL] ws).
  - exfalso. destruct y as [|y0 [|y1 y]]; [now elim Hy | |discriminate Hm].
    injection Hm as <- _. apply (core_not_ends_nl c name Hc).
    now exists (skipn q R).
Qed.

Lemma pragma_once_eq :
  pragma_once = NL :: "#"%char :: "p"%char :: py "ragma once" ++ [NL; NL].
Proof. reflexivity. Qed.

(** A guard found in the marker and what follows it is a guard of what
    follows it. *)
Lemma guard_at_marker B q :
  guard_at (pragma_once ++ B) q -> exists j, guard_at B j.
Proof.
  intros H. destruct (Nat.lt_ge_cases q 15) as [Hq | Hq].
  2:{ exists (q - 15). now apply (guard_at_right pragma_once B q Hq). }
  destruct (guard_at_core _ _ H) as (c & name & x & Hs & Hc & Hx).
  destruct H as [Hl Hg].
  destruct q as [|q].
  { exfalso. cbn [skipn] in Hs.
    apply (core_stops_at_marker c name [] c x (py "ragma once" ++ [NL; NL] ++ B) Hc);
      [reflexivity | now apply (core_not_nil c name) | exact Hs]. }
  destruct q as [|q].
  { exfalso. cbn [skipn] in Hs.
    apply (core_stops_at_pragma c name [] c x (py "ragma once" ++ [NL; NL] ++ B) Hc);
      [reflexivity | now apply (core_not_nil c name) | exact Hs]. }
  do 12 (destruct q as [|q]; [discriminate Hl|]).
  destruct q as [|q]; [|lia].
  exists 0. split; [reflexivity|]. 
  change (skipn 14 (pragma_once ++ B)) with ([NL] ++ B) in Hg.
  rewrite guard_here_ws in Hg by reflexivity. cbn [skipn].
  destruct (guard_here B) as [[n nm]|]; [discriminate | exact Hg].
Qed.

(** A guard found before the marker was there before the rewrite. *)
Lemma guard_at_pre pre B Y q :
  ends_nl pre -> q < List.length pre ->
  guard_at (pre ++ pragma_once ++ B) q -> guard_at (pre ++ Y) q.
Proof.
  intros Hn Hq H.
  destruct (guard_at_core _ _ H) as (c & name & x & Hs & Hc & Hx).
  destruct H as [Hl _].
  rewrite skipn_app_lt in Hs by lia.
  destruct (cut_cases _ _ _ _ Hs) as [(z & Hz & Hxz) | (y & Hy & Hcy & Hm)].
  - apply (core_guard_at (pre ++ Y) q c name (z ++ Y)); [| | exact Hc |].
    + rewrite line_start_app_l in Hl |- * by lia. exact Hl.
    + rewrite skipn_app_lt by lia. rewrite Hz. now rewrite <- app_assoc.
    + apply (core_inside (skipn q pre) c name z (pragma_once ++ B) Y Hc Hz);
        [now apply ends_nl_skipn | now rewrite <- Hxz].
  - exfalso. rewrite pragma_once_eq in Hm. cbn [app] in Hm.
    exact (core_stops_at_marker c name _ y x _ Hc Hcy Hy Hm).
Qed.

(** ** Every directive line is visited *)

Lemma find_dir_none : forall l b p0,
  find_dir b l p0 = None ->
  forall j, line_start b l j = true -> dir_here (skipn j l) = None.
Proof.
  induction l as [|c l IH]; intros b p0; cbn [find_dir];
    destruct (if b then dir_here _ else None) as [[n' kw']|] eqn:E;
    try discriminate.
  - intros _ [|j]; cbn [line_start]; [now intros -> |].
    now destruct j.
  - intros H [|j].
    + cbn [line_start skipn]. now intros ->.
    + rewrite line_start_S. cbn [skipn]. eapply IH; eauto.
Qed.

Lemma dir_here_ws w l :
  all_space w = true ->
  dir_here (w ++ l) = match dir_here l with
                      | Some (n, kw) => Some (List.length w + n, kw)
                      | None => None
                      end.
Proof.
  intros Hs. unfold dir_here.
  rewrite take_while_app, drop_while_app by exact Hs.
  destruct (drop_while is_space l) as [|c l1]; [reflexivity|].
  destruct (Ascii.eqb c "#"); [|reflexivity].
  destruct (strip_prefix (py "if") l1).
  - f_equal. f_equal. rewrite length_app. lia.
  - destruct (strip_prefix (py "endif") l1); [|reflexivity].
    f_equal. f_equal. rewrite length_app. lia.
Qed.

Lemma dirs_ordered : forall fuel l b p, ordered p (dirs fuel b l p).
Proof.
  induction fuel as [|fuel IH]; intros l b p; cbn [dirs]; [exact I|].
  destruct (find_dir b l p) as [[[[q n] kw] r]|] eqn:E; [|exact I].
  apply find_dir_some in E as (k & -> & _ & _ & Hd & _ & _).
  cbn [ordered]. split; [lia|]. split; [now apply dir_here_pos in Hd|].
  apply IH.
Qed.

Lemma ordered_in : forall ds lo q n kw,
  ordered lo ds -> In (q, n, kw) ds -> lo <= q.
Proof.
  induction ds as [|[[q0 n0] kw0] ds IH]; intros lo q n kw; [easy|].
  cbn [ordered]. intros (H1 & H2 & H3) [[= <- <- <-]|Hin]; [exact H1|].
  specialize (IH _ _ _ _ H3 Hin). lia.
Qed.

Lemma terminator_start ds lo d s e :
  ordered lo ds -> terminator d ds = Some (s, e) -> lo <= s.
Proof.
  intros Ho Ht. apply terminator_in in Ht as (n & kw & Hin & _ & _).
  eapply ordered_in; eauto.
Qed.

(** From depth two on, an [endif] comes before the one that stops the loop. *)
Lemma terminator_close_before : forall ds lo d s e,
  ordered lo ds -> 2 <= d -> terminator d ds = Some (s, e) ->
  exists q n kw, In (q, n, kw) ds /\ str_eqb kw (py "if") = false /\
                 lo <= q /\ q + n <= s.
Proof.
  induction ds as [|[[q0 n0] kw0] ds IH]; intros lo d s e; [discriminate|].
  cbn [ordered terminator]. intros (H1 & H2 & H3) Hd.
  destruct (str_eqb kw0 (py "if")) eqn:Ek.
  - intros Ht. destruct (IH _ (S d) _ _ H3 ltac:(lia) Ht)
      as (q & n & kw & Hin & Hk & Hlo & Hs).
    exists q, n, kw. repeat split; auto using in_cons. lia.
  - destruct d as [|[|d]]; [lia | lia |]. intros Ht.
    exists q0, n0, kw0. repeat split; auto using in_eq.
    eapply terminator_start; eauto.
Qed.

(** After an opening directive, an [endif] comes before the one that
    stops the loop. *)
Lemma terminator_after_open : forall ds lo d s e,
  ordered lo ds -> 1 <= d -> terminator d ds = Some (s, e) ->
  forall q n, In (q, n, py "if") ds -> q < s ->
  exists q' n' kw', In (q', n', kw') ds /\ str_eqb kw' (py "if") = false /\
                    q + n <= q' /\ q' + n' <= s.
Proof.
  induction ds as [|[[q0 n0] kw0] ds IH]; intros lo d s e; [discriminate|].
  cbn [ordered terminator]. intros (H1 & H2 & H3) Hd.
  destruct (str_eqb kw0 (py "if")) eqn:Ek.
  - intros Ht q n [[= <- <- _]|Hin] Hq.
    + destruct (terminator_close_before _ _ (S d) _ _ H3 ltac:(lia) Ht)
        as (q' & n' & kw' & Hin & Hk & Hlo & Hs).
      exists q', n', kw'. auto using in_cons.
    + destruct (IH _ (S d) _ _ H3 ltac:(lia) Ht q n Hin Hq)
        as (q' & n' & kw' & Hin' & Hk & Hlo & Hs).
      exists q', n', kw'. auto using in_cons.
  - assert (Hhead : forall q n, (q0, n0, kw0) = (q, n, py "if") -> False).
    { intros q n [= _ _ ->]. discriminate Ek. }
    destruct d as [|[|d]]; [lia | |].
    + intros [= <- <-] q n [Heq|Hin] Hq; [now elim (Hhead q n)|].
      pose proof (ordered_in _ _ _ _ _ H3 Hin). lia.
    + intros Ht q n [Heq|Hin] Hq; [now elim (Hhead q n)|].
      destruct (IH _ (S d) _ _ H3 ltac:(lia) Ht q n Hin Hq)
        as (q' & n' & kw' & Hin' & Hk & Hlo & Hs).
      exists q', n', kw'. auto using in_cons.
Qed.

Lemma line_start_pos b l k :
  0 < k -> line_start b l k = true -> nth_error l (k - 1) = Some NL.
Proof.
  destruct k as [|j]; [lia|]. intros _. cbn [line_start].
  replace (S j - 1) with j by lia.
  destruct (nth_error l j) as [c|]; [|discriminate].
  intros H. apply Ascii.eqb_eq in H. now subst.
Qed.

Lemma nth_error_forallb (p : ascii -> bool) l i c :
  forallb p l = true -> nth_error l i = Some c -> p c = true.
Proof.
  intros H Hn. rewrite forallb_forall in H. apply H.
  eapply nth_error_In; eauto.
Qed.

(** No line starts inside a match after its leading white space, nor
    right at its end. *)
Lemma match_no_line_start l n kw j :
  dir_here l = Some (n, kw) ->
  List.length (take_while is_space l) <= j -> j < n ->
  nth_error l j <> Some NL.
Proof.
  intros Hd Hj Hn Hnl.
  destruct (dir_here_shape _ _ _ Hd) as (w & x & tl & Hl & Hlen & Hw & Hx & _ & Hk).
  assert (Htw : take_while is_space l = w).
  { rewrite Hl. now apply take_while_run. }
  rewrite Htw in Hj.
  assert (Hnn : forallb not_nl ("#"%char :: kw ++ x) = true).
  { cbn [forallb]. rewrite forallb_app, Hx.
    destruct Hk as [-> | ->]; reflexivity. }
  rewrite Hl in Hnl.
  replace (w ++ "#"%char :: kw ++ x ++ tl)
    with (w ++ ("#"%char :: kw ++ x) ++ tl) in Hnl
    by (cbn [app]; now rewrite <- app_assoc).
  rewrite nth_error_app2 in Hnl by exact Hj.
  rewrite length_app in Hlen.
  rewrite nth_error_app1 in Hnl by lia.
  now pose proof (nth_error_forallb _ _ _ _ Hnn Hnl).
Qed.

Lemma firstn_take_while_all p l m :
  m <= List.length (take_while p l) -> forallb p (firstn m l) = true.
Proof.
  revert m. induction l as [|c l IH]; intros m Hm.
  - now rewrite firstn_nil.
  - destruct m as [|m]; [reflexivity|]. cbn [take_while] in Hm.
    destruct (p c) eqn:E; [|cbn in Hm; lia].
    cbn [firstn forallb]. rewrite E. apply IH. cbn in Hm. lia.
Qed.

(** A directive at the start of a line is covered by a match, which
    ends where the pattern tried on that line ends. *)
Lemma dirs_covers : forall fuel l b p k n kw,
  List.length l < fuel -> line_start b l k = true ->
  dir_here (skipn k l) = Some (n, kw) ->
  exists q' n', In (q', n', kw) (dirs fuel b l p) /\
                q' <= p + k /\ q' + n' = p + k + n.
Proof.
  induction fuel as [|fuel IH]; intros l b p k n kw Hf Hl Hd; [lia|].
  cbn [dirs].
  destruct (find_dir b l p) as [[[[q1 n1] kw1] r1]|] eqn:E.
  2:{ rewrite (find_dir_none _ _ _ E k Hl) in Hd. discriminate. }
  apply find_dir_some in E as (k1 & -> & Hk1 & Hl1 & Hd1 & -> & Hmin).
  assert (Hle : k1 <= k).
  { destruct (Nat.le_gt_cases k1 k) as [H|H]; [exact H|].
    rewrite (Hmin k H Hl) in Hd. discriminate. }
  set (tw := List.length (take_while is_space (skipn k1 l))).
  assert (Hcase : k - k1 <= tw \/ k1 + n1 < k).
  { destruct (Nat.le_gt_cases (k - k1) tw) as [H|H]; [now left|].
    destruct (Nat.lt_ge_cases (k1 + n1) k) as [H'|H']; [now right|].
    exfalso. apply (match_no_line_start _ _ _ (k - 1 - k1) Hd1);
      [fold tw; lia | lia |].
    rewrite nth_error_skipn. replace (k1 + (k - 1 - k1)) with (k - 1) by lia.
    apply (line_start_pos b); [lia | exact Hl]. }
  destruct Hcase as [Hin | Hout].
  - assert (Hsp : all_space (firstn (k - k1) (skipn k1 l)) = true)
      by (now apply firstn_take_while_all).
    assert (Hsk : skipn k1 l = firstn (k - k1) (skipn k1 l) ++ skipn k l).
    { rewrite <- (firstn_skipn (k - k1) (skipn k1 l)) at 1. f_equal.
      rewrite skipn_skipn. f_equal. lia. }
    rewrite Hsk, (dir_here_ws _ _ Hsp), Hd in Hd1. injection Hd1 as <- <-.
    exists (p + k1), (List.length (firstn (k - k1) (skipn k1 l)) + n).
    split; [now left|]. split; [lia|].
    rewrite length_firstn, length_skipn.
    pose proof (dir_here_le _ _ _ Hd) as Hn. rewrite length_skipn in Hn.
    apply dir_here_pos in Hd. lia.
  - assert (Hpos : 0 < n1) by (now apply dir_here_pos in Hd1).
    destruct (IH (skipn (k1 + n1) l) false (p + k1 + n1) (k - (k1 + n1)) n kw)
      as (q' & n' & Hin & Hq & He).
    + rewrite length_skipn. lia.
    + rewrite line_start_skipn by lia.
      replace (k1 + n1 + (k - (k1 + n1))) with k by lia.
      destruct k as [|j]; [lia | exact Hl].
    + rewrite skipn_skipn.
      now replace (k - (k1 + n1) + (k1 + n1)) with k by lia.
    + exists q', n'. split; [now right|]. lia.
Qed.

Lemma hashes_ok_nth : forall c i,
  hashes_ok c = true -> nth_error c i = Some "#"%char ->
  nth_error c (S i) <> Some "e"%char.
Proof.
  induction c as [|d c IH]; intros i H Hn; [now destruct i|].
  cbn [hashes_ok] in H. apply andb_prop in H as [H1 H2].
  destruct i as [|i].
  - cbn [nth_error] in Hn. injection Hn as ->. cbn [nth_error].
    change (Ascii.eqb "#" "#") with true in H1.
    destruct c as [|d' c]; [discriminate|]. cbn [nth_error].
    intros [= ->]. discriminate H1.
  - cbn [nth_error] in Hn |- *. now apply IH.
Qed.

(** An opening directive before the terminator has its own [#endif]
    before the terminator. *)
Lemma no_open_before_terminator post s e0 q n :
  terminator 1 (directives post) = Some (s, e0) ->
  line_start true post q = true -> q < s ->
  dir_here (skipn q post) = Some (n, py "if") ->
  (forall i, q <= i -> S i < s -> nth_error post i = Some "#"%char ->
             nth_error post (S i) <> Some "e"%char) ->
  False.
Proof.
  unfold directives. intros Ht Hl Hq Hd Hno.
  destruct (dirs_covers (S (List.length post)) post true 0 q n (py "if")
              ltac:(lia) Hl Hd) as (q' & n' & Hin & Hq' & He').
  destruct (terminator_after_open _ 0 1 s e0 (dirs_ordered _ _ _ _)
              ltac:(lia) Ht q' n' Hin ltac:(lia))
    as (q2 & n2 & kw2 & Hin2 & Hk2 & Hge & Hle).
  destruct (dirs_kw _ _ _ _ _ _ _ Hin2) as [-> | ->]; [discriminate Hk2|].
  destruct (dirs_in _ _ _ _ _ _ _ Hin2) as (k2 & -> & _ & _ & Hd2).
  destruct (dir_here_shape _ _ _ Hd2)
    as (w & x & tl & Hsk & Hn2 & _ & _ & _ & _).
  rewrite length_app in Hn2. cbn [List.length] in Hn2.
  rewrite length_app in Hn2.
  change (List.length (py "endif")) with 5 in Hn2.
  apply (Hno (k2 + List.length w)); [lia | lia | |].
  - rewrite <- nth_error_skipn, Hsk, nth_error_app2 by lia.
    now rewrite Nat.sub_diag.
  - replace (S (k2 + List.length w)) with (k2 + S (List.length w)) by lia.
    rewrite <- nth_error_skipn, Hsk, nth_error_app2 by lia.
    now replace (S (List.length w) - List.length w) with 1 by lia.
Qed.

Lemma dir_here_if L :
  dir_here ("#"%char :: "i"%char :: "f"%char :: L)
  = Some (0 + 1 + 2 + List.length (take_while not_nl L), py "if").
Proof. reflexivity. Qed.

Lemma take_drop_false p (a : str) :
  forallb p a = false ->
  exists d a1, drop_while p a = d :: a1 /\ p d = false.
Proof.
  induction a as [|c a IH]; [discriminate|]. cbn [forallb drop_while].
  destruct (p c) eqn:E; [exact IH|]. intros _. now exists c, a.
Qed.

Lemma no_nl_ifndef : ~ In NL ("#"%char :: py "ifndef").
Proof. cbn. intuition discriminate. Qed.

(** A prefix of a guard's fixed part that ends a line and is not white
    space only starts, after white space, with [#ifndef]. *)
Lemma core_prefix_open c name a y Z :
  is_core c name -> c = a ++ y -> ends_nl a -> all_space a = false ->
  exists n, dir_here (a ++ Z) = Some (n, py "if").
Proof.
  intros (w0 & w1 & w2 & w3 & Hc & A0 & _) Hcy Hnl Hsp.
  destruct (take_drop_false _ _ Hsp) as (d & a1 & Hdrop & Hd).
  pose proof (take_drop_while is_space a) as Ha.
  pose proof (take_while_all is_space a) as Hw. rewrite Hdrop in Ha.
  set (wa := take_while is_space a) in *.
  assert (E : drop_while is_space c = d :: a1 ++ y).
  { rewrite Hcy, <- Ha, <- app_assoc. cbn [app].
    rewrite drop_while_app by exact Hw. cbn [drop_while]. now rewrite Hd. }
  rewrite Hc in E. rewrite drop_while_app in E by exact A0.
  change (drop_while is_space (py "#ifndef" ++ w1 ++ name ++ w2 ++ py "#define" ++ w3 ++ name))
    with ("#"%char :: py "ifndef" ++ w1 ++ name ++ w2 ++ py "#define" ++ w3 ++ name) in E.
  injection E as <- E.
  assert (Hnl1 : ends_nl ("#"%char :: a1)).
  { apply (ends_nl_app wa); [now rewrite Ha | discriminate]. }
  symmetry in E.
  apply (cut_cases a1 y (py "ifndef")
           (w1 ++ name ++ w2 ++ py "#define" ++ w3 ++ name)) in E
    as [(z & -> & _) | (y' & _ & Hy & _)].
  - exists (List.length wa + (0 + 1 + 2 + List.length
              (take_while not_nl (py "ndef" ++ z ++ Z)))).
    rewrite <- Ha, <- app_assoc, (dir_here_ws _ _ Hw).
    change (("#"%char :: py "ifndef" ++ z) ++ Z)
      with ("#"%char :: "i"%char :: "f"%char :: py "ndef" ++ z ++ Z).
    now rewrite dir_here_if.
  - exfalso. apply no_nl_ifndef. destruct Hnl1 as (a' & Ha').
    rewrite Hy. change ("#"%char :: a1 ++ y') with (("#"%char :: a1) ++ y').
    apply in_or_app. left. rewrite Ha'. apply in_or_app. right. now left.
Qed.

Lemma no_guard_suffix A suffix :
  ends_line suffix -> guard_here suffix <> None ->
  A <> [] -> exists j, guard_at (A ++ suffix) j.
Proof.
  intros Hs Hg HA.
  assert (G0 : guard_at suffix 0) by (now split).
  destruct Hs as [-> | (l' & ->)]; [now apply no_guard_nil in G0|].
  apply guard_at_nl in G0. exists (List.length A + 1).
  apply guard_at_shift; [lia | exact G0].
Qed.

(** With the closing [#endif] taken out, the body and the rest hold a
    guard only if they held one before. *)
Lemma guard_at_body content pre g body e suffix :
  parts content pre g body e suffix ->
  (forall j, ~ guard_at (body ++ e ++ suffix) j) ->
  forall q, ~ guard_at (body ++ suffix) q.
Proof.
  intros P Hno q G.
  assert (He : body ++ e <> []).
  { destruct (parts_endif _ _ _ _ _ _ P) as (w & x & -> & _).
    intros H. apply app_eq_nil in H as [_ H].
    apply app_eq_nil in H as [_ H]. discriminate H. }
  assert (Hsuf : guard_here suffix <> None -> False).
  { intros Hg.
    destruct (no_guard_suffix (body ++ e) suffix
                (parts_suffix _ _ _ _ _ _ P) Hg He) as (j & Hj).
    rewrite <- app_assoc in Hj. exact (Hno _ Hj). }
  destruct (Nat.le_gt_cases (List.length body) q) as [Hq | Hq].
  - apply guard_at_right in G; [|exact Hq].
    destruct (q - List.length body) as [|j] eqn:Ej.
    + apply Hsuf. exact (proj2 G).
    + apply (Hno (List.length (body ++ e) + S j)).
      rewrite app_assoc. apply guard_at_shift; [lia | exact G].
  - assert (Hb : ends_nl body).
    { destruct (line_start_cut _ _ (parts_body_line _ _ _ _ _ _ P))
        as [-> | H]; [cbn in Hq; lia | exact H]. }
    assert (Ha : ends_nl (skipn q body)) by (now apply ends_nl_skipn).
    destruct G as [Hl Hg].
    rewrite line_start_app_l in Hl by lia.
    assert (Hl' : line_start true (body ++ e ++ suffix) q = true).
    { rewrite line_start_app_l by lia. exact Hl. }
    assert (Hsk : forall Z, skipn q (body ++ Z) = skipn q body ++ Z).
    { intros Z. apply skipn_app_lt. lia. }
    destruct (guard_at_core (body ++ suffix) q)
      as (c & name & x & Hcx & Hc & Hx).
    { split; [now rewrite line_start_app_l by lia | exact Hg]. }
    rewrite Hsk in Hcx, Hg.
    apply cut_cases in Hcx as [(z & Hz & ->) | (y & Hy & Hcy & Hs)].
    + apply (Hno q).
      apply (core_guard_at _ _ c name (z ++ e ++ suffix)); auto.
      * now rewrite Hsk, Hz, <- app_assoc.
      * eapply core_inside; eauto.
    + destruct (all_space (skipn q body)) eqn:Esp.
      * apply Hsuf. rewrite (guard_here_ws _ _ Esp) in Hg.
        destruct (guard_here suffix); [discriminate | now apply Hg].
      * destruct (core_prefix_open c name (skipn q body) y (e ++ suffix)
                    Hc Hcy Ha Esp) as (n & Hd).
        rewrite <- Hsk in Hd.
        apply (no_open_before_terminator _ _ _ q n
                 (parts_term _ _ _ _ _ _ P) Hl' Hq Hd).
        intros i Hi1 Hi2.
        rewrite !nth_error_app1 by lia.
        replace i with (q + (i - q)) by lia.
        replace (S (q + (i - q))) with (q + S (i - q)) by lia.
        rewrite <- !nth_error_skipn.
        assert (Hlen : List.length (skipn q body) = List.length body - q)
          by apply length_skipn.
        intros H1 H2.
        apply (hashes_ok_nth c (i - q) (core_hashes_ok _ _ Hc)).
        -- rewrite Hcy, nth_error_app1 by lia. exact H1.
        -- rewrite Hcy, nth_error_app1 by lia. exact H2.
Qed.

(** The rewritten text holds a guard only if the text after the first
    guard's [#define] line did. *)
Lemma no_guard_after_rewrite content pre g body e suffix :
  parts content pre g body e suffix ->
  (forall j, ~ guard_at (body ++ e ++ suffix) j) ->
  forall q, ~ guard_at (rstrip (pre ++ pragma_once ++ body ++ suffix) ++ [NL]) q.
Proof.
  intros P Hno q G. apply guard_at_rstrip in G.
  destruct (Nat.lt_ge_cases q (List.length pre)) as [Hq | Hq].
  - assert (Hp : ends_nl pre).
    { pose proof (parts_pre_line _ _ _ _ _ _ P) as H.
      rewrite (parts_eq _ _ _ _ _ _ P) in H.
      destruct (line_start_cut _ _ H) as [-> | H']; [cbn in Hq; lia | exact H']. }
    apply (guard_at_pre pre _ (g ++ body ++ e ++ suffix) q Hp Hq) in G.
    rewrite <- (parts_eq _ _ _ _ _ _ P) in G. destruct G as [Hl Hg].
    apply Hg. now apply (parts_first _ _ _ _ _ _ P).
  - apply guard_at_right in G; [|exact Hq].
    apply guard_at_marker in G as (j & G).
    exact (guard_at_body _ _ _ _ _ _ P Hno j G).
Qed.

(** ** C3: applying the transform twice *)

Lemma post_define_parts content pre g body e suffix post :
  parts content pre g body e suffix ->
  post_define_content content = Some post ->
  post = body ++ e ++ suffix.
Proof.
  intros P. unfold post_define_content.
  destruct (parts_locate _ _ _ _ _ _ P) as (name & Hl).
  pose proof (search_locate content) as A. rewrite Hl in A.
  destruct A as (m & -> & _ & _ & -> & _). intros [= <-].
  rewrite (parts_eq _ _ _ _ _ _ P) at 1.
  rewrite skipn_app, skipn_all2 by lia. cbn [app].
  replace (List.length pre + List.length g - List.length pre)
    with (List.length g) by lia.
  now rewrite skipn_app, skipn_all, Nat.sub_diag.
Qed.

(** C3 does not hold of the code: after the first pass has replaced the
    outer guard, the second pass finds the guard-shaped pair inside the
    body and replaces that one too. *)
Lemma c3_not_idempotent :
  replace_header_guard c3_input = Return (Some c3_once) /\
  rewrite_text c3_input = c3_once /\
  rewrite_text (rewrite_text c3_input) = c3_twice /\
  rewrite_text (rewrite_text c3_input) <> rewrite_text c3_input.
Proof.
  assert (H1 : replace_header_guard c3_input = Return (Some c3_once))
    by (vm_compute; reflexivity).
  assert (H2 : replace_header_guard c3_once = Return (Some c3_twice))
    by (vm_compute; reflexivity).
  assert (R1 : rewrite_text c3_input = c3_once).
  { unfold rewrite_text. rewrite H1. reflexivity. }
  assert (R2 : rewrite_text c3_once = c3_twice).
  { unfold rewrite_text. rewrite H2. reflexivity. }
  split; [exact H1|]. split; [exact R1|]. split.
  - rewrite R1. exact R2.
  - rewrite R1, R2. intros E.
    apply (f_equal (@List.length ascii)) in E. vm_compute in E.
    discriminate E.
Qed.

(** C3, amended: when the transform rewrites a text and the text after
    the guard match ([post_define_content]) holds no further
    guard-shaped pair, the second pass finds no guard in the rewritten
    text and leaves it as it is: [rewrite (rewrite H) = rewrite H]. *)
Theorem c3_idempotent_without_inner_guard content post new_content :
  replace_header_guard content = Return (Some new_content) ->
  post_define_content content = Some post ->
  search header_guard_pattern post = None ->
  search header_guard_pattern new_content = None /\
  replace_header_guard new_content = Return None /\
  rewrite_text (rewrite_text content) = rewrite_text content.
Proof.
  intros H Hpost Hnone.
  assert (Hr : rewritten content = Some new_content).
  { rewrite replace_header_guard_eq in H. now injection H. }
  destruct (rewritten_parts _ _ Hr) as (pre & g & body & e & suffix & P & ->).
  rewrite (post_define_parts _ _ _ _ _ _ _ P Hpost) in Hnone.
  assert (Hloc : locate (body ++ e ++ suffix) = None).
  { pose proof (search_locate (body ++ e ++ suffix)) as A.
    destruct (locate (body ++ e ++ suffix)) as [[[p n] name]|]; [|reflexivity].
    destruct A as (m & A & _). congruence. }
  assert (Hout : locate (rstrip (pre ++ pragma_once ++ body ++ suffix) ++ [NL])
                 = None).
  { apply locate_none_iff. apply (no_guard_after_rewrite _ _ _ _ _ _ P).
    now apply locate_none_iff. }
  assert (H2 : replace_header_guard
                 (rstrip (pre ++ pragma_once ++ body ++ suffix) ++ [NL])
               = Return None).
  { rewrite replace_header_guard_eq. unfold rewritten, guard_parts.
    now rewrite Hout. }
  split; [now apply search_none_locate|]. split; [exact H2|].
  unfold rewrite_text at 2 3. rewrite H.
  unfold rewrite_text. now rewrite H2.
Qed.

Lemma c3_witness :
  search header_guard_pattern c1_actual = None /\
  replace_header_guard c1_actual = Return None /\
  rewrite_text (rewrite_text c1_input) = rewrite_text c1_input.
Proof.
  apply (c3_idempotent_without_inner_guard c1_input
           (lines_nl ["#ifdef FOO"; "int a;"; "#endif"; "#endif"; "int tail;"])
           c1_actual);
    vm_compute; reflexivity.
Defined.

(** * Further properties of the script *)

(** ** What [replace_header_guard] returns *)

Lemma rstrip_marker pre y :
  rstrip ((pre ++ NL :: py "#pragma once") ++ y)
  = (pre ++ NL :: py "#pragma once") ++ rstrip y.
Proof.
  destruct (all_space y) eqn:Ey.
  - rewrite rstrip_all_space, (rstrip_nil y) by exact Ey.
    rewrite app_nil_r.
    change (NL :: py "#pragma once")
      with ((NL :: py "#pragma onc") ++ ["e"%char]).
    rewrite app_assoc. now apply rstrip_last.
  - now apply rstrip_keeps.
Qed.

Lemma rewritten_marker content out :
  rewritten content = Some out ->
  exists pre g body e suffix,
    parts content pre g body e suffix /\
    out = (pre ++ NL :: py "#pragma once")
            ++ rstrip ([NL; NL] ++ body ++ suffix) ++ [NL].
Proof.
  intros H.
  apply rewritten_parts in H as (pre & g & body & e & suffix & P & ->).
  exists pre, g, body, e, suffix. split; [exact P|].
  assert (E : pre ++ pragma_once ++ body ++ suffix
              = (pre ++ NL :: py "#pragma once") ++ [NL; NL] ++ body ++ suffix).
  { unfold pragma_once. now rewrite <- !app_assoc. }
  now rewrite E, rstrip_marker, <- app_assoc.
Qed.

Lemma rstrip_length s : List.length (rstrip s) <= List.length s.
Proof.
  destruct (rstrip_split s) as (ws & H & _).
  apply (f_equal (@List.length ascii)) in H. rewrite length_app in H. lia.
Qed.

Lemma length_pos (s : str) : s <> [] -> 1 <= List.length s.
Proof. destruct s; [easy | cbn; lia]. Qed.

Lemma has_nl_not_nil w : has_nl w = true -> w <> [].
Proof. now destruct w. Qed.

(** X1: The returned text has no white space at its end but one line
    feed: it ends with a character that is not white space and a line
    feed, and trimming it again gives it back. *)
Theorem replace_header_guard_trimmed content :
  match replace_header_guard content with
  | Return (Some new_content) =>
      rstrip new_content ++ [NL] = new_content /\
      exists t c, new_content = t ++ [c; NL] /\ is_space c = false
  | Return None => True
  | Raise _ => False
  end.
Proof.
  rewrite replace_header_guard_eq.
  destruct (rewritten content) as [out|] eqn:E; [|exact I].
  apply rewritten_marker in E as (pre & g & body & e & suffix & _ & ->).
  set (y := [NL; NL] ++ body ++ suffix).
  assert (H : exists t c, (pre ++ NL :: py "#pragma once") ++ rstrip y
                          = t ++ [c] /\ is_space c = false).
  { destruct (rstrip_shape y) as [-> | (K & d & -> & Hd)].
    - exists (pre ++ NL :: py "#pragma onc"), "e"%char.
      rewrite app_nil_r, <- app_assoc. split; reflexivity.
    - exists ((pre ++ NL :: py "#pragma once") ++ K), d.
      now rewrite <- !app_assoc. }
  destruct H as (t & c & Ht & Hc). rewrite app_assoc, Ht. split.
  - rewrite rstrip_all_space by reflexivity. now rewrite rstrip_last.
  - exists t, c. now rewrite <- app_assoc.
Qed.

(** A guard takes 19 characters at least, the match of an [#endif] six. *)
Lemma parts_lengths content pre g body e suffix :
  parts content pre g body e suffix ->
  19 <= List.length g /\ 6 <= List.length e.
Proof.
  intros P. destruct (parts_guard _ _ _ _ _ _ P) as (name & Hg).
  apply guard_here_shape in Hg
    as (w0 & w1 & w2 & w3 & w4 & tl & _ & Hn & _ & _ & N1 & _ & Nn & _ & N2
        & _ & N3 & _).
  destruct (parts_endif _ _ _ _ _ _ P) as (w & x & He & _).
  apply length_pos in N1, Nn, N3. apply has_nl_not_nil, length_pos in N2.
  rewrite He, Hn, !length_app.
  change (List.length (py "#ifndef")) with 7.
  change (List.length (py "#define")) with 7.
  change (List.length (py "#endif")) with 6. lia.
Qed.

(** X2: The returned text is shorter than the input, by nine characters at
    least: the marker takes the place of a guard of 19 characters or
    more and of an [#endif] line. *)
Theorem replace_header_guard_shorter content :
  match replace_header_guard content with
  | Return (Some new_content) =>
      List.length new_content + 9 <= List.length content
  | Return None => True
  | Raise _ => False
  end.
Proof.
  rewrite replace_header_guard_eq.
  destruct (rewritten content) as [out|] eqn:E; [|exact I].
  apply rewritten_marker in E as (pre & g & body & e & suffix & P & ->).
  destruct (parts_lengths _ _ _ _ _ _ P) as [Lg Le].
  rewrite (parts_eq _ _ _ _ _ _ P).
  pose proof (rstrip_length ([NL; NL] ++ body ++ suffix)) as Hr.
  rewrite !length_app in *.
  change (List.length (NL :: py "#pragma once")) with 13.
  change (List.length [NL; NL]) with 2 in Hr.
  change (List.length [NL]) with 1. lia.
Qed.

(** X3: A text in which [#ifndef] does not occur, the empty text among
    them, has no guard: [None] is returned. *)
Theorem replace_header_guard_no_ifndef content :
  count_occ_str (py "#ifndef") content = 0 ->
  search header_guard_pattern content = None /\
  replace_header_guard content = Return None.
Proof.
  intros H0.
  assert (Hl : locate content = None).
  { destruct (locate content) as [[[p n] name]|] eqn:E; [|reflexivity].
    exfalso. apply find_guard_some in E as (k & _ & _ & _ & Hg & _).
    pose proof (guard_here_ifndef _ _ _ Hg) as Hocc.
    rewrite <- skipn_take_while, skipn_skipn in Hocc. apply Hocc.
    now apply count_occ_zero. }
  pose proof (search_none_locate _ Hl) as Hs.
  split; [exact Hs|]. unfold replace_header_guard. now rewrite Hs.
Qed.

Lemma replace_header_guard_no_ifndef_witness :
  search header_guard_pattern (lines_nl ["#pragma once"; "int x;"]) = None /\
  replace_header_guard (lines_nl ["#pragma once"; "int x;"]) = Return None.
Proof.
  apply (replace_header_guard_no_ifndef (lines_nl ["#pragma once"; "int x;"])).
  reflexivity.
Defined.

(** X4: The guard that is located is the first of the text: the text before
    it, which [group(1)] holds and the output starts with, has no guard
    of its own. *)
Theorem replace_header_guard_first_guard content match_ pre_guard_content :
  search header_guard_pattern content = Some match_ ->
  group match_ 1 = Some pre_guard_content ->
  search header_guard_pattern pre_guard_content = None /\
  replace_header_guard pre_guard_content = Return None.
Proof.
  intros Hs Hg1.
  destruct (search_some_locate _ _ Hs) as (p & n & name & Hl & H1 & _).
  rewrite H1 in Hg1. injection Hg1 as <-.
  apply find_guard_some in Hl as (k & Hp & Hk & Hls & _ & Hmin).
  cbn in Hp. subst k.
  set (pre := firstn p content) in *.
  assert (Hc : content = pre ++ skipn p content)
    by (symmetry; apply firstn_skipn).
  assert (Lp : List.length pre = p) by (unfold pre; rewrite length_firstn; lia).
  assert (Hnone : locate pre = None).
  { apply locate_none_iff. intros q G.
    destruct (Nat.le_gt_cases (List.length pre) q) as [Hq | Hq].
    - destruct G as [_ G]. rewrite skipn_all2 in G by exact Hq. now apply G.
    - assert (Hnl : ends_nl pre).
      { rewrite Hc, <- Lp in Hls.
        destruct (line_start_cut _ _ Hls) as [E | E]; [|exact E].
        rewrite E in Hq. cbn in Hq. lia. }
      destruct (guard_at_core _ _ G) as (c & cname & x & Hsk & Hcore & Hx).
      assert (G' : guard_at content q).
      { apply (core_guard_at _ _ c cname (x ++ skipn p content)).
        - rewrite Hc, line_start_app_l by lia. exact (proj1 G).
        - rewrite Hc at 1. rewrite skipn_app_lt by lia.
          now rewrite Hsk, <- app_assoc.
        - exact Hcore.
        - apply (core_inside (skipn q pre) c cname x []); auto.
          + now apply ends_nl_skipn.
          + now rewrite app_nil_r. }
      destruct G' as [Hl' Hg']. apply Hg'. apply Hmin; [lia | exact Hl']. }
  pose proof (search_none_locate _ Hnone) as Hs'.
  split; [exact Hs'|]. unfold replace_header_guard. now rewrite Hs'.
Qed.

Lemma replace_header_guard_first_guard_witness :
  search header_guard_pattern (lines_nl ["// license"]) = None /\
  replace_header_guard (lines_nl ["// license"]) = Return None.
Proof.
  destruct (search header_guard_pattern c1_input) as [m|] eqn:E;
    [|vm_compute in E; discriminate E].
  apply (replace_header_guard_first_guard c1_input m (lines_nl ["// license"]) E).
  vm_compute in E. injection E as <-. vm_compute. reflexivity.
Defined.

(** ** What [process_file] does *)

Lemma str_eqb_neq a b : a <> b -> str_eqb a b = false.
Proof.
  intros H. destruct (str_eqb a b) eqn:E; [|reflexivity].
  apply str_eqb_eq in E. contradiction.
Qed.

Lemma rewritten_differs content new_content :
  replace_header_guard content = Return (Some new_content) ->
  str_eqb content new_content = false.
Proof.
  rewrite replace_header_guard_eq. intros [= H].
  apply rewritten_marker in H as (pre & g & body & e & suffix & P & ->).
  destruct (parts_lengths _ _ _ _ _ _ P) as [Lg Le].
  pose proof (rstrip_length ([NL; NL] ++ body ++ suffix)) as Hr.
  apply str_eqb_neq. intros H.
  apply (f_equal (@List.length ascii)) in H.
  rewrite (parts_eq _ _ _ _ _ _ P) in H. rewrite !length_app in *.
  change (List.length (NL :: py "#pragma once")) with 13 in H.
  change (List.length [NL; NL]) with 2 in Hr.
  change (List.length [NL]) with 1 in H. lia.
Qed.

(** What a call of [process_file] amounts to, by the cases of the
    result of [replace_header_guard]. *)
Lemma process_file_cases w file_path dry_run verbose :
  process_file w file_path dry_run verbose =
  Return
    match files w file_path with
    | None => print w (ErrorReading file_path)
    | Some content =>
        match rewritten content with
        | None => if verbose then print w (NoHeaderGuard file_path) else w
        | Some new_content =>
            if dry_run then print w (DryRunWouldUpdate file_path)
            else if writable w file_path then
              if verbose
              then print (write w file_path new_content) (Updated file_path)
              else write w file_path new_content
            else print w (ErrorWriting file_path)
        end
    end.
Proof.
  unfold process_file. destruct (files w file_path) as [content|]; [|reflexivity].
  pose proof (rewritten_differs content) as D.
  rewrite replace_header_guard_eq in *.
  destruct (rewritten content) as [new_content|]; [|reflexivity].
  rewrite (D new_content eq_refl).
  destruct dry_run; [reflexivity|].
  now destruct (writable w file_path), verbose.
Qed.

(** X8: With [dry_run] set, [process_file] changes no file, and it prints
    "[Dry Run] Would update" exactly when [replace_header_guard]
    returns a text for the content of the file. *)
Theorem process_file_dry_run w file_path verbose :
  exists w',
    process_file w file_path true verbose = Return w' /\
    files w' = files w /\
    (In (DryRunWouldUpdate file_path) (emitted w w') <->
     exists content new_content,
       files w file_path = Some content /\
       replace_header_guard content = Return (Some new_content)).
Proof.
  rewrite process_file_cases. eexists. split; [reflexivity|].
  assert (Hp : forall m, emitted w (print w m) = [m]).
  { intros m. unfold emitted, print. cbn.
    rewrite skipn_app, skipn_all, Nat.sub_diag. reflexivity. }
  assert (Hn : emitted w w = []) by (unfold emitted; apply skipn_all).
  destruct (files w file_path) as [content|].
  - pose proof (replace_header_guard_eq content) as R.
    destruct (rewritten content) as [new_content|].
    + split; [reflexivity|]. rewrite Hp. split.
      * intros _. now exists content, new_content.
      * intros _. now left.
    + split; [now destruct verbose|]. split.
      * destruct verbose; [rewrite Hp | rewrite Hn]; cbn;
          intros H; [destruct H as [H|H]; [discriminate H | elim H] | elim H].
      * intros (c & nc & [= <-] & H). rewrite R in H. discriminate H.
  - split; [reflexivity|]. rewrite Hp. split.
    + intros [H|H]; [discriminate H | elim H].
    + intros (c & nc & H & _). discriminate H.
Qed.

(** ** [os.path.splitext] and [os.path.join] *)

Lemma rfind_from_notin c : forall p i last,
  ~ In c p -> rfind_from p c i last = last.
Proof.
  induction p as [|x p IH]; intros i last H; cbn [rfind_from]; [reflexivity|].
  rewrite IH by (intros Hin; apply H; now right).
  destruct (Ascii.eqb x c) eqn:E; [|reflexivity].
  apply Ascii.eqb_eq in E. subst x. elim H. now left.
Qed.

Lemma rfind_from_app c : forall a b i last,
  rfind_from (a ++ b) c i last
  = rfind_from b c (i + Z.of_nat (List.length a)) (rfind_from a c i last).
Proof.
  induction a as [|x a IH]; intros b i last; cbn [app rfind_from List.length].
  - now rewrite Z.add_0_r.
  - rewrite IH. f_equal. lia.
Qed.

Lemma rfind_from_spec c : forall p i last,
  (~ In c p /\ rfind_from p c i last = last) \/
  (exists a b, p = a ++ c :: b /\ ~ In c b /\
               rfind_from p c i last = (i + Z.of_nat (List.length a))%Z).
Proof.
  induction p as [|x p IH]; intros i last; cbn [rfind_from].
  - left. now split.
  - destruct (IH (i + 1)%Z (if Ascii.eqb x c then i else last))
      as [[Hn E] | (a & b & -> & Hb & E)].
    + rewrite E. destruct (Ascii.eqb x c) eqn:Ex.
      * apply Ascii.eqb_eq in Ex. subst x. right. exists [], p.
        repeat split; auto. cbn. lia.
      * left. split; [|reflexivity]. intros [H|H]; [|now apply Hn].
        subst x. now rewrite Ascii.eqb_refl in Ex.
    + right. exists (x :: a), b. repeat split; auto.
      rewrite E. cbn [List.length]. lia.
Qed.

(** The last occurrence, if there is one. *)
Lemma rfind_spec p c :
  (~ In c p /\ rfind p c = (-1)%Z) \/
  (exists a b, p = a ++ c :: b /\ ~ In c b /\
               rfind p c = Z.of_nat (List.length a)).
Proof.
  destruct (rfind_from_spec c p 0%Z (-1)%Z) as [H | (a & b & H)];
    [now left | right; now exists a, b].
Qed.

Lemma rfind_last a c b :
  ~ In c b -> rfind (a ++ c :: b) c = Z.of_nat (List.length a).
Proof.
  intros H. unfold rfind. rewrite rfind_from_app. cbn [rfind_from].
  rewrite Ascii.eqb_refl. now rewrite rfind_from_notin.
Qed.

Lemma rfind_notin_app a b c :
  ~ In c b -> rfind (a ++ b) c = rfind a c.
Proof.
  intros H. unfold rfind. rewrite rfind_from_app. now apply rfind_from_notin.
Qed.

Lemma rfind_lt p c : (rfind p c < Z.of_nat (List.length p))%Z.
Proof.
  destruct (rfind_spec p c) as [[_ ->] | (a & b & -> & _ & ->)]; [lia|].
  rewrite length_app. cbn [List.length]. lia.
Qed.

Lemma skip_leading_dots_some p d : forall n i r,
  skip_leading_dots p d i n = Some r ->
  r = (firstn (Z.to_nat d) p, skipn (Z.to_nat d) p).
Proof.
  induction n as [|n IH]; intros i r; cbn [skip_leading_dots]; [discriminate|].
  destruct (negb _); [now intros [= <-] | apply IH].
Qed.

Lemma skipn_cons_S {A} (l : list A) i c r :
  skipn i l = c :: r -> skipn (S i) l = r.
Proof.
  intros H. replace (S i) with (1 + i) by lia.
  now rewrite <- skipn_skipn, H.
Qed.

Lemma firstn_exact {A} (a b : list A) : firstn (List.length a) (a ++ b) = a.
Proof.
  rewrite firstn_app, firstn_all, Nat.sub_diag. cbn. apply app_nil_r.
Qed.

Lemma skipn_exact {A} (a b : list A) : skipn (List.length a) (a ++ b) = b.
Proof. now rewrite skipn_app, skipn_all, Nat.sub_diag. Qed.

(** The loop returns unless all it looks at are dots. *)
Lemma skip_leading_dots_spec p d : forall n i,
  i + n <= List.length p ->
  skip_leading_dots p d (Z.of_nat i) n =
  if all_dots (firstn n (skipn i p)) then None
  else Some (firstn (Z.to_nat d) p, skipn (Z.to_nat d) p).
Proof.
  induction n as [|n IH]; intros i H; cbn [skip_leading_dots]; [reflexivity|].
  rewrite Nat2Z.id.
  destruct (skipn i p) as [|c r] eqn:E.
  { apply (f_equal (@List.length ascii)) in E. rewrite length_skipn in E.
    cbn in E. lia. }
  cbn [firstn all_dots forallb str_eqb py list_ascii_of_string].
  rewrite andb_true_r.
  destruct (Ascii.eqb c ".") eqn:Ec; cbn [negb andb]; [|reflexivity].
  replace (Z.of_nat i + 1)%Z with (Z.of_nat (S i)) by lia.
  rewrite IH by lia. now rewrite (skipn_cons_S _ _ _ _ E).
Qed.

(** The extension of a name [f] that holds no [/], alone or after a
    path that ends with [/]. *)
Lemma splitext_name pfx f :
  ~ In "/"%char f -> pfx = [] \/ (exists D, pfx = D ++ ["/"%char]) ->
  splitext (pfx ++ f) =
  let r := rfind f "." in
  if (r <? 0)%Z || all_dots (firstn (Z.to_nat r) f) then (pfx ++ f, [])
  else (pfx ++ firstn (Z.to_nat r) f, skipn (Z.to_nat r) f).
Proof.
  intros Hf Hp. unfold splitext.
  assert (Hsep : rfind (pfx ++ f) "/" = (Z.of_nat (List.length pfx) - 1)%Z).
  { rewrite rfind_notin_app by exact Hf.
    destruct Hp as [-> | (D & ->)]; [reflexivity|].
    rewrite rfind_last by easy. rewrite length_app. cbn. lia. }
  rewrite Hsep.
  destruct (rfind_spec f ".") as [[Hn E] | (a & b & Ef & Hb & E)].
  - rewrite E. cbn [Z.ltb Z.compare orb].
    rewrite rfind_notin_app by exact Hn.
    assert (Hd : (rfind pfx "." <= Z.of_nat (List.length pfx) - 1)%Z).
    { pose proof (rfind_lt pfx "."). lia. }
    assert (Hd' : (rfind pfx "." < Z.of_nat (List.length pfx) - 1)%Z
                  \/ pfx = []).
    { destruct Hp as [-> | (D & ->)]; [now right|]. left.
      rewrite rfind_notin_app by (intros [H|[]]; discriminate H).
      pose proof (rfind_lt D "."). rewrite length_app. cbn. lia. }
    destruct Hd' as [Hd' | ->].
    + destruct (Z.ltb_spec (Z.of_nat (List.length pfx) - 1) (rfind pfx "."));
        [lia | reflexivity].
    + reflexivity.
  - rewrite E. subst f.
    rewrite app_assoc, rfind_last by exact Hb. rewrite <- app_assoc.
    rewrite length_app, Nat2Z.id.
    destruct (Z.ltb_spec (Z.of_nat (List.length a)) 0); [lia|].
    cbn [orb].
    destruct (Z.ltb_spec (Z.of_nat (List.length pfx) - 1)
                (Z.of_nat (List.length pfx + List.length a))); [|lia].
    replace (Z.of_nat (List.length pfx) - 1 + 1)%Z
      with (Z.of_nat (List.length pfx)) by lia.
    replace (Z.to_nat (Z.of_nat (List.length pfx + List.length a)
                       - Z.of_nat (List.length pfx)))
      with (List.length a) by lia.
    rewrite skip_leading_dots_spec
      by (rewrite !length_app; cbn [List.length]; lia).
    rewrite Nat2Z.id, (skipn_exact pfx), !(firstn_exact a), (skipn_exact a).
    destruct (all_dots a); [reflexivity|].
    rewrite app_assoc, <- length_app.
    now rewrite firstn_exact, skipn_exact.
Qed.

Lemma in_set_header l :
  in_set ("."%char :: l) HEADER_EXTENSIONS = true <->
  In l [py "h"; py "hpp"; py "hh"; py "hxx"; py "h++"].
Proof.
  unfold in_set, HEADER_EXTENSIONS. cbn [existsb In].
  rewrite !orb_true_iff, !str_eqb_eq.
  change (py ".h") with ("."%char :: py "h").
  change (py ".hpp") with ("."%char :: py "hpp").
  change (py ".hh") with ("."%char :: py "hh").
  change (py ".hxx") with ("."%char :: py "hxx").
  change (py ".h++") with ("."%char :: py "h++").
  split.
  - intros [H|[H|[H|[H|[H|H]]]]]; try discriminate H;
      injection H as ->; auto 6.
  - intros [<-|[<-|[<-|[<-|[<-|[]]]]]]; auto 6.
Qed.

Lemma lower_keeps_dot e : In "."%char e -> In "."%char (lower e).
Proof. intros H. apply (in_map lower_char) in H. exact H. Qed.

Lemma header_no_dot e :
  In (lower e) [py "h"; py "hpp"; py "hh"; py "hxx"; py "h++"] ->
  ~ In "."%char e.
Proof.
  intros H Hd. apply lower_keeps_dot in Hd.
  destruct H as [H|[H|[H|[H|[H|[]]]]]]; rewrite <- H in Hd; cbn in Hd;
    intuition discriminate.
Qed.

(** X10: Which names pass the test of [find_header_files]: those made of a
    stem that is not dots only, a dot, and one of [h], [hpp], [hh],
    [hxx], [h++] in small or capital letters.  A name such as [.h],
    whose only dots are leading ones, has no extension and does not
    pass. *)
Theorem header_extension_iff filename :
  ~ In "/"%char filename ->
  (has_header_extension filename = true <->
   exists stem e,
     filename = stem ++ "."%char :: e /\ all_dots stem = false /\
     In (lower e) [py "h"; py "hpp"; py "hh"; py "hxx"; py "h++"]).
Proof.
  intros Hf. unfold has_header_extension.
  pose proof (splitext_name [] filename Hf (or_introl eq_refl)) as S.
  cbn [app] in S. rewrite S. clear S. cbn zeta. split.
  - destruct (rfind_spec filename ".") as [[_ E] | (a & b & -> & Hb & E)];
      rewrite E.
    + discriminate.
    + destruct (Z.ltb_spec (Z.of_nat (List.length a)) 0); [lia|].
      rewrite Nat2Z.id, firstn_exact, skipn_exact. cbn [orb].
      destruct (all_dots a) eqn:Ea; [discriminate|]. cbn [snd].
      intros Hin. exists a, b. split; [reflexivity|]. split; [exact Ea|].
      now apply in_set_header.
  - intros (stem & e & -> & Hs & He).
    rewrite rfind_last by (now apply header_no_dot).
    destruct (Z.ltb_spec (Z.of_nat (List.length stem)) 0); [lia|].
    rewrite Nat2Z.id, firstn_exact, skipn_exact, Hs. cbn [orb snd].
    now apply in_set_header.
Qed.

Lemma header_extension_iff_witness :
  has_header_extension (py "Foo.bar.HPP") = true <->
  exists stem e,
    py "Foo.bar.HPP" = stem ++ "."%char :: e /\ all_dots stem = false /\
    In (lower e) [py "h"; py "hpp"; py "hh"; py "hxx"; py "h++"].
Proof.
  apply (header_extension_iff (py "Foo.bar.HPP")).
  cbn. intuition discriminate.
Defined.

Lemma no_sep_not_in name : no_sep name = true -> ~ In "/"%char name.
Proof.
  unfold no_sep. intros H Hin.
  assert (E : existsb (Ascii.eqb "/") name = true).
  { apply existsb_exists. exists "/"%char. split; [exact Hin | reflexivity]. }
  now rewrite E in H.
Qed.

(** [join] puts a name that holds no [/] after its first argument,
    with a [/] between them unless there is one, or nothing, before. *)
Lemma join_name a b :
  ~ In "/"%char b ->
  exists pfx, join a b = pfx ++ b /\
              (pfx = [] \/ exists D, pfx = D ++ ["/"%char]) /\
              exists s, pfx = a ++ s.
Proof.
  intros Hb. unfold join.
  assert (Hs : startswith_sep b = false).
  { destruct b as [|c b]; [reflexivity|]. cbn.
    destruct (Ascii.eqb c "/") eqn:E; [|reflexivity].
    apply Ascii.eqb_eq in E. subst c. elim Hb. now left. }
  rewrite Hs. destruct a as [|x a].
  - exists []. cbn. split; [reflexivity|]. split; [now left | now exists []].
  - cbn [orb]. destruct (endswith_sep (x :: a)) eqn:E.
    + exists (x :: a). split; [reflexivity|]. split.
      * right. unfold endswith_sep in E.
        destruct (rev (x :: a)) as [|c r] eqn:R; [discriminate|].
        apply Ascii.eqb_eq in E. subst c. exists (rev r).
        rewrite <- (rev_involutive (x :: a)), R. reflexivity.
      * exists []. now rewrite app_nil_r.
    + exists ((x :: a) ++ ["/"%char]). split; [now rewrite <- app_assoc|].
      split; [right; now exists (x :: a) | now exists ["/"%char]].
Qed.

(** ** [os.walk] and [find_header_files] *)

Lemma tree_induction (P : tree -> Prop) :
  (forall dirs nondirs,
     Forall (fun d => match snd d with Some t' => P t' | None => True end)
            dirs ->
     P (Tree dirs nondirs)) ->
  forall t, P t.
Proof.
  intros H. fix IH 1. intros [dirs nondirs]. apply H.
  induction dirs as [|[name [t'|]] dirs IHd]; constructor; cbn;
    [apply IH | exact IHd | exact I | exact IHd].
Qed.

Lemma add_header_files_eq dirpath : forall filenames header_files,
  add_header_files dirpath filenames header_files
  = header_files
      ++ map (join dirpath) (filter has_header_extension filenames).
Proof.
  unfold add_header_files.
  induction filenames as [|f fs IH]; intros acc; cbn [fold_left filter map].
  - now rewrite app_nil_r.
  - rewrite IH. unfold has_header_extension at 2.
    destruct (splitext f) as [r ext]. cbn [snd].
    destruct (in_set (lower ext) HEADER_EXTENSIONS); [|reflexivity].
    cbn [map]. now rewrite <- app_assoc.
Qed.

Lemma find_header_files_eq fs root_dir :
  find_header_files fs root_dir
  = flat_map (fun triple =>
                map (join (fst (fst triple)))
                    (filter has_header_extension (snd triple)))
             (walk fs root_dir).
Proof.
  unfold find_header_files.
  rewrite <- (app_nil_l (flat_map _ _)). generalize (@nil str) as acc.
  induction (walk fs root_dir) as [|[[dirpath dn] fns] l IH]; intros acc;
    cbn [fold_left flat_map].
  - now rewrite app_nil_r.
  - rewrite IH, add_header_files_eq. cbn [fst snd]. now rewrite <- app_assoc.
Qed.

Lemma walk_tree_file_at : forall t top filename p,
  (exists dirpath dirnames filenames,
     In (dirpath, dirnames, filenames) (walk_tree top t) /\
     In filename filenames /\ p = join dirpath filename)
  <-> file_at top t filename p.
Proof.
  intros t top filename p. split.
  - revert top. induction t as [dirs nondirs IH] using tree_induction.
    intros top (dp & dn & fns & Hin & Hf & ->). cbn [walk_tree] in Hin.
    destruct Hin as [[= <- <- <-] | Hin]; [now constructor|].
    apply in_flat_map in Hin as ([name o] & Hd & Hin). cbn [fst snd] in Hin.
    destruct o as [t'|]; [|destruct Hin].
    rewrite Forall_forall in IH. specialize (IH _ Hd). cbn [snd] in IH.
    apply (file_below _ _ _ name t'); [exact Hd|].
    apply IH. now exists dp, dn, fns.
  - induction 1 as [top dirs nondirs f Hf | top dirs nondirs d t' f p Hd _ IH].
    + exists top, (map fst dirs), nondirs. cbn [walk_tree].
      split; [now left|]. now split.
    + destruct IH as (dp & dn & fns & Hin & Hf & ->).
      exists dp, dn, fns. split; [|now split]. cbn [walk_tree]. right.
      apply in_flat_map. exists (d, Some t'). now split.
Qed.

Lemma find_header_files_in fs root_dir p :
  In p (find_header_files fs root_dir) ->
  exists t filename,
    listing fs root_dir = Some t /\ file_at root_dir t filename p /\
    has_header_extension filename = true.
Proof.
  rewrite find_header_files_eq, in_flat_map. unfold walk.
  intros ([[dp dn] fns] & Hin & Hp). cbn [fst snd] in Hp.
  apply in_map_iff in Hp as (f & <- & Hf).
  apply filter_In in Hf as [Hf Hh].
  destruct (listing fs root_dir) as [t|]; [|destruct Hin].
  exists t, f. split; [reflexivity|]. split; [|exact Hh].
  apply walk_tree_file_at. now exists dp, dn, fns.
Qed.

(** X11: [find_header_files] returns exactly the paths of the entries below
    [root_dir], in the directories that the walk enters, that are not
    directories and whose name passes the extension test. *)
Theorem find_header_files_exact fs root_dir p :
  In p (find_header_files fs root_dir) <->
  exists t filename,
    listing fs root_dir = Some t /\ file_at root_dir t filename p /\
    has_header_extension filename = true.
Proof.
  rewrite find_header_files_eq, in_flat_map. unfold walk. split.
  - intros ([[dp dn] fns] & Hin & Hp). cbn [fst snd] in Hp.
    apply in_map_iff in Hp as (f & <- & Hf).
    apply filter_In in Hf as [Hf Hh].
    destruct (listing fs root_dir) as [t|]; [|destruct Hin].
    exists t, f. split; [reflexivity|]. split; [|exact Hh].
    apply walk_tree_file_at. now exists dp, dn, fns.
  - intros (t & f & -> & Hat & Hh).
    apply walk_tree_file_at in Hat as (dp & dn & fns & Hin & Hf & ->).
    exists (dp, dn, fns). split; [exact Hin|]. cbn [fst snd].
    apply in_map. apply filter_In. now split.
Qed.

Lemma names_ok_inv dirs nondirs :
  names_ok (Tree dirs nondirs) = true ->
  (forall f, In f nondirs -> ~ In "/"%char f) /\
  (forall d t', In (d, Some t') dirs ->
                ~ In "/"%char d /\ names_ok t' = true).
Proof.
  cbn [names_ok]. intros H. apply andb_prop in H as [H1 H2].
  rewrite forallb_forall in H1, H2. split.
  - intros f Hf. apply no_sep_not_in. now apply H1.
  - intros d t' Hd. specialize (H2 _ Hd). cbn [fst snd] in H2.
    apply andb_prop in H2 as [Ha Hb]. split; [|exact Hb].
    now apply no_sep_not_in.
Qed.

(** The path of a file found below [top]. *)
Lemma file_at_path top t filename p :
  file_at top t filename p -> names_ok t = true ->
  ~ In "/"%char filename /\
  exists pfx, p = pfx ++ filename /\
              (pfx = [] \/ exists D, pfx = D ++ ["/"%char]) /\
              exists s, pfx = top ++ s.
Proof.
  induction 1 as [top dirs nondirs f Hf | top dirs nondirs d t' f p Hd _ IH];
    intros Hok; apply names_ok_inv in Hok as [Hn Hdirs].
  - split; [now apply Hn|]. apply join_name. now apply Hn.
  - destruct (Hdirs _ _ Hd) as [Hdn Hok'].
    destruct (IH Hok') as (Hf & pfx & Hp & Hsep & s & Hs).
    split; [exact Hf|]. exists pfx. split; [exact Hp|]. split; [exact Hsep|].
    destruct (join_name top d Hdn) as (pfx' & Hj & _ & s' & Hs').
    exists (s' ++ d ++ s). rewrite Hs, Hj, Hs'. now rewrite <- !app_assoc.
Qed.

(** X12: When no name of the listing holds a [/], every path that
    [find_header_files] returns starts with [root_dir] and has itself,
    as [os.path.splitext] reads it, one of the header extensions. *)
Theorem find_header_files_paths fs root_dir t p :
  listing fs root_dir = Some t -> names_ok t = true ->
  In p (find_header_files fs root_dir) ->
  (exists s, p = root_dir ++ s) /\ has_header_extension p = true.
Proof.
  intros Hl Hok Hin.
  apply find_header_files_in in Hin as (t0 & f & Hl0 & Hat & Hh).
  rewrite Hl in Hl0. injection Hl0 as <-.
  destruct (file_at_path _ _ _ _ Hat Hok) as (Hf & pfx & -> & Hsep & s & ->).
  split; [exists (s ++ f); now rewrite <- app_assoc|].
  unfold has_header_extension in *.
  rewrite (splitext_name (root_dir ++ s) f Hf Hsep).
  pose proof (splitext_name [] f Hf (or_introl eq_refl)) as S.
  cbn [app] in S. rewrite S in Hh. cbn zeta in *.
  destruct ((rfind f "." <? 0)%Z || all_dots (firstn (Z.to_nat (rfind f ".")) f));
    exact Hh.
Qed.

Lemma find_header_files_paths_witness :
  (exists s, py "proj/sub/b.HPP" = py "proj" ++ s) /\
  has_header_extension (py "proj/sub/b.HPP") = true.
Proof.
  apply (find_header_files_paths x_fs (py "proj") x_tree (py "proj/sub/b.HPP")).
  - reflexivity.
  - reflexivity.
  - vm_compute. right. now left.
Defined.

(** ** [main] *)

(** One call of [process_file]. *)
Lemma process_file_step w file_path dry_run verbose :
  exists w' ms,
    process_file w file_path dry_run verbose = Return w' /\
    writable w' = writable w /\
    (forall q, q <> file_path -> files w' q = files w q) /\
    (dry_run = true -> files w' = files w) /\
    printed w' = printed w ++ ms /\
    (verbose = true -> map message_path ms = [file_path]).
Proof.
  rewrite process_file_cases.
  assert (Hw : forall t q, q <> file_path ->
                 files (write w file_path t) q = files w q).
  { intros t q Hq. cbn. apply String.eqb_neq in Hq. now rewrite Hq. }
  assert (P1 : forall m, message_path m = file_path ->
            exists w' ms,
              Return (print w m) = Return w' /\
              writable w' = writable w /\
              (forall q, q <> file_path -> files w' q = files w q) /\
              (dry_run = true -> files w' = files w) /\
              printed w' = printed w ++ ms /\
              (verbose = true -> map message_path ms = [file_path])).
  { intros m Hm. exists (print w m), [m].
    split; [reflexivity|]. split; [reflexivity|].
    split; [reflexivity|]. split; [reflexivity|].
    split; [reflexivity|]. intros _. cbn. now rewrite Hm. }
  assert (P0 : verbose = false ->
            exists w' ms,
              Return w = Return w' /\
              writable w' = writable w /\
              (forall q, q <> file_path -> files w' q = files w q) /\
              (dry_run = true -> files w' = files w) /\
              printed w' = printed w ++ ms /\
              (verbose = true -> map message_path ms = [file_path])).
  { intros Hv. exists w, [].
    split; [reflexivity|]. split; [reflexivity|].
    split; [reflexivity|]. split; [reflexivity|].
    split; [now rewrite app_nil_r|]. rewrite Hv. discriminate. }
  destruct (files w file_path) as [content|]; [|now apply P1].
  destruct (rewritten content) as [new_content|].
  - destruct dry_run eqn:Ed; [now apply P1|].
    destruct (writable w file_path); [|now apply P1].
    destruct verbose.
    + exists (print (write w file_path new_content) (Updated file_path)),
             [Updated file_path].
      split; [reflexivity|]. split; [reflexivity|].
      split; [intros q Hq; now apply Hw|]. split; [discriminate|].
      split; [reflexivity | reflexivity].
    + exists (write w file_path new_content), [].
      split; [reflexivity|]. split; [reflexivity|].
      split; [intros q Hq; now apply Hw|]. split; [discriminate|].
      split; [cbn; now rewrite app_nil_r | discriminate].
  - destruct verbose eqn:Ev; [now apply P1 | now apply P0].
Qed.

(** The loop over the header files. *)
Lemma process_files_steps dry_run verbose : forall header_files w,
  exists w' ms,
    process_files w header_files dry_run verbose = Return w' /\
    writable w' = writable w /\
    (forall q, ~ In q (map string_of_list_ascii header_files) ->
               files w' q = files w q) /\
    (dry_run = true -> files w' = files w) /\
    printed w' = printed w ++ ms /\
    (verbose = true ->
     map message_path ms = map string_of_list_ascii header_files).
Proof.
  induction header_files as [|file_path l IH]; intros w; cbn [process_files].
  - exists w, [].
    split; [reflexivity|]. split; [reflexivity|].
    split; [reflexivity|]. split; [reflexivity|].
    split; [now rewrite app_nil_r | reflexivity].
  - destruct (process_file_step w (string_of_list_ascii file_path)
                dry_run verbose)
      as (w1 & ms1 & -> & Hw1 & Hf1 & Hd1 & Hp1 & Hm1).
    destruct (IH w1) as (w2 & ms2 & -> & Hw2 & Hf2 & Hd2 & Hp2 & Hm2).
    exists w2, (ms1 ++ ms2). split; [reflexivity|].
    split; [congruence|]. split; [|split; [|split]].
    + intros q Hq. cbn [map In] in Hq. rewrite Hf2, Hf1; auto.
    + intros Hd. rewrite Hd2, Hd1; auto.
    + now rewrite Hp2, Hp1, app_assoc.
    + intros Hv. rewrite map_app, Hm1, Hm2; auto.
Qed.

Lemma emitted_app w w' ms : printed w' = printed w ++ ms -> emitted w w' = ms.
Proof. intros H. unfold emitted. rewrite H. apply skipn_exact. Qed.

(** X15: With [--dry-run], a run changes no file at all. *)
Theorem main_dry_run fs args w :
  arg_dry_run args = true ->
  exists w', final_world (main fs args w) = Some w' /\ files w' = files w.
Proof.
  intros Hd. unfold main.
  destruct (isdir fs (arg_directory args)); cbn [negb].
  - destruct (process_files_steps (arg_dry_run args) (arg_verbose args)
                (find_header_files fs (arg_directory args)) w)
      as (w' & ms & -> & _ & _ & Hf & _).
    exists w'. split; [reflexivity | now apply Hf].
  - now exists w.
Qed.

Lemma main_dry_run_witness :
  exists w',
    final_world
      (main x_fs {| arg_directory := py "proj"; arg_dry_run := true;
                    arg_verbose := false |} x_world) = Some w' /\
    files w' = files x_world.
Proof.
  apply (main_dry_run x_fs
           {| arg_directory := py "proj"; arg_dry_run := true;
              arg_verbose := false |} x_world).
  reflexivity.
Defined.

(** X16: With [--verbose], a run on a directory prints the number of header
    files, then one line for each of them, in the order in which
    [find_header_files] returns them, then "Processing complete". *)
Theorem main_verbose fs args w :
  arg_verbose args = true -> isdir fs (arg_directory args) = true ->
  exists ms w',
    main fs args w
    = Finished
        (FoundHeaderFiles
           (List.length (find_header_files fs (arg_directory args)))
         :: map FileMessage ms ++ [ProcessingComplete]) w' /\
    map message_path ms
    = map string_of_list_ascii (find_header_files fs (arg_directory args)).
Proof.
  intros Hv Hd. unfold main. rewrite Hd, Hv. cbn [negb].
  destruct (process_files_steps (arg_dry_run args) true
              (find_header_files fs (arg_directory args)) w)
    as (w' & ms & -> & _ & _ & _ & Hp & Hm).
  exists ms, w'. rewrite (emitted_app _ _ _ Hp). split; [reflexivity|].
  now apply Hm.
Qed.

Lemma main_verbose_witness :
  exists ms w',
    main x_fs {| arg_directory := py "proj"; arg_dry_run := false;
                 arg_verbose := true |} x_world
    = Finished
        (FoundHeaderFiles
           (List.length (find_header_files x_fs (py "proj")))
         :: map FileMessage ms ++ [ProcessingComplete]) w' /\
    map message_path ms
    = map string_of_list_ascii (find_header_files x_fs (py "proj")).
Proof.
  apply (main_verbose x_fs
           {| arg_directory := py "proj"; arg_dry_run := false;
              arg_verbose := true |} x_world); reflexivity.
Defined.

(** ** The plain guard *)

Lemma ends_tight_app x y :
  ends_tight (x ++ y) -> y <> [] -> y <> [NL] -> ends_tight y.
Proof.
  intros (a & d & E & Hd) Hy Hy'. symmetry in E.
  apply cut_cases in E as [(z & -> & E) | (y' & Hn & -> & E)].
  - exists z, d. now split.
  - exfalso. destruct y' as [|c1 [|c2 [|c3 y']]]; [now apply Hn | | |].
    + injection E as <- <-. now apply Hy'.
    + injection E as <- <- E. now apply Hy.
    + injection E as _ _ E. destruct y'; discriminate E.
Qed.

Lemma ends_tight_not_space s : ends_tight s -> all_space s = false.
Proof.
  intros (a & d & -> & Hd). rewrite all_space_app. cbn [all_space forallb].
  rewrite Hd. apply andb_false_r.
Qed.

Lemma forallb_skipn {A} (f : A -> bool) l k :
  forallb f l = true -> forallb f (skipn k l) = true.
Proof.
  rewrite <- (firstn_skipn k l) at 1. rewrite forallb_app.
  intros H. now apply andb_prop in H.
Qed.

(** The lines of a text that ends tight and has no directive line hold
    no match of the directive pattern. *)
Lemma find_dir_body : forall n body rest_ p,
  List.length body <= n -> ends_tight body ->
  Forall (fun ln => classify_line ln = None) (split_lines body) ->
  dir_here (body ++ rest_) = None /\
  find_dir true (body ++ rest_) p = find_dir true rest_ (p + List.length body).
Proof.
  induction n as [|n IH]; intros body rest_ p Hn Ht Hc.
  { destruct Ht as (a & d & -> & _). rewrite length_app in Hn. cbn in Hn. lia. }
  destruct (first_line body) as (ln & Hln & [-> | (body' & ->)]).
  { exfalso. destruct Ht as (a & d & -> & _).
    rewrite !forallb_app in Hln. cbn in Hln.
    now rewrite !andb_false_r in Hln. }
  rewrite (split_lines_line ln body' Hln) in Hc.
  apply Forall_cons_iff in Hc as [Hc1 Hc2].
  rewrite <- !app_assoc. cbn [app].
  assert (Hnext : dir_here (ln ++ NL :: body' ++ rest_) = None ->
                  find_dir true (ln ++ NL :: body' ++ rest_) p
                  = find_dir true (body' ++ rest_) (S (p + List.length ln))).
  { intros Hd. rewrite (find_dir_next_line ln _ p Hln Hd).
    apply find_dir_false_nl. }
  assert (Hlen : List.length (ln ++ NL :: body')
                 = S (List.length ln + List.length body')).
  { rewrite length_app. cbn. lia. }
  destruct body' as [|c body'].
  - (* the last line of the text *)
    assert (Hs : all_space ln = false).
    { destruct Ht as (a & d & E & Hd).
      change (a ++ [d; NL]) with (a ++ [d] ++ [NL]) in E.
      rewrite app_assoc in E. apply app_inj_tail in E as [-> _].
      rewrite all_space_app. cbn [all_space forallb]. rewrite Hd.
      apply andb_false_r. }
    assert (Hd : dir_here (ln ++ NL :: [] ++ rest_) = None).
    { rewrite (dir_here_line ln (NL :: [] ++ rest_) Hln); [|right; now eexists|exact Hs].
      now rewrite Hc1. }
    split; [exact Hd|]. rewrite (Hnext Hd). cbn [app]. f_equal.
    rewrite Hlen. cbn. lia.
  - assert (Ht' : ends_tight (c :: body')).
    { change (ln ++ NL :: c :: body') with (ln ++ [NL] ++ c :: body') in Ht.
      rewrite app_assoc in Ht. apply ends_tight_app in Ht; [exact Ht | discriminate |].
      intros [= -> ->]. destruct Ht as (a & d & E & Hd).
      change (a ++ [d; NL]) with (a ++ [d] ++ [NL]) in E.
      rewrite (app_assoc a) in E. apply app_inj_tail in E as [E _].
      apply app_inj_tail in E as [_ <-]. discriminate Hd. }
    destruct (IH (c :: body') rest_ (S (p + List.length ln)))
      as [Hd' Hf']; [rewrite Hlen in Hn; cbn in Hn |- *; lia | exact Ht' | exact Hc2 |].
    assert (Hd : dir_here (ln ++ NL :: (c :: body') ++ rest_) = None).
    { destruct (all_space ln) eqn:Hs.
      - rewrite (dir_here_blank ln _ Hs). now rewrite Hd'.
      - rewrite (dir_here_line ln (NL :: (c :: body') ++ rest_) Hln);
          [|right; now eexists|exact Hs].
        now rewrite Hc1. }
    split; [exact Hd|]. rewrite (Hnext Hd), Hf'. f_equal.
    rewrite Hlen. cbn [List.length]. lia.
Qed.

Lemma dir_here_endif L :
  dir_here ("#"%char :: "e"%char :: "n"%char :: "d"%char :: "i"%char
            :: "f"%char :: L)
  = Some (0 + 1 + 5 + List.length (take_while not_nl L), py "endif").
Proof. reflexivity. Qed.

(** The first directive after a body with no directive line is the
    [#endif] that follows it. *)
Lemma terminator_plain body ws2 t tl :
  ends_tight body ->
  Forall (fun ln => classify_line ln = None) (split_lines body) ->
  all_space ws2 = true -> forallb not_nl t = true -> ends_line tl ->
  terminator 1 (directives (body ++ ws2 ++ py "#endif" ++ t ++ tl))
  = Some (List.length body,
          List.length body + List.length (ws2 ++ py "#endif" ++ t)).
Proof.
  intros Ht Hc Hw Hnt Htl. unfold directives. cbn [dirs].
  destruct (find_dir_body (List.length body) body
              (ws2 ++ py "#endif" ++ t ++ tl) 0 (Nat.le_refl _) Ht Hc)
    as [_ ->].
  assert (Hd : dir_here (ws2 ++ py "#endif" ++ t ++ tl)
               = Some (List.length (ws2 ++ py "#endif" ++ t), py "endif")).
  { rewrite (dir_here_ws _ _ Hw).
    change (py "#endif" ++ t ++ tl)
      with ("#"%char :: "e"%char :: "n"%char :: "d"%char :: "i"%char
            :: "f"%char :: t ++ tl).
    rewrite dir_here_endif, take_while_run; [| exact Hnt |].
    - f_equal. f_equal. rewrite !length_app. cbn. lia.
    - destruct Htl as [-> | (l' & ->)]; [exact I | reflexivity]. }
  destruct (ws2 ++ py "#endif" ++ t ++ tl) as [|c l] eqn:E;
    [cbn in Hd; discriminate Hd|].
  cbn [find_dir]. rewrite Hd. cbn [terminator].
  change (str_eqb (py "endif") (py "if")) with false. cbn iota.
  reflexivity.
Qed.

Lemma line_start_after a y :
  a = [] \/ ends_nl a -> line_start true (a ++ y) (List.length a) = true.
Proof.
  intros [-> | (a' & ->)]; [reflexivity|].
  rewrite length_app. cbn [List.length]. rewrite Nat.add_1_r.
  cbn [line_start]. rewrite <- app_assoc, nth_error_app2 by lia.
  rewrite Nat.sub_diag. reflexivity.
Qed.

(** A guard right after a prologue that ends tight and holds no [#] is
    the one that is located. *)
Lemma locate_after_prologue pre l n name :
  pre = [] \/ ends_tight pre -> no_hash pre = true ->
  guard_here l = Some (n, name) ->
  locate (pre ++ l) = Some (List.length pre, n, name).
Proof.
  intros Hp Hh Hg.
  assert (Hls : line_start true (pre ++ l) (List.length pre) = true).
  { apply line_start_after. destruct Hp as [-> | (a & d & -> & _)];
      [now left | right].
    exists (a ++ [d]). now rewrite <- app_assoc. }
  assert (Hat : guard_here (skipn (List.length pre) (pre ++ l)) = Some (n, name))
    by (now rewrite skipn_exact).
  unfold locate.
  destruct (find_guard true (pre ++ l) 0) as [[[p n'] name']|] eqn:E.
  - apply find_guard_some in E as (k & -> & _ & Hl & Hg' & Hmin). cbn [Nat.add].
    destruct (Nat.lt_total k (List.length pre)) as [Hk | [-> | Hk]].
    + exfalso. destruct Hp as [-> | Ht]; [cbn in Hk; lia|].
      rewrite skipn_app_lt in Hg' by lia.
      rewrite guard_here_no_hash in Hg'; [discriminate | now apply forallb_skipn |].
      destruct Ht as (a & d & -> & Hd).
      rewrite length_app in Hk. cbn [List.length] in Hk.
      destruct (Nat.eq_dec k (S (List.length a))) as [-> | Hne].
      * cbn [line_start] in Hl. rewrite <- app_assoc in Hl.
        rewrite nth_error_app2, Nat.sub_diag in Hl by lia. cbn in Hl.
        apply Ascii.eqb_eq in Hl. subst d. discriminate Hd.
      * rewrite skipn_app_lt by lia. rewrite all_space_app.
        cbn [all_space forallb]. rewrite Hd. apply andb_false_r.
    + rewrite Hat in Hg'. now injection Hg' as <- <-.
    + rewrite (Hmin _ Hk Hls) in Hat. discriminate Hat.
  - rewrite (find_guard_none _ _ _ E _ Hls) in Hat. discriminate Hat.
Qed.

Lemma trail_cons b l :
  trail (b :: l) =
  if is_space b then
    match trail l with
    | Some n => Some (S n)
    | None => if Ascii.eqb b NL then Some 1 else None
    end
  else None.
Proof. reflexivity. Qed.

Lemma trail_blank_lines ws1 c x :
  all_space ws1 = true -> ws1 = [] \/ ends_nl ws1 -> is_space c = false ->
  trail (NL :: ws1 ++ c :: x) = Some (S (List.length ws1)).
Proof.
  intros Hw He Hc.
  assert (Hn : trail (c :: x) = None) by (rewrite trail_cons; now rewrite Hc).
  assert (H : forall w, all_space w = true ->
                trail (w ++ NL :: c :: x) = Some (S (List.length w))).
  { induction w as [|b w IHw]; intros Hb.
    - cbn [app List.length]. now rewrite trail_cons, is_space_NL, Hn.
    - cbn [all_space forallb] in Hb. apply andb_prop in Hb as [Hb1 Hb2].
      cbn [app List.length]. now rewrite trail_cons, Hb1, (IHw Hb2). }
  destruct He as [-> | (w & ->)].
  - exact (H [] eq_refl).
  - rewrite all_space_app in Hw. apply andb_prop in Hw as [Hw _].
    rewrite <- app_assoc. cbn [app].
    change (NL :: w ++ NL :: c :: x) with ((NL :: w) ++ NL :: c :: x).
    rewrite H by (cbn [all_space forallb]; now rewrite is_space_NL).
    rewrite length_app. cbn. f_equal. lia.
Qed.

(** X17: The usual header: a prologue without [#] (a licence comment, or
    nothing), an [#ifndef NAME] / [#define NAME] pair, possibly with
    blank lines around it, a body none of whose lines is a conditional
    directive, and the [#endif] line, possibly with a comment after
    [#endif] and blank lines around it.  The result is the prologue,
    the marker and the body: the guard lines, the [#endif] line and
    the blank lines next to them are gone, the rest is as it was. *)
Theorem replace_plain_guard pre ws0 name ws1 body ws2 t tl :
  pre = [] \/ ends_tight pre -> no_hash pre = true ->
  all_space ws0 = true ->
  all_word name = true -> name <> [] ->
  all_space ws1 = true -> ws1 = [] \/ ends_nl ws1 ->
  (exists c b, body = c :: b /\ is_space c = false) -> ends_tight body ->
  Forall (fun ln => classify_line ln = None) (split_lines body) ->
  all_space ws2 = true -> forallb not_nl t = true ->
  ends_line tl -> all_space tl = true ->
  replace_header_guard
    (pre ++ ws0 ++ py "#ifndef " ++ name ++ NL :: py "#define " ++ name
         ++ NL :: ws1 ++ body ++ ws2 ++ py "#endif" ++ t ++ tl)
  = Return (Some (pre ++ pragma_once ++ body)).
Proof.
  intros Hp Hh H0 Hn1 Hn2 H1 H1' (c & b & Hb & Hc) Ht Hcl H2 Hnt Htl Hstl.
  set (post := body ++ ws2 ++ py "#endif" ++ t ++ tl).
  set (G := ws0 ++ py "#ifndef" ++ [" "%char] ++ name ++ [NL]
                ++ py "#define" ++ [" "%char] ++ name).
  assert (Hcontent :
            pre ++ ws0 ++ py "#ifndef " ++ name ++ NL :: py "#define " ++ name
                ++ NL :: ws1 ++ post
            = pre ++ G ++ (NL :: ws1) ++ post).
  { unfold G. now rewrite <- !app_assoc. }
  fold post. rewrite Hcontent.
  assert (Hg : guard_here (G ++ (NL :: ws1) ++ post)
               = Some (List.length G + S (List.length ws1), name)).
  { unfold G. rewrite <- !app_assoc.
    apply (guard_here_build ws0 [" "%char] name [NL] [" "%char]
             ((NL :: ws1) ++ post) (S (List.length ws1)));
      try reflexivity; try discriminate; auto.
    unfold post. rewrite Hb. cbn [app]. now apply trail_blank_lines. }
  assert (Hskip : skipn (List.length pre + (List.length G + S (List.length ws1)))
                    (pre ++ G ++ (NL :: ws1) ++ post) = post).
  { rewrite !app_assoc.
    replace (List.length pre + (List.length G + S (List.length ws1)))
      with (List.length ((pre ++ G) ++ NL :: ws1))
      by (rewrite !length_app; cbn [List.length]; lia).
    apply skipn_exact. }
  rewrite replace_header_guard_eq. f_equal. unfold rewritten, guard_parts.
  rewrite (locate_after_prologue pre _ _ _ Hp Hh Hg), Hskip.
  unfold post at 1. rewrite (terminator_plain body ws2 t tl Ht Hcl H2 Hnt Htl).
  f_equal. unfold rebuild. rewrite Hskip, firstn_exact.
  assert (Htail : skipn (List.length pre + (List.length G + S (List.length ws1))
                         + (List.length body
                            + List.length (ws2 ++ py "#endif" ++ t)))
                    (pre ++ G ++ (NL :: ws1) ++ post) = tl).
  { unfold post. rewrite !app_assoc.
    match goal with
    | |- skipn ?n (?A ++ tl) = tl =>
        replace n with (List.length A)
          by (rewrite !length_app; cbn [List.length]; lia)
    end.
    apply skipn_exact. }
  rewrite Htail. unfold post. rewrite firstn_exact.
  destruct Ht as (a & d & -> & Hd).
  rewrite !app_assoc, (rstrip_all_space _ tl Hstl).
  change [d; NL] with ([d] ++ [NL]).
  rewrite !app_assoc, (rstrip_all_space _ [NL] eq_refl).
  now rewrite rstrip_last.
Qed.

Lemma replace_plain_guard_witness :
  replace_header_guard
    (lines_nl ["// licence"; "// text"] ++ [NL] ++ py "#ifndef " ++ py "X_H"
       ++ NL :: py "#define " ++ py "X_H" ++ NL :: [NL]
       ++ lines_nl ["#include <a.h>"; ""; "#define N 1"; "int f();"]
       ++ [NL] ++ py "#endif" ++ py "  // X_H" ++ [NL])
  = Return (Some (lines_nl ["// licence"; "// text"] ++ pragma_once
                    ++ lines_nl ["#include <a.h>"; ""; "#define N 1";
                                 "int f();"])).
Proof.
  apply (replace_plain_guard (lines_nl ["// licence"; "// text"]) [NL]
           (py "X_H") [NL]
           (lines_nl ["#include <a.h>"; ""; "#define N 1"; "int f();"])
           [NL] (py "  // X_H") [NL]); try reflexivity.
  - right. exists (py "// licence" ++ NL :: py "// tex"), "t"%char.
    split; reflexivity.
  - discriminate.
  - right. now exists [].
  - eexists _, _. split; reflexivity.
  - exists (lines_nl ["#include <a.h>"; ""; "#define N 1"] ++ py "int f()"),
           ";"%char.
    split; reflexivity.
  - repeat constructor.
  - right. now eexists.
Defined.

(** ** A guard that is not closed *)

(** X18: When [#endif] does not occur in the text after the guard that is
    located, the loop finds no match that empties the stack and [None]
    is returned. *)
Theorem replace_header_guard_no_endif content match_ guard_end_pos :
  search header_guard_pattern content = Some match_ ->
  end_ match_ 2 = Some guard_end_pos ->
  count_occ_str (py "#endif") (skipn guard_end_pos content) = 0 ->
  replace_header_guard content = Return None.
Proof.
  intros Hs He H0. rewrite replace_header_guard_eq. f_equal.
  destruct (search_some_locate _ _ Hs) as (p & n & name & Hl & _ & _ & He' & _).
  rewrite He in He'. injection He' as ->.
  unfold rewritten, guard_parts. rewrite Hl.
  destruct (terminator 1 (directives (skipn (p + n) content)))
    as [[s e]|] eqn:Et; [|reflexivity].
  exfalso.
  destruct (terminator_in _ _ _ _ Et) as (n' & kw & Hin & _ & Hkw).
  assert (Hk : kw = py "endif").
  { destruct (dirs_kw _ _ _ _ _ _ _ Hin) as [-> | ->];
      [discriminate Hkw | reflexivity]. }
  subst kw.
  destruct (dirs_in _ _ _ _ _ _ _ Hin) as (k & _ & _ & _ & Hd).
  destruct (dir_here_shape _ _ _ Hd) as (w & x & tl & Hsh & _).
  pose proof (count_occ_zero (py "#endif") ltac:(discriminate)
                (skipn (p + n) content) (k + List.length w) H0) as Hz.
  rewrite Nat.add_comm, <- skipn_skipn, Hsh, skipn_exact in Hz.
  discriminate Hz.
Qed.

Lemma replace_header_guard_no_endif_witness :
  replace_header_guard (lines_nl ["#ifndef A"; "#define A"; "int x;"])
  = Return None.
Proof.
  destruct (search header_guard_pattern
              (lines_nl ["#ifndef A"; "#define A"; "int x;"])) as [m|] eqn:E;
    [|vm_compute in E; discriminate E].
  apply (replace_header_guard_no_endif _ m 20 E).
  - vm_compute in E. injection E as <-. reflexivity.
  - reflexivity.
Defined.

(** * The match that closes the guard *)

Lemma is_close_endif g : is_close g = true -> g = Some (py "endif").
Proof.
  unfold is_close, opt_eqb. destruct g as [t|]; [|discriminate].
  intros H. apply str_eqb_eq in H. now subst.
Qed.

(** The loop stops at the first match at which the depth is zero, and
    builds the text from the span of that match. *)
Lemma scan_closes content pre post ge : forall ms1 stack dm ms2,
  stack <> [] ->
  Forall (fun d => d <> 0) (depth_trace (List.length stack) (groups1 ms1)) ->
  depth_after (List.length stack) (groups1 (ms1 ++ [dm])) = 0 ->
  scan content pre post ge stack (ms1 ++ dm :: ms2)
  = Return (Some (rebuild content pre post ge (m_start dm) (m_end dm))) /\
  group dm 1 = Some (py "endif").
Proof.
  induction ms1 as [|m ms1 IH]; intros stack dm ms2 Hs Hz Hd.
  - cbn [app groups1 map depth_after] in Hd. cbn [app scan].
    fold (is_open (group dm 1)) (is_close (group dm 1)).
    unfold step_depth in Hd.
    destruct (is_open (group dm 1)); [discriminate|].
    destruct (is_close (group dm 1)) eqn:Ec.
    + destruct stack as [|x [|y stack]];
        [now elim Hs | | cbn in Hd; discriminate].
      cbn [pop]. split; [reflexivity | now apply is_close_endif].
    + destruct stack; [now elim Hs | cbn in Hd; discriminate].
  - cbn [app groups1 map depth_trace depth_after] in Hz, Hd.
    inversion Hz as [|? ? H1 H2]; subst.
    cbn [app scan]. fold (is_open (group m 1)) (is_close (group m 1)).
    unfold step_depth in H1, H2, Hd.
    destruct (is_open (group m 1)) eqn:Eo.
    + destruct (is_open_some _ Eo) as (d & ->).
      apply (IH (("#"%char :: d) :: stack)); [discriminate | exact H2 | exact Hd].
    + destruct (is_close (group m 1)) eqn:Ec.
      * destruct stack as [|x [|y stack]];
          [now elim Hs | cbn in H1; now elim H1 |].
        cbn [pop]. apply (IH (y :: stack)); [discriminate | exact H2 | exact Hd].
      * apply IH; assumption.
Qed.

(** Either the depth is never zero, or there is a first directive at
    which it is. *)
Lemma depth_first_zero : forall gs d,
  Forall (fun x => x <> 0) (depth_trace d gs) \/
  exists gs1 g gs2,
    gs = gs1 ++ g :: gs2 /\
    Forall (fun x => x <> 0) (depth_trace d gs1) /\
    depth_after d (gs1 ++ [g]) = 0.
Proof.
  induction gs as [|g gs IH]; intros d; [left; constructor|].
  destruct (Nat.eq_dec (step_depth g d) 0) as [E|E].
  - right. exists [], g, gs. split; [reflexivity|].
    split; [constructor | exact E].
  - destruct (IH (step_depth g d)) as [H | (gs1 & g' & gs2 & -> & H1 & H2)].
    + left. now constructor.
    + right. exists (g :: gs1), g', gs2. split; [reflexivity|].
      split; [now constructor | exact H2].
Qed.

Lemma groups1_split ms gs1 g gs2 :
  groups1 ms = gs1 ++ g :: gs2 ->
  exists ms1 dm ms2,
    ms = ms1 ++ dm :: ms2 /\ groups1 ms1 = gs1 /\ group dm 1 = g.
Proof.
  unfold groups1. intros H.
  apply map_eq_app in H as (ms1 & r & -> & H1 & H).
  apply map_eq_cons in H as (dm & ms2 & -> & Hg & _).
  now exists ms1, dm, ms2.
Qed.

(** What a match of the directive pattern spans. *)
Lemma directive_match_span text dm :
  In dm (finditer directive_pattern text) ->
  exists kw w x tl,
    group dm 1 = Some kw /\
    skipn (m_start dm) text = w ++ "#"%char :: kw ++ x ++ tl /\
    m_end dm = m_start dm + List.length (w ++ "#"%char :: kw ++ x) /\
    m_end dm <= List.length text /\
    all_space w = true /\ forallb not_nl x = true /\ ends_line tl.
Proof.
  intros Hin. apply (in_map obs) in Hin. rewrite finditer_directives in Hin.
  apply in_map_iff in Hin as ([[q n] kw] & Ho & Hd).
  unfold obs, obs_of in Ho. injection Ho as Hs He Hg.
  unfold directives in Hd.
  apply dirs_in in Hd as (k & Hq & Hle & _ & Hdir). cbn in Hq. subst k.
  destruct (dir_here_shape _ _ _ Hdir) as (w & x & tl & Hsh & Hn & Hw & Hx & Htl & _).
  exists kw, w, x, tl. rewrite <- Hs, <- He, <- Hg, <- Hn.
  repeat (split; [assumption || reflexivity|]). exact Htl.
Qed.

(** The matches follow one another in the text. *)
Lemma ordered_app_before : forall a lo q n kw b,
  ordered lo (a ++ (q, n, kw) :: b) ->
  Forall (fun d => fst (fst d) + snd (fst d) <= q) a.
Proof.
  induction a as [|[[q0 n0] kw0] a IH]; intros lo q n kw b H; [constructor|].
  cbn [app ordered] in H. destruct H as (_ & _ & H). constructor.
  - cbn [fst snd]. clear IH. revert H. generalize (q0 + n0) as lo'.
    induction a as [|[[q1 n1] kw1] a IHa]; intros lo' H; cbn [app ordered] in H.
    + now destruct H.
    + destruct H as (H1 & H2 & H3). specialize (IHa _ H3). lia.
  - exact (IH _ _ _ _ _ H).
Qed.

Lemma finditer_before text ms1 dm ms2 :
  finditer directive_pattern text = ms1 ++ dm :: ms2 ->
  Forall (fun m => m_end m <= m_start dm) ms1.
Proof.
  intros H. pose proof (finditer_directives text) as E. rewrite H in E.
  rewrite map_app in E. cbn [map] in E. symmetry in E.
  apply map_eq_app in E as (ds1 & r & Ed & E1 & E).
  apply map_eq_cons in E as ([[q n] kw] & ds2 & -> & Eo & _).
  pose proof (dirs_ordered (S (List.length text)) text true 0) as Ho.
  fold (directives text) in Ho. rewrite Ed in Ho.
  apply ordered_app_before in Ho.
  unfold obs, obs_of in Eo. injection Eo as Hs _ _.
  clear H Ed. revert ds1 E1 Ho.
  induction ms1 as [|m ms1 IH]; intros ds1 E1 Ho; [constructor|].
  destruct ds1 as [|[[q1 n1] kw1] ds1]; [discriminate|].
  cbn [map] in E1. unfold obs_of at 1, obs at 1 in E1.
  injection E1 as Hq Hend Hkw E1. inversion Ho as [|? ? Hh Ht]; subst.
  constructor; [|exact (IH _ E1 Ht)].
  cbn [fst snd] in Hh. rewrite <- Hend. exact Hh.
Qed.

(** When a text is returned: the guard match, the match that closes the
    guard, which is the first at which the depth is zero, and the text as
    they cut it. *)
Lemma replace_header_guard_split content out :
  replace_header_guard content = Return (Some out) ->
  exists m pre g ms1 dm ms2 body w x suffix,
    search header_guard_pattern content = Some m /\
    group m 1 = Some pre /\ start m 2 = Some (List.length pre) /\
    end_ m 2 = Some (List.length (pre ++ g)) /\
    content = pre ++ g ++ body ++ (w ++ py "#endif" ++ x) ++ suffix /\
    finditer directive_pattern (skipn (List.length (pre ++ g)) content)
    = ms1 ++ dm :: ms2 /\
    never_zero ms1 /\ depth_after 1 (groups1 (ms1 ++ [dm])) = 0 /\
    group dm 1 = Some (py "endif") /\
    m_start dm = List.length body /\
    m_end dm = List.length (body ++ w ++ py "#endif" ++ x) /\
    all_space w = true /\ forallb not_nl x = true /\ ends_line suffix /\
    out = rstrip (pre ++ pragma_once ++ body ++ suffix) ++ [NL].
Proof.
  intros H.
  destruct (search header_guard_pattern content) as [m|] eqn:Hm;
    [|unfold replace_header_guard in H; rewrite Hm in H; discriminate H].
  destruct (search_some_locate _ _ Hm) as (p & n & name & Hl & H1 & H2 & H3 & _).
  unfold replace_header_guard in H. rewrite Hm, H1, H2, H3 in H. cbn zeta in H.
  unfold locate in Hl.
  apply find_guard_some in Hl as (k & Hp & Hk & _ & Hg & _).
  cbn in Hp. subst k.
  pose proof (guard_here_le _ _ _ Hg) as Hn. rewrite length_skipn in Hn.
  set (post := skipn (p + n) content) in *.
  destruct (depth_first_zero (groups1 (finditer directive_pattern post)) 1)
    as [Hz | (gs1 & g0 & gs2 & Eg & Hz & Hd)].
  { rewrite (scan_never_zero content (firstn p content) post (p + n)
               (finditer directive_pattern post) [py "#ifndef"] Hz) in H.
    discriminate H. }
  apply groups1_split in Eg as (ms1 & dm & ms2 & Ems & <- & <-).
  assert (Hd' : depth_after 1 (groups1 (ms1 ++ [dm])) = 0)
    by (unfold groups1 in *; now rewrite map_app).
  destruct (scan_closes content (firstn p content) post (p + n) ms1
              [py "#ifndef"] dm ms2 ltac:(discriminate) Hz Hd')
    as [Hscan Hkw].
  rewrite Ems, Hscan in H. injection H as <-.
  destruct (directive_match_span post dm)
    as (kw & w & x & tl & Hg1 & Hsh & He & Hle & Hw & Hx & Htl);
    [rewrite Ems; apply in_elt|].
  rewrite Hkw in Hg1. injection Hg1 as <-.
  set (s := m_start dm) in *.
  assert (Lpre : List.length (firstn p content) = p)
    by (rewrite length_firstn; lia).
  assert (Lg : List.length (firstn n (skipn p content)) = n)
    by (rewrite length_firstn, length_skipn; lia).
  assert (Lb : List.length (firstn s post) = s)
    by (rewrite length_firstn; lia).
  assert (Hpost : post = firstn s post ++ (w ++ py "#endif" ++ x) ++ tl).
  { rewrite <- (firstn_skipn s post) at 1. f_equal. rewrite Hsh.
    now rewrite <- !app_assoc. }
  assert (Hcont : content
                  = firstn p content ++ firstn n (skipn p content) ++ post).
  { rewrite <- (firstn_skipn p content) at 1. f_equal.
    rewrite <- (firstn_skipn n (skipn p content)) at 1. f_equal.
    unfold post. rewrite skipn_skipn. f_equal. lia. }
  assert (Lpg : List.length (firstn p content ++ firstn n (skipn p content))
                = p + n) by (rewrite length_app; lia).
  assert (Hend : m_end dm
                 = List.length (firstn s post ++ w ++ py "#endif" ++ x)).
  { rewrite He, (length_app (firstn s post)), Lb. reflexivity. }
  exists m, (firstn p content), (firstn n (skipn p content)), ms1, dm, ms2,
         (firstn s post), w, x, tl.
  split; [reflexivity|]. split; [exact H1|].
  split; [now rewrite Lpre|]. split; [now rewrite Lpg|].
  split; [now rewrite <- Hpost|]. split; [now rewrite Lpg|].
  split; [exact Hz|]. split; [exact Hd'|]. split; [exact Hkw|].
  split; [now rewrite Lb|]. split; [exact Hend|].
  split; [exact Hw|]. split; [exact Hx|]. split; [exact Htl|].
  unfold rebuild. fold s. f_equal. f_equal. f_equal. f_equal. f_equal.
  replace (p + n + m_end dm) with (m_end dm + (p + n)) by lia.
  rewrite <- skipn_skipn. fold post. rewrite Hend.
  set (A := firstn s post ++ w ++ py "#endif" ++ x).
  assert (E : post = A ++ tl).
  { unfold A. rewrite <- !app_assoc. rewrite <- !app_assoc in Hpost.
    exact Hpost. }
  rewrite E. apply skipn_exact.
Qed.

Lemma rstrip_nonspace a c r :
  is_space c = false -> rstrip ((a ++ [c]) ++ r) = (a ++ [c]) ++ rstrip r.
Proof.
  intros Hc. destruct (all_space r) eqn:Er.
  - rewrite rstrip_all_space, (rstrip_nil r) by exact Er.
    rewrite app_nil_r. now apply rstrip_last.
  - now apply rstrip_keeps.
Qed.

(** C2: when the directives after the guard's [#define] are [N]
    complete blocks followed by one more [#endif], the loop stops at
    that [#endif], the (N+1)-th after the [#define]: the text returned
    is the text before the guard, the marker, the text up to the start
    of that match and the text after its end, trimmed; the [N] blocks,
    with their [#endif] lines, lie before that match and so in the body
    that is kept; the depth, seeded at 1, is above zero until then and
    zero there. *)
Theorem c2_nested_terminator content m pre gs ge ms1 dm ms2 N w :
  search header_guard_pattern content = Some m ->
  group m 1 = Some pre -> start m 2 = Some gs -> end_ m 2 = Some ge ->
  finditer directive_pattern (skipn ge content) = ms1 ++ dm :: ms2 ->
  map kind_of ms1 = map Some w -> nested N w ->
  kind_of dm = Some KClose ->
  replace_header_guard content =
    Return (Some (rstrip (pre ++ (NL :: py "#pragma once" ++ [NL; NL])
                              ++ firstn (m_start dm) (skipn ge content)
                              ++ skipn (ge + m_end dm) content)
                  ++ [NL])) /\
  Forall (fun m' => m_end m' <= m_start dm) ms1 /\
  count_close w = N /\
  Forall (fun d => d <> 0) (depth_trace 1 (groups1 ms1)) /\
  depth_after 1 (groups1 (ms1 ++ [dm])) = 0.
Proof.
  intros Hm H1 H2 H3 Hf Hk Hn Hc.
  destruct (nested_depth N w Hn ms1 1 Hk) as (Fd & Ed).
  apply kind_of_close in Hc as (Hc1 & Hc2).
  split; [|split; [|split; [|split]]].
  - unfold replace_header_guard. rewrite Hm, H1, H2, H3, Hf.
    rewrite (scan_nested content pre (skipn ge content) ge N w Hn ms1);
      [|exact Hk|discriminate].
    cbn [scan]. fold (is_open (group dm 1)) (is_close (group dm 1)).
    now rewrite Hc1, Hc2.
  - exact (finditer_before _ _ _ _ Hf).
  - now apply nested_count.
  - eapply Forall_impl; [|exact Fd]. cbn. intros; lia.
  - unfold groups1 in *. rewrite map_app, depth_after_app, Ed.
    cbn [map depth_after]. unfold step_depth. now rewrite Hc1, Hc2.
Qed.

(** C2, on the example of the specification: one block ([#ifdef FOO] ..
    [#endif]) and then the guard's [#endif], which is the second. *)
Lemma c2_witness :
  replace_header_guard c1_input =
    Return (Some (rstrip (lines_nl ["// license"]
                            ++ (NL :: py "#pragma once" ++ [NL; NL])
                            ++ firstn (m_start c2_endif) (skipn 35 c1_input)
                            ++ skipn (35 + m_end c2_endif) c1_input)
                  ++ [NL])) /\
  Forall (fun m' => m_end m' <= m_start c2_endif) (firstn 2 c2_matches) /\
  count_close [KOpen; KClose] = 1 /\
  Forall (fun d => d <> 0) (depth_trace 1 (groups1 (firstn 2 c2_matches))) /\
  depth_after 1 (groups1 (firstn 2 c2_matches ++ [c2_endif])) = 0.
Proof.
  apply (c2_nested_terminator c1_input c2_guard (lines_nl ["// license"]) 11 35
           (firstn 2 c2_matches) c2_endif (skipn 3 c2_matches) 1
           [KOpen; KClose]); try (vm_compute; reflexivity).
  apply (nested_block 0 0 [] [] nested_nil nested_nil).
Defined.

(** C9: when a text is returned, the content is the text before the
    guard, the guard, a body, the line of the [#endif] and a suffix,
    where the [#endif] is the match of [directive_pattern] at which the
    depth, seeded at 1, first comes back to zero: the body is the text
    before that match and the suffix the text after it.  The text
    returned is the text before the guard, the marker, the body and the
    suffix, trimmed at its end and closed by one line feed.  It begins
    with the text before the guard and the marker line; when the suffix
    has a character that is not white space, the body is kept whole;
    when it has none, the body is kept but for its trailing white
    space, blank lines included. *)
Theorem c9_prologue_body_kept content out :
  replace_header_guard content = Return (Some out) ->
  exists m pre g ms1 dm ms2 body e suffix w x,
    search header_guard_pattern content = Some m /\
    group m 1 = Some pre /\ start m 2 = Some (List.length pre) /\
    end_ m 2 = Some (List.length (pre ++ g)) /\
    finditer directive_pattern (skipn (List.length (pre ++ g)) content)
    = ms1 ++ dm :: ms2 /\
    Forall (fun d => d <> 0) (depth_trace 1 (groups1 ms1)) /\
    depth_after 1 (groups1 (ms1 ++ [dm])) = 0 /\
    group dm 1 = Some (py "endif") /\
    m_start dm = List.length body /\
    m_end dm = List.length (body ++ e) /\
    content = pre ++ g ++ body ++ e ++ suffix /\
    e = w ++ py "#endif" ++ x /\
    all_space w = true /\ forallb not_nl x = true /\
    out = rstrip (pre ++ (NL :: py "#pragma once" ++ [NL; NL])
                      ++ body ++ suffix) ++ [NL] /\
    (exists t, out = pre ++ NL :: py "#pragma once" ++ t) /\
    (all_space suffix = false ->
     out = pre ++ (NL :: py "#pragma once" ++ [NL; NL])
               ++ body ++ rstrip suffix ++ [NL]) /\
    (all_space suffix = true -> all_space body = false ->
     out = pre ++ (NL :: py "#pragma once" ++ [NL; NL])
               ++ rstrip body ++ [NL]).
Proof.
  intros H.
  apply replace_header_guard_split in H
    as (m & pre & g & ms1 & dm & ms2 & body & w & x & suffix & Hm & H1 & H2
        & H3 & Hc & Hf & Hz & Hd & Hg & Hs & He & Aw & Ax & _ & Ho).
  exists m, pre, g, ms1, dm, ms2, body, (w ++ py "#endif" ++ x), suffix, w, x.
  change (NL :: py "#pragma once" ++ [NL; NL]) with pragma_once.
  split; [exact Hm|]. split; [exact H1|]. split; [exact H2|].
  split; [exact H3|]. split; [exact Hf|]. split; [exact Hz|].
  split; [exact Hd|]. split; [exact Hg|]. split; [exact Hs|].
  split; [exact He|]. split; [exact Hc|]. split; [reflexivity|].
  split; [exact Aw|]. split; [exact Ax|]. split; [exact Ho|].
  split; [|split].
  - exists (rstrip ([NL; NL] ++ body ++ suffix) ++ [NL]).
    rewrite Ho. unfold pragma_once.
    replace (pre ++ (NL :: py "#pragma once" ++ [NL; NL]) ++ body ++ suffix)
      with ((pre ++ NL :: py "#pragma once") ++ [NL; NL] ++ body ++ suffix)
      by (cbn [app]; now rewrite <- !app_assoc).
    rewrite rstrip_marker. cbn [app]. now rewrite <- !app_assoc.
  - intros As. rewrite Ho.
    replace (pre ++ pragma_once ++ body ++ suffix)
      with ((pre ++ pragma_once ++ body) ++ suffix)
      by now rewrite <- !app_assoc.
    rewrite rstrip_keeps by exact As. now rewrite <- !app_assoc.
  - intros As Ab. rewrite Ho.
    replace (pre ++ pragma_once ++ body ++ suffix)
      with (((pre ++ pragma_once) ++ body) ++ suffix)
      by now rewrite <- !app_assoc.
    rewrite rstrip_all_space by exact As.
    rewrite rstrip_keeps by exact Ab. now rewrite <- !app_assoc.
Qed.

(** C9, on the example of the specification. *)
Lemma c9_witness :
  exists m pre g ms1 dm ms2 body e suffix w x,
    search header_guard_pattern c1_input = Some m /\
    group m 1 = Some pre /\ start m 2 = Some (List.length pre) /\
    end_ m 2 = Some (List.length (pre ++ g)) /\
    finditer directive_pattern (skipn (List.length (pre ++ g)) c1_input)
    = ms1 ++ dm :: ms2 /\
    Forall (fun d => d <> 0) (depth_trace 1 (groups1 ms1)) /\
    depth_after 1 (groups1 (ms1 ++ [dm])) = 0 /\
    group dm 1 = Some (py "endif") /\
    m_start dm = List.length body /\
    m_end dm = List.length (body ++ e) /\
    c1_input = pre ++ g ++ body ++ e ++ suffix /\
    e = w ++ py "#endif" ++ x /\
    all_space w = true /\ forallb not_nl x = true /\
    c1_actual = rstrip (pre ++ (NL :: py "#pragma once" ++ [NL; NL])
                            ++ body ++ suffix) ++ [NL] /\
    (exists t, c1_actual = pre ++ NL :: py "#pragma once" ++ t) /\
    (all_space suffix = false ->
     c1_actual = pre ++ (NL :: py "#pragma once" ++ [NL; NL])
                     ++ body ++ rstrip suffix ++ [NL]) /\
    (all_space suffix = true -> all_space body = false ->
     c1_actual = pre ++ (NL :: py "#pragma once" ++ [NL; NL])
                     ++ rstrip body ++ [NL]).
Proof.
  apply (c9_prologue_body_kept c1_input c1_actual).
  vm_compute. reflexivity.
Defined.

(** X5: When a text is returned, it is built from the match of
    [directive_pattern] that closes the guard, the first at which the
    depth, seeded at 1, comes back to zero, and that match is an
    [#endif]: with the code's [between_content], the text before that
    match, and [post_endif_content], the text after it, the text
    returned is the text before the guard, the marker, [between_content]
    and [post_endif_content] without its trailing white space, closed
    by a line feed; when [post_endif_content] is blank, it is the text
    before the guard, the marker and [between_content], trimmed and
    closed by a line feed. *)
Theorem replace_header_guard_keeps_rest content new_content :
  replace_header_guard content = Return (Some new_content) ->
  exists match_ pre_guard_content guard_end_pos ms1 directive_match ms2,
    search header_guard_pattern content = Some match_ /\
    group match_ 1 = Some pre_guard_content /\
    end_ match_ 2 = Some guard_end_pos /\
    finditer directive_pattern (skipn guard_end_pos content)
    = ms1 ++ directive_match :: ms2 /\
    Forall (fun d => d <> 0) (depth_trace 1 (groups1 ms1)) /\
    depth_after 1 (groups1 (ms1 ++ [directive_match])) = 0 /\
    group directive_match 1 = Some (py "endif") /\
    let between_content :=
      firstn (m_start directive_match) (skipn guard_end_pos content) in
    let post_endif_content :=
      skipn (guard_end_pos + m_end directive_match) content in
    (all_space post_endif_content = false ->
     new_content = pre_guard_content ++ (NL :: py "#pragma once" ++ [NL; NL])
                     ++ between_content ++ rstrip post_endif_content ++ [NL]) /\
    (all_space post_endif_content = true ->
     new_content = rstrip (pre_guard_content
                             ++ (NL :: py "#pragma once" ++ [NL; NL])
                             ++ between_content) ++ [NL]).
Proof.
  intros H.
  apply replace_header_guard_split in H
    as (m & pre & g & ms1 & dm & ms2 & body & w & x & suffix & Hm & H1 & H2
        & H3 & Hc & Hf & Hz & Hd & Hg & Hs & He & Aw & Ax & _ & Ho).
  exists m, pre, (List.length (pre ++ g)), ms1, dm, ms2.
  split; [exact Hm|]. split; [exact H1|]. split; [exact H3|].
  split; [exact Hf|]. split; [exact Hz|]. split; [exact Hd|].
  split; [exact Hg|].
  set (e := w ++ py "#endif" ++ x) in *.
  assert (Eb : firstn (m_start dm) (skipn (List.length (pre ++ g)) content)
               = body).
  { rewrite Hc at 1. rewrite app_assoc, skipn_exact, Hs. apply firstn_exact. }
  assert (Es : skipn (List.length (pre ++ g) + m_end dm) content = suffix).
  { replace (List.length (pre ++ g) + m_end dm)
      with (m_end dm + List.length (pre ++ g)) by lia.
    rewrite <- skipn_skipn. rewrite Hc at 1.
    rewrite app_assoc, skipn_exact, He, app_assoc. apply skipn_exact. }
  cbn zeta. rewrite Eb, Es.
  change (NL :: py "#pragma once" ++ [NL; NL]) with pragma_once.
  split.
  - intros As. rewrite Ho.
    replace (pre ++ pragma_once ++ body ++ suffix)
      with ((pre ++ pragma_once ++ body) ++ suffix)
      by now rewrite <- !app_assoc.
    rewrite rstrip_keeps by exact As. now rewrite <- !app_assoc.
  - intros As. rewrite Ho.
    replace (pre ++ pragma_once ++ body ++ suffix)
      with ((pre ++ pragma_once ++ body) ++ suffix)
      by now rewrite <- !app_assoc.
    now rewrite rstrip_all_space by exact As.
Qed.

(** X5, on the example of the specification. *)
Lemma replace_header_guard_keeps_rest_witness :
  exists match_ pre_guard_content guard_end_pos ms1 directive_match ms2,
    search header_guard_pattern c1_input = Some match_ /\
    group match_ 1 = Some pre_guard_content /\
    end_ match_ 2 = Some guard_end_pos /\
    finditer directive_pattern (skipn guard_end_pos c1_input)
    = ms1 ++ directive_match :: ms2 /\
    Forall (fun d => d <> 0) (depth_trace 1 (groups1 ms1)) /\
    depth_after 1 (groups1 (ms1 ++ [directive_match])) = 0 /\
    group directive_match 1 = Some (py "endif") /\
    let between_content :=
      firstn (m_start directive_match) (skipn guard_end_pos c1_input) in
    let post_endif_content :=
      skipn (guard_end_pos + m_end directive_match) c1_input in
    (all_space post_endif_content = false ->
     c1_actual = pre_guard_content ++ (NL :: py "#pragma once" ++ [NL; NL])
                   ++ between_content ++ rstrip post_endif_content ++ [NL]) /\
    (all_space post_endif_content = true ->
     c1_actual = rstrip (pre_guard_content
                           ++ (NL :: py "#pragma once" ++ [NL; NL])
                           ++ between_content) ++ [NL]).
Proof.
  apply (replace_header_guard_keeps_rest c1_input c1_actual).
  vm_compute. reflexivity.
Defined.

Lemma depth_trace_kinds : forall ms ks d,
  map kind_of ms = map Some ks ->
  depth_trace d (groups1 ms) = kinds_trace d ks.
Proof.
  induction ms as [|m ms IH]; intros [|k ks] d H; try discriminate H;
    [reflexivity|].
  cbn [map] in H. injection H as Hk Hr.
  cbn [groups1 map depth_trace kinds_trace]. fold (groups1 ms).
  assert (E : step_depth (group m 1) d = bump k d).
  { unfold step_depth. destruct k.
    - now rewrite (kind_of_open _ Hk).
    - now destruct (kind_of_close _ Hk) as [-> ->]. }
  rewrite E. f_equal. now apply IH.
Qed.

(** C8 (as the code has it): the matches of the directive pattern are,
    in document order, the lines whose first characters after any white
    space are [#if] (also in [#ifdef], [#ifndef] and any longer word) or
    [#endif]; the depths the scan goes through are those of these lines,
    one more after each of the former and one less after each of the
    latter; [#elif] and [#else] lines are no matches, and leave the
    depth as it is.  The scan returns nothing when the depth, seeded at
    1, never comes back to zero, and stops at the first match at which
    it does: the text before that match, whatever its lines, directives
    or not, follows the marker in the text returned, character for
    character up to its last character that is not white space. *)
Theorem c8_depth_changing_lines :
  (forall text d,
     map kind_of (finditer directive_pattern text) =
     map Some (filter_map classify_line (split_lines text)) /\
     depth_trace d (groups1 (finditer directive_pattern text)) =
     kinds_trace d (filter_map classify_line (split_lines text))) /\
  (forall ws x, all_space ws = true ->
     classify_line (ws ++ py "#elif" ++ x) = None /\
     classify_line (ws ++ py "#else" ++ x) = None) /\
  (forall content m pre gs ge,
     search header_guard_pattern content = Some m ->
     group m 1 = Some pre -> start m 2 = Some gs -> end_ m 2 = Some ge ->
     (Forall (fun d => d <> 0)
        (depth_trace 1 (groups1 (finditer directive_pattern
                                   (skipn ge content)))) ->
      replace_header_guard content = Return None) /\
     (forall ms1 dm ms2,
        finditer directive_pattern (skipn ge content) = ms1 ++ dm :: ms2 ->
        Forall (fun d => d <> 0) (depth_trace 1 (groups1 ms1)) ->
        depth_after 1 (groups1 (ms1 ++ [dm])) = 0 ->
        let between_content := firstn (m_start dm) (skipn ge content) in
        let new_content :=
          rstrip (pre ++ (NL :: py "#pragma once" ++ [NL; NL])
                      ++ between_content ++ skipn (ge + m_end dm) content)
          ++ [NL] in
        replace_header_guard content = Return (Some new_content) /\
        forall a c b,
          between_content = a ++ c :: b -> is_space c = false ->
          exists t,
            new_content =
            pre ++ (NL :: py "#pragma once" ++ [NL; NL]) ++ a ++ c :: t)).
Proof.
  split; [|split].
  - intros text d. split; [apply finditer_kinds|].
    apply depth_trace_kinds, finditer_kinds.
  - intros ws x Hws. unfold classify_line.
    rewrite !drop_while_run by first [exact Hws | reflexivity]. now split.
  - intros content m pre gs ge Hm H1 H2 H3. split.
    + intros Hz. apply replace_unterminated. now exists m, pre, gs, ge.
    + intros ms1 dm ms2 Hf Hz Hd. cbn zeta. split.
      * unfold replace_header_guard. rewrite Hm, H1, H2, H3, Hf.
        destruct (scan_closes content pre (skipn ge content) ge ms1
                    [py "#ifndef"] dm ms2) as [Hs _];
          [discriminate | exact Hz | exact Hd |].
        exact Hs.
      * intros a c b Hb Hc. rewrite Hb.
        exists (rstrip (b ++ skipn (ge + m_end dm) content) ++ [NL]).
        set (mk := NL :: py "#pragma once" ++ [NL; NL]).
        set (post := skipn (ge + m_end dm) content).
        replace (pre ++ mk ++ (a ++ c :: b) ++ post)
          with (((pre ++ mk ++ a) ++ [c]) ++ b ++ post)
          by (rewrite <- !app_assoc; reflexivity).
        rewrite rstrip_nonspace by exact Hc.
        rewrite <- !app_assoc. reflexivity.
Qed.

(** C8, on a block with an [#elif] and an [#else] in it, alone and
    inside a guard. *)
Lemma c8_witness :
  (map kind_of (finditer directive_pattern c8_text) = [Some KOpen; Some KClose]
   /\ depth_trace 1 (groups1 (finditer directive_pattern c8_text)) = [2; 1]) /\
  (classify_line (py "  " ++ py "#elif" ++ py " B") = None /\
   classify_line (py "  " ++ py "#else" ++ py " B") = None) /\
  replace_header_guard c8_input = Return (Some c8_output) /\
  exists t,
    c8_output =
    [] ++ (NL :: py "#pragma once" ++ [NL; NL])
       ++ lines_nl ["#ifdef A"; "int a;"; "#elif B"; "int b;"; "#else"]
       ++ "i"%char :: t.
Proof.
  destruct c8_depth_changing_lines as (H1 & H2 & H3).
  split; [exact (H1 c8_text 1)|].
  split; [apply (H2 (py "  ")); reflexivity|].
  destruct (H3 c8_input c8_guard [] 0 20) as [_ H4];
    try (vm_compute; reflexivity).
  destruct (H4 (firstn 2 c8_matches) c8_endif (skipn 3 c8_matches))
    as [H5 H6]; try (vm_compute; reflexivity).
  { vm_compute. repeat constructor; discriminate. }
  split.
  - exact H5.
  - apply (H6 (lines_nl ["#ifdef A"; "int a;"; "#elif B"; "int b;"; "#else"])
              "i"%char (py "nt c;" ++ lines_nl [""; "#endif"]));
      vm_compute; reflexivity.
Defined.

(** ** A mismatched pair is no guard *)

Lemma no_hash_app a b : no_hash (a ++ b) = no_hash a && no_hash b.
Proof. apply forallb_app. Qed.

Lemma no_hash_hash a r : no_hash (a ++ "#"%char :: r) = false.
Proof. rewrite no_hash_app. cbn. apply andb_false_r. Qed.

(** The first [#] of a text is where it is. *)
Lemma first_hash u v a r :
  no_hash u = true -> u ++ "#"%char :: v = a ++ "#"%char :: r ->
  (a = u /\ r = v) \/ (exists z, a = u ++ "#"%char :: z /\ v = z ++ "#"%char :: r).
Proof.
  intros Hu E.
  destruct (cut_cases u ("#"%char :: v) a ("#"%char :: r) E)
    as [(z & Hz & E') | (y & Hy & Ha & E')].
  - destruct z as [|c0 z].
    + left. rewrite app_nil_r in Hz. cbn in E'. injection E' as E'.
      split; congruence.
    + exfalso. cbn in E'. injection E' as <- _.
      rewrite Hz, no_hash_hash in Hu. discriminate Hu.
  - destruct y as [|c0 y]; [now elim Hy|].
    cbn in E'. injection E' as <- E'. right. now exists y.
Qed.

(** In a core, only white space comes before a [#i]. *)
Lemma core_hash_i c name a y :
  is_core c name -> c = a ++ "#"%char :: "i"%char :: y -> all_space a = true.
Proof.
  intros (w0 & w1 & w2 & w3 & Hc & A0 & A1 & _ & An & _ & A2 & _ & A3 & _) E.
  rewrite Hc in E.
  change (py "#ifndef" ++ w1 ++ name ++ w2 ++ py "#define" ++ w3 ++ name)
    with ("#"%char :: py "ifndef" ++ w1 ++ name ++ w2 ++ py "#define"
              ++ w3 ++ name) in E.
  apply first_hash in E as [[-> _] | (z & _ & E)];
    [exact A0 | | now apply all_space_no_hash].
  exfalso.
  replace (py "ifndef" ++ w1 ++ name ++ w2 ++ py "#define" ++ w3 ++ name)
    with ((py "ifndef" ++ w1 ++ name ++ w2)
            ++ "#"%char :: py "define" ++ w3 ++ name) in E
    by (rewrite <- !app_assoc; reflexivity).
  assert (Hn : no_hash (py "ifndef" ++ w1 ++ name ++ w2) = true).
  { rewrite !no_hash_app, (all_space_no_hash _ A1), (all_word_no_hash _ An),
      (all_space_no_hash _ A2). reflexivity. }
  apply first_hash in E as [[_ E] | (z' & _ & E)]; [| |exact Hn].
  - discriminate E.
  - apply (f_equal no_hash) in E.
    rewrite no_hash_hash, !no_hash_app, (all_space_no_hash _ A3),
      (all_word_no_hash _ An) in E. discriminate E.
Qed.

(** What is ahead of an end of line does not depend on what follows
    the first character that is not white space. *)
Lemma eol_ahead_stop z c r r' :
  is_space c = false -> eol_ahead (z ++ c :: r) = eol_ahead (z ++ c :: r').
Proof.
  intros Hc. destruct (all_space z) eqn:Ez.
  - unfold eol_ahead.
    rewrite !take_while_run, !drop_while_run by first [exact Ez | exact Hc].
    reflexivity.
  - destruct (take_drop_false is_space z Ez) as (d & a1 & Hd & _).
    unfold eol_ahead.
    rewrite !(take_while_app_some _ _ _ _ _ Hd),
      !(drop_while_app_some _ _ _ _ _ Hd). reflexivity.
Qed.

(** C7: an [#ifndef FOO] line followed by a [#define BAR] with another
    identifier, where no guard-shaped pair is found in the text up to
    that [#ifndef] nor in the text from the [#define] on, is not
    located as a guard: the search finds nothing and
    [replace_header_guard] returns [None]. *)
Theorem c7_mismatched_identifiers pre w1 foo w2 w3 bar rest_ :
  all_space w1 = true -> w1 <> [] -> all_word foo = true -> foo <> [] ->
  all_space w2 = true -> all_space w3 = true -> w3 <> [] ->
  all_word bar = true -> bar <> [] -> foo <> bar ->
  match rest_ with [] => True | c :: _ => is_word c = false end ->
  search header_guard_pattern (pre ++ py "#ifndef") = None ->
  search header_guard_pattern (py "#define" ++ w3 ++ bar ++ rest_) = None ->
  search header_guard_pattern
    (pre ++ py "#ifndef" ++ w1 ++ foo ++ w2 ++ py "#define" ++ w3 ++ bar
         ++ rest_) = None /\
  replace_header_guard
    (pre ++ py "#ifndef" ++ w1 ++ foo ++ w2 ++ py "#define" ++ w3 ++ bar
         ++ rest_) = Return None.
Proof.
  intros A1 N1 Af Nf A2 A3 N3 Ab Nb Hne Hr Hpre Hdef.
  set (D := py "#define" ++ w3 ++ bar ++ rest_) in *.
  set (M := py "#ifndef" ++ w1 ++ foo ++ w2).
  assert (EC : pre ++ py "#ifndef" ++ w1 ++ foo ++ w2 ++ D = pre ++ M ++ D).
  { unfold M. now rewrite <- !app_assoc. }
  rewrite EC.
  assert (Lpre : locate (pre ++ py "#ifndef") = None).
  { pose proof (search_locate (pre ++ py "#ifndef")) as A.
    destruct (locate (pre ++ py "#ifndef")) as [[[p n] name]|]; [|reflexivity].
    destruct A as (m' & Hm' & _). congruence. }
  assert (LD : locate D = None).
  { pose proof (search_locate D) as A.
    destruct (locate D) as [[[p n] name]|]; [|reflexivity].
    destruct A as (m' & Hm' & _). congruence. }
  assert (HP : forall a, all_space a = true -> guard_here (a ++ M ++ D) = None).
  { intros a Ha. unfold M, D. rewrite <- !app_assoc.
    now apply guard_here_mismatch. }
  assert (HD : guard_here D = None).
  { destruct (guard_here D) as [[n name]|] eqn:E; [|reflexivity].
    apply guard_here_ifndef in E. exfalso. apply E. reflexivity. }
  assert (HM : forall j, 0 < j -> j < List.length M ->
                 guard_here (skipn j M ++ D) = None).
  { intros j Hj Hlt.
    assert (Hn : no_hash (skipn j M) = true).
    { replace j with ((j - 1) + 1) by lia. rewrite <- skipn_skipn.
      change (skipn 1 M) with (py "ifndef" ++ w1 ++ foo ++ w2).
      unfold no_hash. apply forallb_skipn. fold (no_hash (py "ifndef" ++ w1 ++ foo ++ w2)).
      rewrite !no_hash_app, (all_space_no_hash _ A1), (all_word_no_hash _ Af),
        (all_space_no_hash _ A2). reflexivity. }
    destruct (all_space (skipn j M)) eqn:Es.
    - rewrite guard_here_ws by exact Es. now rewrite HD.
    - now apply guard_here_no_hash. }
  assert (Hl : locate (pre ++ M ++ D) = None).
  { apply locate_none_iff. intros q G.
    destruct (Nat.lt_ge_cases q (List.length pre)) as [Hq | Hq].
    - destruct (guard_at_core _ _ G) as (c & name & x & Hsk & Hc & Hx).
      rewrite skipn_app_lt in Hsk by lia.
      destruct (cut_cases (skipn q pre) (M ++ D) c x Hsk)
        as [(z & Hz & Ex) | (y & Hy & Ecy & Ey)].
      + apply (proj1 (locate_none_iff (pre ++ py "#ifndef")) Lpre q).
        apply (core_guard_at _ q c name (z ++ py "#ifndef")); [| |exact Hc|].
        * destruct G as [Gl _].
          rewrite line_start_app_l in Gl by lia.
          rewrite line_start_app_l by lia. exact Gl.
        * rewrite skipn_app_lt by lia. rewrite Hz. now rewrite <- app_assoc.
        * rewrite Ex in Hx. unfold M in Hx. rewrite <- app_assoc in Hx.
          change (py "#ifndef" ++ ?u) with ("#"%char :: py "ifndef" ++ u) in Hx.
          change (py "#ifndef") with ("#"%char :: py "ifndef").
          etransitivity; [|exact Hx]. now apply eol_ahead_stop.
      + destruct y as [|c0 y]; [now elim Hy|].
        assert (EM : M ++ D
                     = "#"%char :: "i"%char :: py "fndef" ++ w1 ++ foo ++ w2 ++ D)
          by (unfold M; rewrite <- !app_assoc; reflexivity).
        rewrite EM in Ey.
        cbn [app] in Ey. injection Ey as <- Ey.
        destruct y as [|c1 y].
        * destruct (core_last_word c name Hc) as (c' & d & Hd & Wd).
          rewrite Ecy in Hd. apply app_inj_tail in Hd as [_ <-].
          discriminate Wd.
        * cbn [app] in Ey. injection Ey as <- Ey.
          pose proof (core_hash_i c name (skipn q pre) y Hc Ecy) as Ha.
          destruct G as [_ Gg]. apply Gg.
          rewrite skipn_app_lt by lia. now apply HP.
    - apply guard_at_right in G; [|exact Hq].
      set (j := q - List.length pre) in *.
      destruct (Nat.eq_dec j 0) as [E0 | E0].
      + rewrite E0 in G. destruct G as [_ Gg]. apply Gg.
        cbn [skipn]. exact (HP [] eq_refl).
      + destruct (Nat.lt_ge_cases j (List.length M)) as [Hj | Hj].
        * destruct G as [_ Gg]. apply Gg.
          rewrite skipn_app_lt by lia. apply HM; lia.
        * apply guard_at_right in G; [|exact Hj].
          exact (proj1 (locate_none_iff D) LD _ G). }
  pose proof (search_none_locate _ Hl) as Hs.
  split; [exact Hs|]. unfold replace_header_guard. now rewrite Hs.
Qed.

(** C7, on [#ifndef FOO] / [#define BAR]. *)
Lemma c7_witness :
  search header_guard_pattern c7_input = None /\
  replace_header_guard c7_input = Return None.
Proof.
  apply (c7_mismatched_identifiers (lines_nl ["// c"]) (py " ") (py "FOO")
           [NL] (py " ") (py "BAR") (NL :: lines_nl ["int x;"; "#endif"]));
    first [reflexivity | discriminate | (vm_compute; reflexivity)].
Defined.

(** ** What [process_file] prints and writes *)

(** X6: The text that [replace_header_guard] returns always differs from
    the one it was given, so the branch of [process_file] for an
    unchanged content is never taken: whenever a call of [process_file]
    returns, "No changes needed" is not among the lines it printed. *)
Theorem process_file_never_unchanged :
  (forall content new_content,
     replace_header_guard content = Return (Some new_content) ->
     content <> new_content) /\
  (forall w file_path dry_run verbose w' p,
     process_file w file_path dry_run verbose = Return w' ->
     ~ In (NoChangesNeeded p) (emitted w w')).
Proof.
  split.
  - intros content new_content H E. subst new_content.
    pose proof (rewritten_differs content content H) as D.
    assert (T : str_eqb content content = true) by now apply str_eqb_eq.
    congruence.
  - intros w file_path dry_run verbose w' p H.
    rewrite process_file_cases in H. injection H as <-.
    assert (Hp : forall m, emitted w (print w m) = [m]).
    { intros m. unfold emitted, print. cbn.
      rewrite skipn_app, skipn_all, Nat.sub_diag. reflexivity. }
    assert (Hw : forall t, emitted w (write w file_path t) = []).
    { intros t. unfold emitted, write. cbn. apply skipn_all. }
    assert (Hpw : forall t m, emitted w (print (write w file_path t) m) = [m]).
    { intros t m. unfold emitted, print, write. cbn.
      rewrite skipn_app, skipn_all, Nat.sub_diag. reflexivity. }
    assert (H0 : emitted w w = []) by (unfold emitted; apply skipn_all).
    destruct (files w file_path) as [content|];
      [|rewrite Hp; intros [Q|[]]; discriminate Q].
    destruct (rewritten content) as [new_content|].
    + destruct dry_run; [rewrite Hp; intros [Q|[]]; discriminate Q|].
      destruct (writable w file_path);
        [|rewrite Hp; intros [Q|[]]; discriminate Q].
      destruct verbose; [rewrite Hpw; intros [Q|[]]; discriminate Q|].
      rewrite Hw. intros [].
    + destruct verbose; [rewrite Hp; intros [Q|[]]; discriminate Q|].
      rewrite H0. intros [].
Qed.

(** X6, on the example of the specification. *)
Lemma process_file_never_unchanged_witness :
  c1_input <> c1_actual /\
  ~ In (NoChangesNeeded "proj/a.h")
       (emitted x_world
          (print (write x_world "proj/a.h" c1_actual) (Updated "proj/a.h"))).
Proof.
  destruct process_file_never_unchanged as [H1 H2]. split.
  - apply H1. vm_compute. reflexivity.
  - apply (H2 x_world "proj/a.h" false true). vm_compute. reflexivity.
Defined.


